(** * dprint: the AST-to-document translator and the wasm formatter wrapper

    A shallow embedding of [src/parsing/parser.ts] (module [Parser]) and
    of the JavaScript wrapper around a wasm formatting plugin (module
    [WasmFormatter]), with the properties the design document states
    about them.

    Conventions of the embedding:
    - a generator function is the list of the items it yields, in the
      order a consumer draws them, together with the effect its body has
      on the translation context (explicit state passing);
    - a handler that returns one print item (a string, a group, an
      [Unknown]) is the generator that yields that item, which is what
      the test [isPrintItemIterator] of [../utils] makes of it where the
      handler is called;
    - object identity (comments in the handled set, [Info] and
      [Condition] objects compared by reference) is an allocation
      number;
    - a JavaScript string is a [string] of code units, each below 256
      (texts of the Latin-1 range), a source line or a writer
      coordinate is a [Z], an offset into the text is a [nat]. *)

From stdpp Require Import gmap strings list.
From Stdlib Require Import ZArith Ascii String Lia.

Set Warnings "-register-all".

Open Scope string_scope.
Open Scope Z_scope.
Open Scope list_scope.

(** ** JavaScript string primitives *)

Module Js.

(** [text.substring(a, b)]: both indices are clamped to the length and
    swapped when they come in the wrong order. *)
Definition substring (text : string) (a b : nat) : string :=
  let len := String.length text in
  let a' := Nat.min a len in
  let b' := Nat.min b len in
  String.substring (Nat.min a' b') (Nat.max a' b' - Nat.min a' b') text.

(** [text.replace(/c/g, by)] for a one-character pattern. *)
Fixpoint replaceAll (c : ascii) (by_ : string) (text : string) : string :=
  match text with
  | EmptyString => EmptyString
  | String x rest =>
      if Ascii.eqb x c then by_ +:+ replaceAll c by_ rest
      else String x (replaceAll c by_ rest)
  end.

(** The white space and the line terminators of ECMAScript among the
    code units a [string] holds, those below 256: tab to carriage
    return (9 to 13), space (32) and no-break space (160). The others
    (U+FEFF, U+2028, U+2029 and the space separators from U+1680 on)
    are code units above 255. *)
Definition isWhiteSpace (c : ascii) : bool :=
  let n := nat_of_ascii c in
  (Nat.eqb n 32 || Nat.eqb n 160 || (Nat.leb 9 n && Nat.leb n 13))%bool.

Fixpoint trimStart (text : string) : string :=
  match text with
  | EmptyString => EmptyString
  | String x rest => if isWhiteSpace x then trimStart rest else text
  end.

Fixpoint trimEnd (text : string) : string :=
  match text with
  | EmptyString => EmptyString
  | String x rest =>
      match trimEnd rest with
      | EmptyString => if isWhiteSpace x then EmptyString else String x EmptyString
      | kept => String x kept
      end
  end.

(** [text.trim()]. *)
Definition trim (text : string) : string := trimEnd (trimStart text).

End Js.

Definition LF : string := String "010" EmptyString.
Definition CRLF : string := String "013" (String "010" EmptyString).

Module Parser.

(** ** The syntax tree handed over by the parser (babel) *)

Inductive CommentType := CommentBlock | CommentLine.

Record Position := { line : Z }.
Record SourceLocation := { loc_start : Position; loc_end : Position }.

(** [comment_id] stands for the identity of the comment object: the
    parser lists one and the same object under several nodes. *)
Record Comment := {
  comment_id : nat;
  comment_type : CommentType;
  comment_value : string;
  comment_loc : SourceLocation
}.

Definition commentTypeName (t : CommentType) : string :=
  match t with CommentBlock => "CommentBlock" | CommentLine => "CommentLine" end.

(** What every node carries. An absent comment array is [None]. *)
Record NodeBase := {
  start : nat;
  end_ : nat;
  loc : SourceLocation;
  leadingComments : option (list Comment);
  trailingComments : option (list Comment);
  innerComments : option (list Comment)
}.

Inductive Keyword :=
| TSStringKeyword | TSNumberKeyword | TSBooleanKeyword | TSAnyKeyword
| TSUnknownKeyword | TSObjectKeyword | ThisExpression.

(** [typeParameters] and [returnType] of a function are a declaration,
    a [Noop] node, or absent; the [typeParameters] of a type alias are
    the [params] of its declaration, or absent. *)
Inductive TypeParameters (N : Type) :=
| TypeParametersNoop
| TypeParameterDeclaration (params : list N).
Arguments TypeParametersNoop {N}.
Arguments TypeParameterDeclaration {N} params.

Inductive ReturnType (N : Type) :=
| ReturnTypeNoop
| TypeAnnotation (typeAnnotation : N).
Arguments ReturnTypeNoop {N}.
Arguments TypeAnnotation {N} typeAnnotation.

(** The node kinds with an entry in [parseObj], with the properties
    their handlers read. [Other] is a node of any further kind: its
    [type] name, and whether it has a [body] property. *)
Inductive Node :=
| Program (b : NodeBase) (body : list Node)
| BlockStatement (b : NodeBase) (body : list Node)
| Identifier (b : NodeBase) (name : string)
| ExportNamedDeclaration (b : NodeBase) (declaration : option Node)
| FunctionDeclaration (b : NodeBase) (async generator : bool) (id : option Node)
    (typeParameters : option (TypeParameters Node)) (params : list Node)
    (returnType : option (ReturnType Node)) (body : Node)
| TSTypeAliasDeclaration (b : NodeBase) (id : Node)
    (typeParameters : option (list Node)) (typeAnnotation : Node)
| ImportDeclaration (b : NodeBase) (specifiers : list Node) (source : Node)
| ExpressionStatement (b : NodeBase) (expression : Node)
| IfStatement (b : NodeBase) (test : Node) (consequent : Node)
| CallExpression (b : NodeBase) (callee : Node) (arguments : list Node)
| ImportDefaultSpecifier (b : NodeBase) (local : Node)
| ImportNamespaceSpecifier (b : NodeBase) (local : Node)
| ImportSpecifier (b : NodeBase) (imported : Node) (local : Node)
| StringLiteral (b : NodeBase) (value : string)
| BooleanLiteral (b : NodeBase) (value : bool)
| KeywordNode (b : NodeBase) (k : Keyword)
| TSTypeParameter (b : NodeBase) (name : string) (constraint : option Node)
    (default : option Node)
| TSUnionType (b : NodeBase) (types : list Node)
| Other (b : NodeBase) (type : string) (hasBodyProperty : bool).

Definition base (n : Node) : NodeBase :=
  match n with
  | Program b _ | BlockStatement b _ | Identifier b _
  | ExportNamedDeclaration b _ | FunctionDeclaration b _ _ _ _ _ _ _
  | TSTypeAliasDeclaration b _ _ _ | ImportDeclaration b _ _
  | ExpressionStatement b _ | IfStatement b _ _ | CallExpression b _ _
  | ImportDefaultSpecifier b _ | ImportNamespaceSpecifier b _
  | ImportSpecifier b _ _ | StringLiteral b _ | BooleanLiteral b _
  | KeywordNode b _ | TSTypeParameter b _ _ _ | TSUnionType b _
  | Other b _ _ => b
  end.

Definition keywordName (k : Keyword) : string :=
  match k with
  | TSStringKeyword => "TSStringKeyword"
  | TSNumberKeyword => "TSNumberKeyword"
  | TSBooleanKeyword => "TSBooleanKeyword"
  | TSAnyKeyword => "TSAnyKeyword"
  | TSUnknownKeyword => "TSUnknownKeyword"
  | TSObjectKeyword => "TSObjectKeyword"
  | ThisExpression => "ThisExpression"
  end.

(** [node.type] *)
Definition nodeType (n : Node) : string :=
  match n with
  | Program _ _ => "Program"
  | BlockStatement _ _ => "BlockStatement"
  | Identifier _ _ => "Identifier"
  | ExportNamedDeclaration _ _ => "ExportNamedDeclaration"
  | FunctionDeclaration _ _ _ _ _ _ _ _ => "FunctionDeclaration"
  | TSTypeAliasDeclaration _ _ _ _ => "TSTypeAliasDeclaration"
  | ImportDeclaration _ _ _ => "ImportDeclaration"
  | ExpressionStatement _ _ => "ExpressionStatement"
  | IfStatement _ _ _ => "IfStatement"
  | CallExpression _ _ _ => "CallExpression"
  | ImportDefaultSpecifier _ _ => "ImportDefaultSpecifier"
  | ImportNamespaceSpecifier _ _ => "ImportNamespaceSpecifier"
  | ImportSpecifier _ _ _ => "ImportSpecifier"
  | StringLiteral _ _ => "StringLiteral"
  | BooleanLiteral _ _ => "BooleanLiteral"
  | KeywordNode _ k => keywordName k
  | TSTypeParameter _ _ _ _ => "TSTypeParameter"
  | TSUnionType _ _ => "TSUnionType"
  | Other _ type _ => type
  end.

Definition startLine (b : NodeBase) : Z := line (loc_start (loc b)).
Definition endLine (b : NodeBase) : Z := line (loc_end (loc b)).
Definition commentStartLine (c : Comment) : Z := line (loc_start (comment_loc c)).
Definition commentEndLine (c : Comment) : Z := line (loc_end (comment_loc c)).

(** The file as the parser returns it. *)
Record File := { program : Node }.

(** ** The print items ([../types]) *)

Inductive Behaviour :=
| SpaceOrNewLine | ExpectNewLine
| StartIndent | FinishIndent
| StartHangingIndent | FinishHangingIndent.

(** An [Info] is compared by reference: [info_id] is that reference. *)
Record Info := { info_id : nat; info_name : string }.

Record WriterInfo := {
  lineNumber : Z;
  columnNumber : Z;
  lineStartIndentLevel : Z
}.

(** What a condition may consult when it is resolved. *)
Record ResolveConditionContext := {
  getResolvedInfo : Info -> option WriterInfo;
  writerInfo : WriterInfo
}.

(** A print item is a string, a [Behaviour], an [Info], a [Condition], a
    [Group] or an [Unknown]. The [condition] of a [Condition] is a
    function of the resolution context whose result may be [undefined]
    ([None]), or another [Condition]; its branches may be absent. *)
Inductive PrintItem :=
| PString (s : string)
| PBehaviour (b : Behaviour)
| PInfo (i : Info)
| PCondition (c : Condition)
| PGroup (g : Group)
| PUnknown (text : string)
with Condition :=
| mkCondition (cond_id : nat) (cond_name : string) (cond_condition : Resolver)
    (cond_true cond_false : option (list PrintItem))
with Resolver :=
| ResolveFunction (f : ResolveConditionContext -> option bool)
| ResolveCondition (c : Condition)
with Group :=
| mkGroup (items : list PrintItem).

Definition cond_id (c : Condition) : nat :=
  match c with mkCondition i _ _ _ _ => i end.
Definition cond_name (c : Condition) : string :=
  match c with mkCondition _ n _ _ _ => n end.
Definition cond_condition (c : Condition) : Resolver :=
  match c with mkCondition _ _ r _ _ => r end.
Definition cond_true (c : Condition) : option (list PrintItem) :=
  match c with mkCondition _ _ _ t _ => t end.
Definition cond_false (c : Condition) : option (list PrintItem) :=
  match c with mkCondition _ _ _ _ f => f end.
Definition items (g : Group) : list PrintItem :=
  match g with mkGroup l => l end.

(** ** The translation context *)

Inductive NewLineKindOption := NewLineAuto | NewLineCRLF | NewLineLF.

(** [ResolvedConfiguration], the options the translator reads. *)
Record ResolvedConfiguration := {
  newLineKindOption : NewLineKindOption;
  singleQuotes : bool;
  importDeclaration_semiColon : bool;
  typeAlias_semiColon : bool;
  expressionStatement_semiColon : bool
}.

(** The [Context] object. [console] is what the [log] callback has
    written so far and [nextId] numbers the [Info] and [Condition]
    objects created so far. [currentNode] and [parentStack] are left
    out: [parseNode] restores them before it returns and nothing in the
    translator reads them. *)
Record Context := {
  fileText : string;
  log : string -> list string -> list string;
  options : ResolvedConfiguration;
  handledComments : gset nat;
  newLineKind : string;
  console : list string;
  nextId : nat
}.

Definition withHandledComments (h : gset nat) (c : Context) : Context :=
  {| fileText := fileText c; log := log c; options := options c;
     handledComments := h; newLineKind := newLineKind c;
     console := console c; nextId := nextId c |}.

Definition withConsole (out : list string) (c : Context) : Context :=
  {| fileText := fileText c; log := log c; options := options c;
     handledComments := handledComments c; newLineKind := newLineKind c;
     console := out; nextId := nextId c |}.

Definition withNextId (n : nat) (c : Context) : Context :=
  {| fileText := fileText c; log := log c; options := options c;
     handledComments := handledComments c; newLineKind := newLineKind c;
     console := console c; nextId := n |}.

(** A computation that reads and updates the context. *)
Definition M (A : Type) : Type := Context -> A * Context.

Definition ret {A} (a : A) : M A := fun c => (a, c).
Definition bind {A B} (m : M A) (k : A -> M B) : M B :=
  fun c => let (a, c') := m c in k a c'.

Notation "'let*' x ':=' m 'in' k" := (bind m (fun x => k))
  (at level 10, x name, m at level 100, k at level 200).

Definition getContext : M Context := fun c => (c, c).

(** A generator: the items it yields. *)
Definition Gen : Type := M (list PrintItem).

Definition yieldNothing : Gen := ret [].
Definition yield (item : PrintItem) : Gen := ret [item].
Definition yieldString (s : string) : Gen := yield (PString s).
Definition yieldNewLine : Gen := fun c => ([PString (newLineKind c)], c).

Definition andThen (g1 g2 : Gen) : Gen :=
  let* a := g1 in let* b := g2 in ret (a ++ b).
Infix ";;;" := andThen (at level 62, right associativity).

Definition yieldIf (cond : bool) (g : Gen) : Gen :=
  if cond then g else yieldNothing.

(** [createInfo] and the object literals of kind [Condition] allocate. *)
Definition freshId : M nat :=
  fun c => (nextId c, withNextId (S (nextId c)) c).

Definition createInfo (name : string) : M Info :=
  let* i := freshId in ret {| info_id := i; info_name := name |}.

Definition createCondition (name : string) (r : Resolver)
    (t f : option (list PrintItem)) : M Condition :=
  let* i := freshId in ret (mkCondition i name r t f).

(** ** The translator *)

Section Translator.

(** Imported from [../utils] and [../configuration]. *)
Variable removeStringIndentation :
  string -> forall (indentSizeInSpaces : Z) (isInStringAtPos : Z -> bool), string.
Variable resolveNewLineKindFromText : string -> string.

(** *** Checks and layout decisions *)

Definition isMultipleLines (startInfo endInfo : Info)
    (conditionContext : ResolveConditionContext) (defaultValue : bool) : bool :=
  match getResolvedInfo conditionContext startInfo,
        getResolvedInfo conditionContext endInfo with
  | Some resolvedStartInfo, Some resolvedEndInfo =>
      Z.gtb (lineNumber resolvedEndInfo) (lineNumber resolvedStartInfo)
  | _, _ => defaultValue
  end.

Definition areInfoEqual (startInfo endInfo : Info)
    (conditionContext : ResolveConditionContext) (defaultValue : bool) : bool :=
  match getResolvedInfo conditionContext startInfo,
        getResolvedInfo conditionContext endInfo with
  | Some resolvedStartInfo, Some resolvedEndInfo =>
      Z.eqb (lineNumber resolvedStartInfo) (lineNumber resolvedEndInfo)
      && Z.eqb (columnNumber resolvedStartInfo) (columnNumber resolvedEndInfo)
  | _, _ => defaultValue
  end.

Definition getUseNewLinesForNodes (nodes : list Node) : bool :=
  if Nat.leb (List.length nodes) 1 then false
  else
    match nodes with
    | n0 :: n1 :: _ =>
        if Z.eqb (startLine (base n0)) (startLine (base n1)) then false else true
    | _ => false
    end.

Definition useNewLinesForParametersOrArguments (params : list Node) : bool :=
  getUseNewLinesForNodes params.

(** [node.body != null] *)
Definition hasBody (node : Node) : bool :=
  match node with
  | Program _ _ | BlockStatement _ _ | FunctionDeclaration _ _ _ _ _ _ _ _ => true
  | Other _ _ hasBodyProperty => hasBodyProperty
  | _ => false
  end.

Definition includes (comments : list Comment) (c : Comment) : bool :=
  existsb (fun x => Nat.eqb (comment_id x) (comment_id c)) comments.

Definition hasLeadingCommentOnDifferentLine (node : Node)
    (commentsToIgnore : option (list Comment)) : bool :=
  match leadingComments (base node) with
  | None => false
  | Some comments =>
      existsb (fun c =>
        if match commentsToIgnore with
           | Some ignored => includes ignored c
           | None => false
           end
        then false
        else
          match comment_type c with
          | CommentLine => true
          | CommentBlock => Z.ltb (commentStartLine c) (startLine (base node))
          end) comments
  end.

(** *** Indentation and new line wrappers *)

Definition surroundWithNewLines (item : Gen) : Gen :=
  yieldNewLine ;;; item ;;; yieldNewLine.

Definition withIndent (item : Gen) : Gen :=
  yield (PBehaviour StartIndent) ;;; item ;;; yield (PBehaviour FinishIndent).

Definition withHangingIndent (item : Gen) : Gen :=
  yield (PBehaviour StartHangingIndent) ;;; item
  ;;; yield (PBehaviour FinishHangingIndent).

Definition prependToIterableIfHasItems {T} (iterable : list T) (prefix : list T)
    : list T :=
  match iterable with
  | [] => []
  | _ :: _ => prefix ++ iterable
  end.

(** *** Reusable conditions *)

Definition isHanging (info : Info) (conditionContext : ResolveConditionContext)
    : option bool :=
  match getResolvedInfo conditionContext info with
  | None => None
  | Some resolvedInfo =>
      Some (Z.gtb (lineStartIndentLevel (writerInfo conditionContext))
                  (lineStartIndentLevel resolvedInfo))
  end.

Definition getIsHangingCondition (info : Info) : M Condition :=
  createCondition "isHangingCondition" (ResolveFunction (isHanging info)) None None.

Definition newLineIfHangingSpaceOtherwise (info : Info) : M Condition :=
  let* context := getContext in
  createCondition "newLineIfHangingSpaceOtherwise"
    (ResolveFunction (isHanging info))
    (Some [PString (newLineKind context)]) (Some [PString " "]).

(** *** Comments *)

Definition parseCommentBlock (comment : Comment) : list PrintItem :=
  [PString "/*"; PString (comment_value comment); PString "*/"].

Definition parseCommentLine (comment : Comment) : list PrintItem :=
  [PString ("// " +:+ Js.trim (comment_value comment)); PBehaviour ExpectNewLine].

Definition isHandled (comment : Comment) (context : Context) : bool :=
  bool_decide (comment_id comment ∈ handledComments context).

Definition parseComment (comment : Comment) : Gen :=
  fun context =>
    if isHandled comment context then ([], context)
    else
      let context' :=
        withHandledComments ({[comment_id comment]} ∪ handledComments context)
                            context in
      match comment_type comment with
      | CommentBlock => (parseCommentBlock comment, context')
      | CommentLine => (parseCommentLine comment, context')
      end.

(** The element a comment collection continues after: a node or the
    comment emitted before. *)
Inductive LastNode :=
| LastIsNode (n : Node)
| LastIsComment (c : Comment).

Definition lastType (l : LastNode) : string :=
  match l with
  | LastIsNode n => nodeType n
  | LastIsComment c => commentTypeName (comment_type c)
  end.

Definition lastEndLine (l : LastNode) : Z :=
  match l with
  | LastIsNode n => endLine (base n)
  | LastIsComment c => commentEndLine c
  end.

(** What [parseCommentCollection] yields in front of a comment. *)
Definition commentSeparator (newLine : string) (lastNode : option LastNode)
    (comment : Comment) : list PrintItem :=
  match lastNode with
  | None => []
  | Some lastNode =>
      (if Z.ltb (lastEndLine lastNode) (commentStartLine comment - 1)
       then [PString newLine; PString newLine] else [])
      ++
      (if Z.ltb (lastEndLine lastNode) (commentStartLine comment)
       then [PString newLine]
       else
         match comment_type comment with
         | CommentLine => [PString " "]
         | CommentBlock =>
             if String.eqb (lastType lastNode) "CommentBlock"
             then [PString " "] else []
         end)
  end.

Fixpoint parseCommentCollection (comments : list Comment)
    (lastNode : option LastNode) : Gen :=
  match comments with
  | [] => yieldNothing
  | comment :: rest =>
      fun context =>
        if isHandled comment context
        then parseCommentCollection rest lastNode context
        else
          ((ret (commentSeparator (newLineKind context) lastNode comment))
           ;;; parseComment comment
           ;;; parseCommentCollection rest (Some (LastIsComment comment))) context
  end.

Definition parseLeadingComments (node : Node) : Gen :=
  match leadingComments (base node) with
  | None => yieldNothing
  | Some comments => parseCommentCollection comments None
  end.

Definition parseTrailingComments (node : Node) : Gen :=
  match trailingComments (base node) with
  | None => yieldNothing
  | Some comments => parseCommentCollection comments (Some (LastIsNode node))
  end.

Definition getWithComments (node : Node) (nodePrintItem : Gen) : Gen :=
  parseLeadingComments node ;;; nodePrintItem ;;; parseTrailingComments node.

(** *** The handlers of [parseObj]

    Each handler takes [parseNode], the function it calls on its
    children; the knot is tied in [parseNodePresent] below. *)

Section Handlers.

Variable parseNode : option Node -> M Group.

Definition yieldNode (node : option Node) : Gen :=
  let* group := parseNode node in yield (PGroup group).

(** The loop of [parseParameterList]: a separator after every element
    but the last. *)
Fixpoint parseParameterListItems (separator : Gen) (params : list Node) : Gen :=
  match params with
  | [] => yieldNothing
  | [param] => yieldNode (Some param)
  | param :: rest =>
      yieldNode (Some param) ;;; yieldString "," ;;; separator
      ;;; parseParameterListItems separator rest
  end.

(** The loops that put a separator in front of every element but the
    first: over [select]ed elements of [nodes], [atFirst] telling
    whether none was met yet. *)
Fixpoint parseSeparatedItems (select : Node -> bool) (separator : Gen)
    (atFirst : bool) (nodes : list Node) : Gen :=
  match nodes with
  | [] => yieldNothing
  | node :: rest =>
      if select node
      then yieldIf (negb atFirst) separator ;;; yieldNode (Some node)
           ;;; parseSeparatedItems select separator false rest
      else parseSeparatedItems select separator atFirst rest
  end.

(** [parseNode(nodes.find(select))] when there is such a node. *)
Fixpoint yieldFirstNode (select : Node -> bool) (nodes : list Node) : Gen :=
  match nodes with
  | [] => yieldNothing
  | node :: rest =>
      if select node then yieldNode (Some node) else yieldFirstNode select rest
  end.

Definition statementSeparator (newLine : string) (previous current : Node)
    : list PrintItem :=
  if hasBody previous || hasBody current
  then [PString newLine; PString newLine]
  else [PString newLine].

Fixpoint parseStatementsFrom (previous : option Node) (statements : list Node)
    : Gen :=
  match statements with
  | [] => yieldNothing
  | statement :: rest =>
      (match previous with
       | None => yieldNothing
       | Some previous =>
           fun context =>
             (statementSeparator (newLineKind context) previous statement, context)
       end)
      ;;; yieldNode (Some statement)
      ;;; parseStatementsFrom (Some statement) rest
  end.

Definition parseStatements (body : list Node) (block : NodeBase) : Gen :=
  parseStatementsFrom None body
  ;;; match innerComments block with
      | None => yieldNothing
      | Some comments => parseCommentCollection comments None
      end.

Definition parseParametersOrArguments (params : list Node) : Gen :=
  let useNewLines := useNewLinesForParametersOrArguments params in
  let parseParameterList :=
    parseParameterListItems
      (if useNewLines then yieldNewLine else yield (PBehaviour SpaceOrNewLine))
      params in
  yieldString "("
  ;;; (if useNewLines then surroundWithNewLines (withIndent parseParameterList)
       else withHangingIndent parseParameterList)
  ;;; yieldString ")".

(* file *)

Definition parseProgram (b : NodeBase) (body : list Node) : Gen :=
  parseStatements body b.

(* common *)

Fixpoint getFirstLineTrailingComments (block : NodeBase)
    (comments : list Comment) : Gen :=
  match comments with
  | [] => yieldNothing
  | trailingComment :: rest =>
      (if Z.eqb (commentStartLine trailingComment) (startLine block)
       then
         (match comment_type trailingComment with
          | CommentLine => yieldString " "
          | CommentBlock => yieldNothing
          end) ;;; parseComment trailingComment
       else yieldNothing)
      ;;; getFirstLineTrailingComments block rest
  end.

Definition parseBlockStatement (b : NodeBase) (body : list Node) : Gen :=
  yieldString "{"
  ;;; match trailingComments b with
      | None => yieldNothing
      | Some comments => getFirstLineTrailingComments b comments
      end
  ;;; yieldNewLine
  ;;; withIndent (parseStatements body b)
  ;;; yieldString "}".

Definition parseIdentifier (name : string) : Gen := yieldString name.

(* declarations *)

Definition isType (type : string) (node : Node) : bool :=
  String.eqb (nodeType node) type.

Definition present {A} (o : option A) : bool :=
  match o with Some _ => true | None => false end.

(** [getUseNewLines] of [parseNamedImports], [node] being the import
    declaration. *)
Definition getUseNewLines (node : NodeBase) (namedImports : list Node) : bool :=
  match namedImports with
  | [only] =>
      if negb (Z.eqb (startLine (base only)) (startLine node)) then true
      else getUseNewLinesForNodes namedImports
  | _ => getUseNewLinesForNodes namedImports
  end.

Definition parseImportDeclaration (b : NodeBase) (specifiers : list Node)
    (source : Node) : Gen :=
  let defaultImport := List.find (isType "ImportDefaultSpecifier") specifiers in
  let namespaceImport := List.find (isType "ImportNamespaceSpecifier") specifiers in
  let namedImports := List.filter (isType "ImportSpecifier") specifiers in
  let parseNamedImports : Gen :=
    if Nat.eqb (List.length namedImports) 0 then yieldNothing
    else
      let useNewLines := getUseNewLines b namedImports in
      let braceSeparator : Gen :=
        if useNewLines then yieldNewLine else yieldString " " in
      let parseSpecifiers :=
        parseSeparatedItems (isType "ImportSpecifier")
          (yieldString ","
           ;;; (if useNewLines then yieldNewLine
                else yield (PBehaviour SpaceOrNewLine)))
          true specifiers in
      yieldString "{" ;;; braceSeparator
      ;;; (if useNewLines then withIndent parseSpecifiers
           else withHangingIndent parseSpecifiers)
      ;;; braceSeparator ;;; yieldString "}" in
  yieldString "import "
  ;;; yieldIf (present defaultImport)
        (yieldFirstNode (isType "ImportDefaultSpecifier") specifiers
         ;;; yieldIf (present namespaceImport
                      || Nat.ltb 0 (List.length namedImports))
               (yieldString ", "))
  ;;; yieldIf (present namespaceImport)
        (yieldFirstNode (isType "ImportNamespaceSpecifier") specifiers)
  ;;; parseNamedImports
  ;;; yieldIf (present defaultImport
               || present namespaceImport
               || Nat.ltb 0 (List.length namedImports))
        (yieldString " from ")
  ;;; yieldNode (Some source)
  ;;; (fun context =>
         yieldIf (importDeclaration_semiColon (options context))
                 (yieldString ";") context).

Definition parseImportDefaultSpecifier (local : Node) : Gen :=
  yieldNode (Some local).

Definition parseImportNamespaceSpecifier (local : Node) : Gen :=
  yieldString "* as " ;;; yieldNode (Some local).

Definition parseImportSpecifier (imported local : Node) : Gen :=
  if Nat.eqb (start (base imported)) (start (base local))
  then yieldNode (Some imported)
  else yieldNode (Some imported) ;;; yieldString " as " ;;; yieldNode (Some local).

Definition parseExportNamedDeclaration (declaration : option Node) : Gen :=
  yieldString "export " ;;; yieldNode declaration.

Definition parseTypeParameterDeclaration (params : list Node) : M Group :=
  let useNewLines := getUseNewLinesForNodes params in
  let parseParameterList :=
    parseParameterListItems (yield (PBehaviour SpaceOrNewLine)) params in
  let* parsed :=
    yieldString "<"
    ;;; (if useNewLines then surroundWithNewLines (withIndent parseParameterList)
         else withHangingIndent parseParameterList)
    ;;; yieldString ">" in
  ret (mkGroup parsed).

Definition yieldTypeParameterDeclaration (params : list Node) : Gen :=
  let* group := parseTypeParameterDeclaration params in yield (PGroup group).

Definition parseFunctionDeclaration (async generator : bool) (id : option Node)
    (typeParameters : option (TypeParameters Node)) (params : list Node)
    (returnType : option (ReturnType Node)) (body : Node) : Gen :=
  let parseHeader : Gen :=
    let* functionHeaderStartInfo := createInfo "functionHeaderStart" in
    yield (PInfo functionHeaderStartInfo)
    ;;; yieldIf async (yieldString "async ")
    ;;; yieldString "function"
    ;;; yieldIf generator (yieldString "*")
    ;;; match id with
        | Some _ => yieldString " " ;;; yieldNode id
        | None => yieldNothing
        end
    ;;; match typeParameters with
        | Some (TypeParameterDeclaration declared) =>
            yieldTypeParameterDeclaration declared
        | _ => yieldNothing
        end
    ;;; parseParametersOrArguments params
    ;;; match returnType with
        | Some (TypeAnnotation typeAnnotation) =>
            yieldString ": " ;;; yieldNode (Some typeAnnotation)
        | _ => yieldNothing
        end
    ;;; (let* condition := newLineIfHangingSpaceOtherwise functionHeaderStartInfo in
         yield (PCondition condition)) in
  parseHeader ;;; yieldNode (Some body).

Definition parseTypeAlias (id : Node)
    (typeParameters : option (list Node)) (typeAnnotation : Node) : Gen :=
  yieldString "type "
  ;;; yieldNode (Some id)
  ;;; match typeParameters with
      | Some declared => yieldTypeParameterDeclaration declared
      | None => yieldNothing
      end
  ;;; yieldString " = "
  ;;; yieldNode (Some typeAnnotation)
  ;;; (fun context =>
         yieldIf (typeAlias_semiColon (options context)) (yieldString ";") context).

(* statements *)

Definition parseExpressionStatement (expression : Node) : Gen :=
  yieldNode (Some expression)
  ;;; (fun context =>
         yieldIf (expressionStatement_semiColon (options context))
                 (yieldString ";") context).

(** [getHeaderTrailingComments] of [parseIfStatement]. *)
Definition checkComments (consequent : Node) (comments : list Comment)
    : list Comment :=
  List.filter
    (fun comment => Z.eqb (commentStartLine comment) (startLine (base consequent)))
    comments.

Definition checkLeadingComments (consequent : Node) (node : Node) : list Comment :=
  match leadingComments (base node) with
  | Some comments => checkComments consequent comments
  | None => []
  end.

Definition isCommentLine (c : Comment) : bool :=
  match comment_type c with CommentLine => true | CommentBlock => false end.

Definition getHeaderTrailingComments (consequent : Node) : list Comment :=
  match consequent with
  | BlockStatement b body =>
      match
        match leadingComments b with
        | Some comments => List.find isCommentLine comments
        | None => None
        end
      with
      | Some commentLine => [commentLine]
      | None =>
          match body with
          | first :: _ => checkLeadingComments consequent first
          | [] =>
              match innerComments b with
              | Some comments => checkComments consequent comments
              | None => []
              end
          end
      end
  | _ => checkLeadingComments consequent consequent
  end.

Definition consequentRequiresBraces (headerTrailingComments : list Comment)
    (statement : Node) : bool :=
  match statement with
  | BlockStatement _ body =>
      match body with
      | [only] =>
          if negb (hasLeadingCommentOnDifferentLine only (Some headerTrailingComments))
          then false else true
      | _ => true
      end
  | _ => hasLeadingCommentOnDifferentLine statement (Some headerTrailingComments)
  end.

(** The [condition] functions of the three conditions of an if statement. *)
Definition openBraceResolver (requireBraces : bool)
    (startHeaderInfo endHeaderInfo startStatementsInfo endStatementsInfo : Info)
    (conditionContext : ResolveConditionContext) : option bool :=
  Some (requireBraces
        || isMultipleLines startHeaderInfo endHeaderInfo conditionContext false
        || isMultipleLines startStatementsInfo endStatementsInfo conditionContext false).

Definition closeBraceNewLineResolver (startStatementsInfo endStatementsInfo : Info)
    (conditionContext : ResolveConditionContext) : option bool :=
  Some (negb (areInfoEqual startStatementsInfo endStatementsInfo conditionContext false)).

(** What [parseIfStatement] yields for the branch, between
    [startStatementsInfo] and [endStatementsInfo]. *)
Definition parseConsequent (consequent : Node) : Gen :=
  match consequent with
  | BlockStatement b body =>
      withIndent (parseLeadingComments consequent ;;; parseStatements body b)
      ;;; parseTrailingComments consequent
  | _ => withIndent (yieldNode (Some consequent))
  end.

Definition parseIfStatement (test consequent : Node) : Gen :=
  let* startHeaderInfo := createInfo "startHeader" in
  let* header :=
    yield (PInfo startHeaderInfo) ;;; yieldString "if ("
    ;;; yieldNode (Some test) ;;; yieldString ")" in
  let* endHeaderInfo := createInfo "endHeader" in
  let headerTrailingComments := getHeaderTrailingComments consequent in
  let requireBraces := consequentRequiresBraces headerTrailingComments consequent in
  let* startStatementsInfo := createInfo "startStatements" in
  let* endStatementsInfo := createInfo "endStatements" in
  let* separator := newLineIfHangingSpaceOtherwise startHeaderInfo in
  let* openBraceCondition :=
    createCondition "openBrace"
      (ResolveFunction
         (openBraceResolver requireBraces startHeaderInfo endHeaderInfo
            startStatementsInfo endStatementsInfo))
      (Some [PCondition separator; PString "{"]) None in
  let* headerTrailingComment :=
    (let* result := parseCommentCollection headerTrailingComments None in
     ret (prependToIterableIfHasItems result [PString " "])) in
  let* statements :=
    yieldNewLine ;;; yield (PInfo startStatementsInfo)
    ;;; parseConsequent consequent in
  let* context := getContext in
  let* closeBraceNewLine :=
    createCondition "closeBraceNewLine"
      (ResolveFunction
         (closeBraceNewLineResolver startStatementsInfo endStatementsInfo))
      (Some [PString (newLineKind context)]) None in
  let* closeBrace :=
    createCondition "closeBrace" (ResolveCondition openBraceCondition)
      (Some [PCondition closeBraceNewLine; PString "}"]) None in
  ret (header ++ [PInfo endHeaderInfo] ++ [PCondition openBraceCondition]
       ++ headerTrailingComment ++ statements
       ++ [PInfo endStatementsInfo] ++ [PCondition closeBrace]).

(* expressions *)

Definition parseCallExpression (callee : Node) (arguments : list Node) : Gen :=
  yieldNode (Some callee) ;;; parseParametersOrArguments arguments.

(* literals *)

Definition doubleQuote : ascii := "034".

Definition parseStringLiteral (value : string) : Gen :=
  fun context =>
    if singleQuotes (options context)
    then yieldString ("'" +:+ Js.replaceAll "'" "\'" value +:+ "'") context
    else
      let quote := String doubleQuote EmptyString in
      yieldString
        (quote +:+ Js.replaceAll doubleQuote (String "\" quote) value +:+ quote)
        context.

Definition parseBooleanLiteral (value : bool) : Gen :=
  yieldString (if value then "true" else "false").

Definition parseKeyword (k : Keyword) : Gen :=
  yieldString
    match k with
    | TSStringKeyword => "string"
    | TSNumberKeyword => "number"
    | TSBooleanKeyword => "boolean"
    | TSAnyKeyword => "any"
    | TSUnknownKeyword => "unknown"
    | TSObjectKeyword => "object"
    | ThisExpression => "this"
    end.

Definition unknownNodeMessage (type nodeText : string) : string :=
  "Not implemented node type: " +:+ type +:+ " (" +:+ nodeText +:+ ")".

Definition parseUnknownNode (b : NodeBase) (type : string) : Gen :=
  fun context =>
    let nodeText := Js.substring (fileText context) (start b) (end_ b) in
    let context' :=
      withConsole (log context (unknownNodeMessage type nodeText) (console context))
                  context in
    ([PUnknown (removeStringIndentation nodeText 2 (fun _ => false))], context').

(* types *)

Definition parseTypeParameter (name : string) (constraint default : option Node)
    : Gen :=
  yieldString name
  ;;; match constraint with
      | Some _ => yieldString " extends " ;;; yieldNode constraint
      | None => yieldNothing
      end
  ;;; match default with
      | Some _ => yieldString " = " ;;; yieldNode default
      | None => yieldNothing
      end.

Definition parseUnionType (types : list Node) : Gen :=
  let useNewLines := getUseNewLinesForNodes types in
  withHangingIndent
    (parseSeparatedItems (fun _ => true)
       ((if useNewLines then yieldNewLine else yield (PBehaviour SpaceOrNewLine))
        ;;; yieldString "| ")
       true types).

(** [parseObj]: the handler of each node kind, [parseUnknownNode] for
    the kinds without an entry. *)
Definition parseFunc (node : Node) : Gen :=
  match node with
  | Program b body => parseProgram b body
  | BlockStatement b body => parseBlockStatement b body
  | Identifier _ name => parseIdentifier name
  | ExportNamedDeclaration _ declaration => parseExportNamedDeclaration declaration
  | FunctionDeclaration _ async generator id typeParameters params returnType body =>
      parseFunctionDeclaration async generator id typeParameters params returnType body
  | TSTypeAliasDeclaration _ id typeParameters typeAnnotation =>
      parseTypeAlias id typeParameters typeAnnotation
  | ImportDeclaration b specifiers source => parseImportDeclaration b specifiers source
  | ExpressionStatement _ expression => parseExpressionStatement expression
  | IfStatement _ test consequent => parseIfStatement test consequent
  | CallExpression _ callee arguments => parseCallExpression callee arguments
  | ImportDefaultSpecifier _ local => parseImportDefaultSpecifier local
  | ImportNamespaceSpecifier _ local => parseImportNamespaceSpecifier local
  | ImportSpecifier _ imported local => parseImportSpecifier imported local
  | StringLiteral _ value => parseStringLiteral value
  | BooleanLiteral _ value => parseBooleanLiteral value
  | KeywordNode _ k => parseKeyword k
  | TSTypeParameter _ name constraint default =>
      parseTypeParameter name constraint default
  | TSUnionType _ types => parseUnionType types
  | Other b type _ => parseUnknownNode b type
  end.

End Handlers.

(** The names with an entry in [parseObj]. *)
Definition parseObjKeys : list string :=
  [ "Program"; "BlockStatement"; "Identifier"; "ExportNamedDeclaration";
    "FunctionDeclaration"; "TSTypeAliasDeclaration"; "ImportDeclaration";
    "ExpressionStatement"; "IfStatement"; "CallExpression";
    "ImportDefaultSpecifier"; "ImportNamespaceSpecifier"; "ImportSpecifier";
    "StringLiteral"; "BooleanLiteral"; "TSStringKeyword"; "TSNumberKeyword";
    "TSBooleanKeyword"; "TSAnyKeyword"; "TSUnknownKeyword"; "TSObjectKeyword";
    "ThisExpression"; "TSTypeParameter"; "TSUnionType" ].

Definition hasHandler (type : string) : bool :=
  existsb (String.eqb type) parseObjKeys.

(** [parseNode] on a node that is there. *)
Fixpoint parseNodePresent (node : Node) {struct node} : M Group :=
  let parseNode (child : option Node) : M Group :=
    match child with
    | None => ret (mkGroup [])
    | Some child => parseNodePresent child
    end in
  let* parsed := getWithComments node (parseFunc parseNode node) in
  ret (mkGroup parsed).

Definition parseNode (node : option Node) : M Group :=
  match node with
  | None => ret (mkGroup [])
  | Some node => parseNodePresent node
  end.

Definition endOfFileNewLineResolver (conditionContext : ResolveConditionContext)
    : option bool :=
  Some (Z.gtb (columnNumber (writerInfo conditionContext)) 0
        || Z.gtb (lineNumber (writerInfo conditionContext)) 0).

Definition newParseContext (fileText : string) (options : ResolvedConfiguration)
    : Context :=
  {| fileText := fileText;
     log := fun message out => out ++ ["[dprint]: " +:+ message];
     options := options;
     handledComments := ∅;
     newLineKind :=
       match newLineKindOption options with
       | NewLineAuto => resolveNewLineKindFromText fileText
       | NewLineCRLF => CRLF
       | NewLineLF => LF
       end;
     console := [];
     nextId := 0 |}.

(** [parseFile]: the group, and the context as translation leaves it. *)
Definition parseFile (file : File) (fileText : string)
    (options : ResolvedConfiguration) : Group * Context :=
  (let* program := parseNode (Some (program file)) in
   let* context := getContext in
   let* endOfFileNewLine :=
     createCondition "endOfFileNewLine" (ResolveFunction endOfFileNewLineResolver)
       (Some [PString (newLineKind context)]) None in
   ret (mkGroup [PGroup program; PCondition endOfFileNewLine]))
  (newParseContext fileText options).

End Translator.

(** ** What the design document says, in its own words *)

(** Every comment object of the input: the comments attached to a node
    and to the nodes below it. *)
Definition attachedComments (b : NodeBase) : list Comment :=
  default [] (leadingComments b) ++ default [] (innerComments b)
  ++ default [] (trailingComments b).

Fixpoint allComments (node : Node) : list Comment :=
  let ofList := fix ofList (nodes : list Node) : list Comment :=
    match nodes with
    | [] => []
    | n :: rest => allComments n ++ ofList rest
    end in
  let ofOption (node : option Node) : list Comment :=
    match node with Some n => allComments n | None => [] end in
  attachedComments (base node) ++
  match node with
  | Program _ body | BlockStatement _ body => ofList body
  | ExportNamedDeclaration _ declaration => ofOption declaration
  | FunctionDeclaration _ _ _ id typeParameters params returnType body =>
      ofOption id
      ++ match typeParameters with
         | Some (TypeParameterDeclaration declared) => ofList declared
         | _ => []
         end
      ++ ofList params
      ++ match returnType with
         | Some (TypeAnnotation typeAnnotation) => allComments typeAnnotation
         | _ => []
         end
      ++ allComments body
  | TSTypeAliasDeclaration _ id typeParameters typeAnnotation =>
      allComments id
      ++ match typeParameters with Some declared => ofList declared | None => [] end
      ++ allComments typeAnnotation
  | ImportDeclaration _ specifiers source => ofList specifiers ++ allComments source
  | ExpressionStatement _ expression => allComments expression
  | IfStatement _ test consequent => allComments test ++ allComments consequent
  | CallExpression _ callee arguments => allComments callee ++ ofList arguments
  | ImportDefaultSpecifier _ local | ImportNamespaceSpecifier _ local =>
      allComments local
  | ImportSpecifier _ imported local => allComments imported ++ allComments local
  | TSTypeParameter _ _ constraint default_ => ofOption constraint ++ ofOption default_
  | TSUnionType _ types => ofList types
  | Identifier _ _ | StringLiteral _ _ | BooleanLiteral _ _ | KeywordNode _ _
  | Other _ _ _ => []
  end.

(** "A single-element list is multi-line iff that element's source line
    differs from the enclosing construct's opening line; a multi-element
    list is multi-line iff its first two elements originate on different
    source lines." *)
Definition multiLineBySourceLines (openingLine : Z) (elements : list Node) : bool :=
  match elements with
  | [] => false
  | [only] => negb (Z.eqb (startLine (base only)) openingLine)
  | first :: second :: _ =>
      negb (Z.eqb (startLine (base first)) (startLine (base second)))
  end.


(** The candidate body of a branch: the statements of a block, or the
    one statement that is the branch. *)
Definition candidateBody (consequent : Node) : list Node :=
  match consequent with
  | BlockStatement _ body => body
  | _ => [consequent]
  end.

(** "The body already carries comments spanning multiple lines": the
    statement has a leading comment, not one of the [ignored] ones, that
    is a line comment or starts on a line above the statement. *)
Definition carriesCommentOnOtherLine (ignored : list Comment) (statement : Node)
    : Prop :=
  exists c,
    In c (default [] (leadingComments (base statement)))
    /\ ~ (exists i, In i ignored /\ comment_id i = comment_id c)
    /\ (comment_type c = CommentLine
        \/ commentStartLine c < startLine (base statement)).

(** A start and an end [Info] "resolve to different lines". *)
Definition resolveToDifferentLines (conditionContext : ResolveConditionContext)
    (startInfo endInfo : Info) : Prop :=
  exists s e,
    getResolvedInfo conditionContext startInfo = Some s
    /\ getResolvedInfo conditionContext endInfo = Some e
    /\ lineNumber s <> lineNumber e.

(** The two [Info]s of a region are passed in the order they are
    emitted: where both are resolved the end is not on an earlier line. *)
Definition resolvedInOrder (conditionContext : ResolveConditionContext)
    (startInfo endInfo : Info) : Prop :=
  forall s e,
    getResolvedInfo conditionContext startInfo = Some s ->
    getResolvedInfo conditionContext endInfo = Some e ->
    lineNumber s <= lineNumber e.

(** The group of an element, left blank. *)
Definition blank : PrintItem := PGroup (mkGroup []).

(** The two layouts of a delimited list of [n] elements, every
    element's group left blank. Laid out on several lines, the list
    stands between two new lines with a fixed indentation; otherwise it
    hangs: its lines, if the printer breaks it, are indented past the
    first. [separator] is what stands between two neighbours. *)
Definition separated (separator : list PrintItem) (n : nat) : list PrintItem :=
  match n with
  | O => []
  | S m => blank :: List.concat (repeat (separator ++ [blank]) m)
  end.

Definition multiLineLayout (newLine : string) (separator : list PrintItem)
    (n : nat) : list PrintItem :=
  [PString newLine; PBehaviour StartIndent]
  ++ separated separator n
  ++ [PBehaviour FinishIndent; PString newLine].

Definition hangingLayout (separator : list PrintItem) (n : nat) : list PrintItem :=
  [PBehaviour StartHangingIndent]
  ++ separated separator n
  ++ [PBehaviour FinishHangingIndent].

(** "A construct carrying a body block": a statement with a block of
    statements of its own. Of the kinds of the tree these are a function
    declaration, a block, an if statement whose branch is a block, the
    export of a declaration that carries one, and a statement of
    another kind with a body, as a loop or a class. *)
Fixpoint carriesBodyBlock (statement : Node) : bool :=
  match statement with
  | Program _ _ | BlockStatement _ _ => true
  | FunctionDeclaration _ _ _ _ _ _ _ _ => true
  | IfStatement _ _ (BlockStatement _ _) => true
  | ExportNamedDeclaration _ (Some declaration) => carriesBodyBlock declaration
  | Other _ _ hasBodyProperty => hasBodyProperty
  | _ => false
  end.

(** The end [Info] of a region "resolves to a later line" than its
    start [Info]. *)
Definition endsOnLaterLine (conditionContext : ResolveConditionContext)
    (startInfo endInfo : Info) : Prop :=
  exists s e,
    getResolvedInfo conditionContext startInfo = Some s
    /\ getResolvedInfo conditionContext endInfo = Some e
    /\ lineNumber s < lineNumber e.

(** "The header's same-line trailing comments": the comments written
    behind the header of an if statement. Where the branch is a block
    with a line comment among its leading comments, the first such
    comment is the only one. Otherwise they are the comments that start
    on the line on which the branch starts, among the leading comments
    of the first statement of the branch, or among the inner comments
    of a block without statements. *)
Definition isHeaderTrailingComment (consequent : Node) (c : Comment) : Prop :=
  match consequent with
  | BlockStatement b body =>
      (exists before after,
         default [] (leadingComments b) = before ++ c :: after
         /\ comment_type c = CommentLine
         /\ Forall (fun earlier => comment_type earlier = CommentBlock) before)
      \/ (Forall (fun leading => comment_type leading = CommentBlock)
                 (default [] (leadingComments b))
          /\ commentStartLine c = startLine b
          /\ In c match body with
                  | first :: _ => default [] (leadingComments (base first))
                  | [] => default [] (innerComments b)
                  end)
  | _ =>
      commentStartLine c = startLine (base consequent)
      /\ In c (default [] (leadingComments (base consequent)))
  end.

(** "The body already carries comments spanning multiple lines": the
    statement has a leading comment, not one of those [ignored], that
    is a line comment or starts on a line above the statement. Comments
    are told apart as objects. *)
Definition carriesCommentOffItsLine (ignored : Comment -> Prop) (statement : Node)
    : Prop :=
  exists c,
    In c (default [] (leadingComments (base statement)))
    /\ ~ (exists i, ignored i /\ comment_id i = comment_id c)
    /\ (comment_type c = CommentLine
        \/ commentStartLine c < startLine (base statement)).

(** The static flag, as the translator has it: the candidate body is
    not one statement, or that statement carries such a comment, the
    header's trailing comments left aside. *)
Definition bracesRequired (consequent : Node) : Prop :=
  List.length (candidateBody consequent) <> 1%nat
  \/ exists statement,
       candidateBody consequent = [statement]
       /\ carriesCommentOffItsLine (isHeaderTrailingComment consequent) statement.

(** "A simple statement": a statement that holds no statement of its
    own. A block, an if statement, a function declaration and a
    statement of another kind with a body are not simple. *)
Fixpoint simpleStatement (statement : Node) : bool :=
  match statement with
  | Program _ _ | BlockStatement _ _ | IfStatement _ _ _
  | FunctionDeclaration _ _ _ _ _ _ _ _ => false
  | ExportNamedDeclaration _ (Some declaration) => simpleStatement declaration
  | Other _ _ hasBodyProperty => negb hasBodyProperty
  | _ => true
  end.

(** The static flag in the words of the design document: "the candidate
    body is not exactly one simple statement, or the body already
    carries comments spanning multiple lines". *)
Definition bracesRequiredAsStated (consequent : Node) : Prop :=
  ~ (exists statement,
       candidateBody consequent = [statement] /\ simpleStatement statement = true)
  \/ exists statement,
       In statement (candidateBody consequent)
       /\ carriesCommentOffItsLine (isHeaderTrailingComment consequent) statement.

(** The layout of a statement sequence, every statement's group left
    blank: one new line between neighbours, two when one of them has a
    body. *)

Fixpoint statementsLayoutFrom (newLine : string) (previousHasBody : bool)
    (withBody : list bool) : list PrintItem :=
  match withBody with
  | [] => []
  | currentHasBody :: rest =>
      repeat (PString newLine) (if previousHasBody || currentHasBody then 2 else 1)
      ++ blank :: statementsLayoutFrom newLine currentHasBody rest
  end.

Definition statementsLayout (newLine : string) (withBody : list bool)
    : list PrintItem :=
  match withBody with
  | [] => []
  | firstHasBody :: rest => blank :: statementsLayoutFrom newLine firstHasBody rest
  end.

Definition eraseGroups (printItems : list PrintItem) : list PrintItem :=
  map (fun item => match item with PGroup _ => blank | _ => item end) printItems.

(** ** The resolution engine

    Modelled from the spec: the engine that turns a document into text
    is not part of the sources at hand. This is the algorithm of the
    design document's section 4.4: a cursor, a write-once table of
    resolved [Info]s and condition outcomes, a flat trial of every
    group, committed when it stays on one line within the line width,
    and the expanded form otherwise. *)

Module Engine.

Record Config := {
  lineWidth : Z;
  indentWidth : nat;
  useTabs : bool
}.

Record Cursor := {
  output : string;
  cursorLine : Z;
  cursorColumn : Z;
  indentDepth : Z;
  hangingDepth : Z;
  lineStartIndent : Z;
  softBreak : bool;
  expectNewLine : bool;
  lastNewLine : string;
  resolvedInfos : list (nat * WriterInfo);
  resolvedConditions : list (nat * bool)
}.

Definition startOfFile : Cursor :=
  {| output := EmptyString; cursorLine := 0; cursorColumn := 0; indentDepth := 0;
     hangingDepth := 0; lineStartIndent := 0; softBreak := false;
     expectNewLine := false; lastNewLine := LF; resolvedInfos := [];
     resolvedConditions := [] |}.

Definition snapshot (w : Cursor) : WriterInfo :=
  {| lineNumber := cursorLine w; columnNumber := cursorColumn w;
     lineStartIndentLevel := lineStartIndent w |}.

Fixpoint resolved {V} (key : nat) (table : list (nat * V)) : option V :=
  match table with
  | [] => None
  | (k, v) :: rest => if Nat.eqb k key then Some v else resolved key rest
  end.

(** Write-once: a key that is resolved keeps its value. *)
Definition resolveOnce {V} (key : nat) (v : V) (table : list (nat * V))
    : list (nat * V) :=
  match resolved key table with
  | Some _ => table
  | None => (key, v) :: table
  end.

Definition resolutionContext (w : Cursor) : ResolveConditionContext :=
  {| getResolvedInfo := fun info => resolved (info_id info) (resolvedInfos w);
     writerInfo := snapshot w |}.

Definition isNewLine (s : string) : bool := String.eqb s LF || String.eqb s CRLF.

Fixpoint indentation (unit_ : string) (depth : nat) : string :=
  match depth with
  | O => EmptyString
  | S d => unit_ +:+ indentation unit_ d
  end.

Fixpoint spaces (n : nat) : string :=
  match n with O => EmptyString | S m => String " " (spaces m) end.

Definition indentText (config : Config) (depth : Z) : string :=
  indentation (if useTabs config then String "009" EmptyString
               else spaces (indentWidth config)) (Z.to_nat depth).

(** The cursor after [text], which may hold line breaks of its own. *)
Fixpoint advance (text : string) (position : Z * Z) : Z * Z :=
  match text with
  | EmptyString => position
  | String c rest =>
      if Ascii.eqb c "010" then advance rest (fst position + 1, 0)
      else advance rest (fst position, snd position + 1)
  end.

Definition append (text : string) (w : Cursor) : Cursor :=
  let position := advance text (cursorLine w, cursorColumn w) in
  {| output := output w +:+ text; cursorLine := fst position;
     cursorColumn := snd position; indentDepth := indentDepth w;
     hangingDepth := hangingDepth w; lineStartIndent := lineStartIndent w;
     softBreak := softBreak w; expectNewLine := expectNewLine w;
     lastNewLine := lastNewLine w; resolvedInfos := resolvedInfos w;
     resolvedConditions := resolvedConditions w |}.

Definition update (w : Cursor) (indent hanging lineIndent : Z) (soft expect : bool)
    (newLine : string) (infos : list (nat * WriterInfo))
    (conditions : list (nat * bool)) : Cursor :=
  {| output := output w; cursorLine := cursorLine w;
     cursorColumn := cursorColumn w; indentDepth := indent;
     hangingDepth := hanging; lineStartIndent := lineIndent;
     softBreak := soft; expectNewLine := expect; lastNewLine := newLine;
     resolvedInfos := infos; resolvedConditions := conditions |}.

(** A line break; [soft] when it stands for a [SpaceOrNewLine], whose
    next line takes the hanging indentation too. *)
Definition breakLine (newLine : string) (soft : bool) (w : Cursor) : Cursor :=
  let w' := append newLine w in
  update w' (indentDepth w) (hangingDepth w) (lineStartIndent w) soft false
         newLine (resolvedInfos w) (resolvedConditions w).

(** The first text of a line is preceded by the indentation in force. *)
Definition beginLine (config : Config) (w : Cursor) : Cursor :=
  if Z.eqb (cursorColumn w) 0
  then
    let depth := indentDepth w + (if softBreak w then hangingDepth w else 0) in
    append (indentText config depth)
      (update w (indentDepth w) (hangingDepth w) depth (softBreak w)
              (expectNewLine w) (lastNewLine w) (resolvedInfos w)
              (resolvedConditions w))
  else w.

Definition writeText (config : Config) (text : string) (w : Cursor) : Cursor :=
  if isNewLine text then breakLine text false w
  else
    let w1 := if expectNewLine w then breakLine (lastNewLine w) false w else w in
    append text (beginLine config w1).

Definition writeBehaviour (config : Config) (expanded : bool) (b : Behaviour)
    (w : Cursor) : Cursor :=
  let set indent hanging expect :=
    update w indent hanging (lineStartIndent w) (softBreak w) expect
           (lastNewLine w) (resolvedInfos w) (resolvedConditions w) in
  match b with
  | SpaceOrNewLine =>
      if expanded then breakLine (lastNewLine w) true w
      else writeText config " " w
  | ExpectNewLine => set (indentDepth w) (hangingDepth w) true
  | StartIndent => set (indentDepth w + 1) (hangingDepth w) (expectNewLine w)
  | FinishIndent => set (indentDepth w - 1) (hangingDepth w) (expectNewLine w)
  | StartHangingIndent =>
      set (indentDepth w) (hangingDepth w + 1) (expectNewLine w)
  | FinishHangingIndent =>
      set (indentDepth w) (hangingDepth w - 1) (expectNewLine w)
  end.

Definition passInfo (info : Info) (w : Cursor) : Cursor :=
  update w (indentDepth w) (hangingDepth w) (lineStartIndent w) (softBreak w)
         (expectNewLine w) (lastNewLine w)
         (resolveOnce (info_id info) (snapshot w) (resolvedInfos w))
         (resolvedConditions w).

(** The outcome of a condition where the cursor stands: its function
    called with the resolution context, or the recorded outcome of the
    condition it refers to. *)
Definition outcome (c : Condition) (w : Cursor) : option bool :=
  match cond_condition c with
  | ResolveFunction f => f (resolutionContext w)
  | ResolveCondition other => resolved (cond_id other) (resolvedConditions w)
  end.

Definition passCondition (c : Condition) (value : option bool) (w : Cursor)
    : Cursor :=
  match value with
  | Some v =>
      update w (indentDepth w) (hangingDepth w) (lineStartIndent w) (softBreak w)
             (expectNewLine w) (lastNewLine w)
             (resolvedInfos w) (resolveOnce (cond_id c) v (resolvedConditions w))
  | None => w
  end.

(** The flat trial is kept when it stayed on its line and within the
    line width. *)
Definition fits (config : Config) (start flat : Cursor) : bool :=
  Z.eqb (cursorLine flat) (cursorLine start)
  && Z.leb (cursorColumn flat) (lineWidth config).

(** One pass over a print item. With [expanded] unset this is the flat
    rendering; with it set every group below is tried flat first and
    expanded when the trial does not fit. *)
Fixpoint render (config : Config) (expanded : bool) (item : PrintItem)
    (w : Cursor) {struct item} : Cursor :=
  let renderAll := fix renderAll (expanded : bool) (printItems : list PrintItem)
      (w : Cursor) {struct printItems} : Cursor :=
    match printItems with
    | [] => w
    | first :: rest => renderAll expanded rest (render config expanded first w)
    end in
  match item with
  | PString s => writeText config s w
  | PUnknown text => writeText config text w
  | PBehaviour b => writeBehaviour config expanded b w
  | PInfo info => passInfo info w
  | PCondition (mkCondition i name r whenTrue whenFalse) =>
      let c := mkCondition i name r whenTrue whenFalse in
      let value := outcome c w in
      let w' := passCondition c value w in
      match value with
      | Some true =>
          match whenTrue with
          | Some printItems => renderAll expanded printItems w'
          | None => w'
          end
      | _ =>
          match whenFalse with
          | Some printItems => renderAll expanded printItems w'
          | None => w'
          end
      end
  | PGroup (mkGroup printItems) =>
      let flat := renderAll false printItems w in
      if expanded
      then if fits config w flat then flat else renderAll true printItems w
      else flat
  end.

(** Resolution of the root group of a document, from the start of the
    file. *)
Definition print (config : Config) (root : Group) : string :=
  output (render config true (PGroup root) startOfFile).

End Engine.

End Parser.

(** * The formatter around a wasm plugin instance

    [createFromInstance] returns an object whose methods share the flag
    [configSet] and the instance. A method call is a function of that
    state which returns a value, throws, or runs out of the fuel that
    bounds the two copy loops. *)

Module WasmFormatter.

Inductive JsError :=
| Error (message : string)
| RangeError
| TypeError
| SyntaxError
| RuntimeError.

Definition notSetMessage : string :=
  "You must call setConfig before calling this function.".

(** What [pluginConfig[key].toString()] does for a key of a plugin
    configuration: it gives a value, a string for the values of the
    language itself, or it throws: a [TypeError] for a value that is
    [null] or [undefined] and for one without a method [toString] (an
    object made by [Object.create(null)]), and otherwise whatever the
    method throws. *)
Inductive ToString (Value : Type) :=
| Gives (value : Value)
| Throws (error : JsError).
Arguments Gives {Value} value.
Arguments Throws {Value} error.

(** The instance and the globals of the script: the state of the
    instance, its exports (each returns a number or traps, and leaves a
    state behind), its linear memory, and [TextEncoder], [TextDecoder]
    and [JSON]. *)
Class Plugin := {
  Instance : Type;
  Export : Type := Instance -> (JsError + Z) * Instance;
  set_file_path : Export;
  get_formatted_text : Export;
  format : Export;
  get_error_text : Export;
  get_plugin_info : Export;
  get_resolved_config : Export;
  get_config_diagnostics : Export;
  set_global_config : Export;
  set_plugin_config : Export;
  get_plugin_schema_version : Export;
  get_wasm_memory_buffer : Export;
  get_wasm_memory_buffer_size : Export;
  add_to_shared_bytes_from_buffer : Z -> Export;
  clear_shared_bytes : Z -> Export;
  set_buffer_with_shared_bytes : Z -> Z -> Export;
  memoryByteLength : Instance -> Z;
  memoryRead : forall (pointer : Z) (count : nat), Instance -> list Byte.byte;
  memoryWrite : forall (pointer : Z) (bytes : list Byte.byte), Instance -> Instance;
  encode : string -> list Byte.byte;
  decode : list Byte.byte -> string;
  GlobalConfig : Type;
  JsValue : Type;
  stringifyGlobalConfig : GlobalConfig -> string;
  stringifyProperties : list (string * JsValue) -> string;
  jsonParse : string -> JsError + JsValue;
  numberToString : Z -> string
}.

Section Formatter.

Context {plugin : Plugin}.

(** A plugin configuration: the keys [Object.keys] lists, each once and
    in that order, each with what [toString()] does on its value. *)
Definition PluginConfig : Type := list (string * ToString JsValue).

(** The state the methods of one formatter share. *)
Record Formatter := {
  configSet : bool;
  bufferSize : Z;
  instance : Instance
}.

Inductive Outcome (A : Type) :=
| Returned (value : A) (after : Formatter)
| Threw (error : JsError) (after : Formatter)
| OutOfFuel.
Arguments Returned {A} value after.
Arguments Threw {A} error after.
Arguments OutOfFuel {A}.

Definition Run (A : Type) : Type := Formatter -> Outcome A.

Definition pure {A} (a : A) : Run A := fun st => Returned a st.
Definition throw {A} (e : JsError) : Run A := fun st => Threw e st.
Definition andThen {A B} (m : Run A) (k : A -> Run B) : Run B :=
  fun st =>
    match m st with
    | Returned a st' => k a st'
    | Threw e st' => Threw e st'
    | OutOfFuel => OutOfFuel
    end.

Notation "'let!' x ':=' m 'in' k" := (andThen m (fun x => k))
  (at level 10, x name, m at level 100, k at level 200).

Definition withInstance (i : Instance) (st : Formatter) : Formatter :=
  {| configSet := configSet st; bufferSize := bufferSize st; instance := i |}.

Definition setConfigSet (st : Formatter) : Formatter :=
  {| configSet := true; bufferSize := bufferSize st; instance := instance st |}.

(** A call of an export. *)
Definition call (f : Export) : Run Z :=
  fun st =>
    match f (instance st) with
    | (inr z, i) => Returned z (withInstance i st)
    | (inl e, i) => Threw e (withInstance i st)
    end.

Definition readMemoryBuffer (pointer : Z) (count : nat) : Run (list Byte.byte) :=
  fun st => Returned (memoryRead pointer count (instance st)) st.

Definition writeMemoryBuffer (pointer : Z) (bytes : list Byte.byte) : Run unit :=
  fun st => Returned tt (withInstance (memoryWrite pointer bytes (instance st)) st).

(** [new Uint8Array(memory.buffer, pointer, count)]: a [RangeError]
    unless the view lies within the buffer. *)
Definition viewMemory (pointer count : Z) : Run unit :=
  fun st =>
    if Z.ltb count 0 || Z.ltb pointer 0
       || Z.ltb (memoryByteLength (instance st)) (pointer + count)
    then Threw RangeError st
    else Returned tt st.

Definition throwIfConfigNotSet : Run unit :=
  fun st => if negb (configSet st) then Threw (Error notSetMessage) st
            else Returned tt st.

(** The loop of [sendString]. [wasmBuffer.set(encodedText, index)] is a
    [RangeError] when the whole of [encodedText] does not fit in the
    view from [index] on. *)
Fixpoint sendLoop (fuel : nat) (encodedText : list Byte.byte) (index : Z)
    : Run unit :=
  let length := Z.of_nat (List.length encodedText) in
  if Z.ltb index length then
    match fuel with
    | O => fun _ => OutOfFuel
    | S fuel' =>
        fun st =>
          let writeCount := Z.min (length - index) (bufferSize st) in
          (let! pointer := call get_wasm_memory_buffer in
           let! _ := viewMemory pointer writeCount in
           let! _ := (if Z.ltb writeCount (index + length) then throw RangeError
               else writeMemoryBuffer (pointer + index) encodedText) in
           let! _ := call (add_to_shared_bytes_from_buffer writeCount) in
           sendLoop fuel' encodedText (index + writeCount)) st
    end
  else pure tt.

Definition sendString (fuel : nat) (text : string) : Run unit :=
  let encodedText := encode text in
  let! _ := call (clear_shared_bytes (Z.of_nat (List.length encodedText))) in
  sendLoop fuel encodedText 0.

(** The loop of [receiveString]; [buffer.set(wasmBuffer)] writes at the
    start of [buffer]. *)
Definition setAtStart (buffer source : list Byte.byte) : list Byte.byte :=
  source ++ skipn (List.length source) buffer.

Fixpoint receiveLoop (fuel : nat) (length index : Z) (buffer : list Byte.byte)
    : Run (list Byte.byte) :=
  if Z.ltb index length then
    match fuel with
    | O => fun _ => OutOfFuel
    | S fuel' =>
        fun st =>
          let readCount := Z.min (length - index) (bufferSize st) in
          (let! _ := call (set_buffer_with_shared_bytes index readCount) in
           let! pointer := call get_wasm_memory_buffer in
           let! _ := viewMemory pointer readCount in
           let! wasmBuffer := readMemoryBuffer pointer (Z.to_nat readCount) in
           receiveLoop fuel' length (index + readCount)
                       (setAtStart buffer wasmBuffer)) st
    end
  else pure buffer.

Definition receiveString (fuel : nat) (length : Z) : Run string :=
  if Z.ltb length 0 then throw RangeError
  else
    let! buffer := receiveLoop fuel length 0 (repeat Byte.x00 (Z.to_nat length)) in
    pure (decode buffer).

(** [getPluginConfigWithStringProps]: the properties of the object it
    returns, in the order [JSON.stringify] goes through them, which is
    the order of [Object.keys] again. The assignment
    [newPluginConfig[key] = ...] makes no property for the key
    [__proto__]: there it sets the prototype of the new object when the
    value is an object, and does nothing otherwise. *)
Fixpoint getPluginConfigWithStringProps (pluginConfig : PluginConfig)
    : JsError + list (string * JsValue) :=
  match pluginConfig with
  | [] => inr []
  | (key, Throws e) :: _ => inl e
  | (key, Gives value) :: rest =>
      match getPluginConfigWithStringProps rest with
      | inr props =>
          inr (if String.eqb key "__proto__" then props else (key, value) :: props)
      | inl e => inl e
      end
  end.

(** The methods of the formatter. *)
Definition setConfig (fuel : nat) (globalConfig : GlobalConfig)
    (pluginConfig : PluginConfig) : Run unit :=
  let! _ := sendString fuel (stringifyGlobalConfig globalConfig) in
  let! _ := call set_global_config in
  let! props := (fun st =>
        match getPluginConfigWithStringProps pluginConfig with
        | inr props => Returned props st
        | inl e => Threw e st
        end) in
  let! _ := sendString fuel (stringifyProperties props) in
  let! _ := call set_plugin_config in
  fun st => Returned tt (setConfigSet st).

Definition parseJson (text : string) : Run JsValue :=
  fun st =>
    match jsonParse text with
    | inr v => Returned v st
    | inl e => Threw e st
    end.

Definition getConfigDiagnostics (fuel : nat) : Run JsValue :=
  let! _ := throwIfConfigNotSet in
  let! length := call get_config_diagnostics in
  let! text := receiveString fuel length in
  parseJson text.

Definition getResolvedConfig (fuel : nat) : Run string :=
  let! _ := throwIfConfigNotSet in
  let! length := call get_resolved_config in
  receiveString fuel length.

Definition getPluginInfo (fuel : nat) : Run JsValue :=
  let! length := call get_plugin_info in
  let! text := receiveString fuel length in
  parseJson text.

(** [formatText]; [None] is [undefined], what falls out of the
    [switch] on a response code other than 0, 1 and 2. *)
Definition formatText (fuel : nat) (filePath fileText : string)
    : Run (option string) :=
  let! _ := throwIfConfigNotSet in
  let! _ := sendString fuel filePath in
  let! _ := call set_file_path in
  let! _ := sendString fuel fileText in
  let! responseCode := call format in
  match responseCode with
  | 0 => pure (Some fileText)
  | 1 =>
      let! length := call get_formatted_text in
      let! text := receiveString fuel length in
      pure (Some text)
  | 2 =>
      let! length := call get_error_text in
      let! text := receiveString fuel length in
      throw (Error text)
  | _ => pure None
  end.

(** [createFromInstance]: the formatter, unless the plugin has another
    schema version. *)
Definition expectedPluginSchemaVersion : Z := 1.

Definition createFromInstance (i : Instance) : JsError + Formatter :=
  match get_plugin_schema_version i with
  | (inl e, _) => inl e
  | (inr pluginSchemaVersion, i1) =>
      if negb (Z.eqb pluginSchemaVersion expectedPluginSchemaVersion)
      then inl (Error ("Not compatible plugin. Expected schema "
                       +:+ numberToString expectedPluginSchemaVersion
                       +:+ ", but plugin had "
                       +:+ numberToString pluginSchemaVersion +:+ "."))
      else
        match get_wasm_memory_buffer_size i1 with
        | (inl e, _) => inl e
        | (inr size, i2) =>
            inr {| configSet := false; bufferSize := size; instance := i2 |}
        end
  end.

(** The calls a client makes on a formatter, and the state they leave:
    a call that throws leaves the state it reached, a call that does
    not come back leaves none. *)
Inductive MethodCall :=
| CallSetConfig (globalConfig : GlobalConfig) (pluginConfig : PluginConfig)
| CallGetConfigDiagnostics
| CallGetResolvedConfig
| CallGetPluginInfo
| CallFormatText (filePath fileText : string).

Definition isSetConfig (c : MethodCall) : bool :=
  match c with CallSetConfig _ _ => true | _ => false end.

Definition stateAfter {A} (o : Outcome A) : option Formatter :=
  match o with
  | Returned _ st | Threw _ st => Some st
  | OutOfFuel => None
  end.

Definition perform (fuel : nat) (c : MethodCall) (st : Formatter)
    : option Formatter :=
  match c with
  | CallSetConfig globalConfig pluginConfig =>
      stateAfter (setConfig fuel globalConfig pluginConfig st)
  | CallGetConfigDiagnostics => stateAfter (getConfigDiagnostics fuel st)
  | CallGetResolvedConfig => stateAfter (getResolvedConfig fuel st)
  | CallGetPluginInfo => stateAfter (getPluginInfo fuel st)
  | CallFormatText filePath fileText =>
      stateAfter (formatText fuel filePath fileText st)
  end.

Fixpoint performAll (fuel : nat) (calls : list MethodCall) (st : Formatter)
    : option Formatter :=
  match calls with
  | [] => Some st
  | c :: rest =>
      match perform fuel c st with
      | Some st' => performAll fuel rest st'
      | None => None
      end
  end.

(** ** Predicates on method calls *)

(** A computation that leaves the flag as it found it. *)
Definition KeepsFlag {A} (m : Run A) : Prop :=
  forall st,
    match m st with
    | Returned _ st' | Threw _ st' =>
        configSet st' = configSet st /\ bufferSize st' = bufferSize st
    | OutOfFuel => True
    end.

(** A computation settles when, the buffer of the instance not being
    empty, there is fuel from which on it gives one and the same
    outcome, a value or an exception. *)
Definition Settles {A} (m : nat -> Run A) : Prop :=
  forall st,
    0 < bufferSize st ->
    exists fuel outcome,
      outcome <> OutOfFuel /\ forall fuel', (fuel <= fuel')%nat -> m fuel' st = outcome.

End Formatter.

Arguments Returned {plugin A} value after.
Arguments Threw {plugin A} error after.
Arguments OutOfFuel {plugin A}.

End WasmFormatter.

(** * Sample inputs *)

Module Examples.

Import Parser.

(** Stand-ins for the two imported functions. *)
Definition keepText (text : string) (_ : Z) (_ : Z -> bool) : string := text.
Definition detectLF (_ : string) : string := LF.

(** The translator with them. *)
Definition translate : option Node -> M Group := parseNode keepText.
Definition translateFile : File -> string -> ResolvedConfiguration -> Group * Context :=
  parseFile keepText detectLF.

Definition onLine (l : Z) : SourceLocation :=
  {| loc_start := {| line := l |}; loc_end := {| line := l |} |}.

(** A node without comments that starts and ends on line [l]. *)
Definition plain (from to : nat) (l : Z) : NodeBase :=
  {| start := from; end_ := to; loc := onLine l;
     leadingComments := None; trailingComments := None; innerComments := None |}.

Definition defaultOptions : ResolvedConfiguration :=
  {| newLineKindOption := NewLineLF; singleQuotes := false;
     importDeclaration_semiColon := true; typeAlias_semiColon := true;
     expressionStatement_semiColon := true |}.

Definition sampleContext (text : string) : Context :=
  newParseContext detectLF text defaultOptions.

(** A call whose only argument is on the line below: [foo(] and [a)]. *)
Definition argumentBelow : Node := Identifier (plain 5 6 2) "a".
Definition callOverTwoLines : Node :=
  CallExpression (plain 0 7 1) (Identifier (plain 0 3 1) "foo") [argumentBelow].
Definition callOverTwoLinesText : string := "foo(" +:+ LF +:+ "a)".

(** [a /* c */]: a block comment that trails an identifier on its line. *)
Definition trailingBlock : Comment :=
  {| comment_id := 0; comment_type := CommentBlock; comment_value := " c ";
     comment_loc := onLine 1 |}.
Definition identifierWithTrailingBlock : Node :=
  Identifier
    {| start := 0; end_ := 1; loc := onLine 1; leadingComments := None;
       trailingComments := Some [trailingBlock]; innerComments := None |}
    "a".


(** [foo(/* c */);]: the comment is an inner comment of the call. *)
Definition innerBlock : Comment :=
  {| comment_id := 7; comment_type := CommentBlock; comment_value := " c ";
     comment_loc := onLine 1 |}.
Definition callWithInnerComment : Node :=
  CallExpression
    {| start := 0; end_ := 14; loc := onLine 1; leadingComments := None;
       trailingComments := None; innerComments := Some [innerBlock] |}
    (Identifier (plain 0 3 1) "foo") [].
Definition fileWithInnerComment : File :=
  {| program :=
       Program (plain 0 15 1)
         [ExpressionStatement (plain 0 15 1) callWithInnerComment] |}.

(** [while (x) {}], a statement of a kind without handler. *)
Definition whileStatement : Node := Other (plain 0 12 1) "WhileStatement" true.

(** [if (x) y;] *)
Definition ifTest : Node := Identifier (plain 4 5 1) "x".
Definition ifConsequent : Node :=
  ExpressionStatement (plain 7 9 1) (Identifier (plain 7 8 1) "y").

(** [if (x) { b; }] and, on the next line, [y;]. *)
Definition ifWithBlock : Node :=
  IfStatement (plain 0 13 1) ifTest
    (BlockStatement (plain 7 13 1)
       [ExpressionStatement (plain 9 11 1) (Identifier (plain 9 10 1) "b")]).
Definition statementBelow : Node :=
  ExpressionStatement (plain 14 16 2) (Identifier (plain 14 15 2) "y").

(** [export function f() {}] *)
Definition exportedFunction : Node :=
  ExportNamedDeclaration (plain 0 22 1)
    (Some (FunctionDeclaration (plain 7 22 1) false false
             (Some (Identifier (plain 16 17 1) "f")) None [] None
             (BlockStatement (plain 20 22 1) []))).

(** [if (x) { if (y) z; }]: the branch, a block around an if statement. *)
Definition blockAroundIf : Node :=
  BlockStatement (plain 7 20 1)
    [IfStatement (plain 9 18 1) (Identifier (plain 13 14 1) "y")
       (ExpressionStatement (plain 16 18 1) (Identifier (plain 16 17 1) "z"))].

(** [if (x) { // c] and [y; }] on two lines: the branch, a block whose
    statement has the line comment in front of it. *)
Definition commentBehindBrace : Comment :=
  {| comment_id := 3; comment_type := CommentLine; comment_value := " c";
     comment_loc := onLine 1 |}.
Definition blockWithCommentBehindBrace : Node :=
  BlockStatement (plain 7 20 1)
    [ExpressionStatement
       {| start := 15; end_ := 17; loc := onLine 2;
          leadingComments := Some [commentBehindBrace];
          trailingComments := None; innerComments := None |}
       (Identifier (plain 15 16 2) "y")].

(** The file of the empty text. *)
Definition emptyFile : File := {| program := Program (plain 0 0 1) [] |}.

(** A resolution context in which every [Info] is resolved, to the line
    that has its number. *)
Definition everyInfoOnItsLine : ResolveConditionContext :=
  {| getResolvedInfo := fun info =>
       Some {| lineNumber := Z.of_nat (info_id info); columnNumber := 0;
               lineStartIndentLevel := 0 |};
     writerInfo := {| lineNumber := 0; columnNumber := 0;
                      lineStartIndentLevel := 0 |} |}.

(** A resolution context in which every [Info] is resolved, an [Info]
    made later to a line further up. *)
Definition laterInfoFurtherUp : ResolveConditionContext :=
  {| getResolvedInfo := fun info =>
       Some {| lineNumber := 100 - Z.of_nat (info_id info); columnNumber := 0;
               lineStartIndentLevel := 0 |};
     writerInfo := {| lineNumber := 0; columnNumber := 0;
                      lineStartIndentLevel := 0 |} |}.

(** A small plugin with a buffer of eight bytes. It leaves the empty
    text as it is, refuses a text that starts with an exclamation mark,
    and puts a semicolon after any other text. *)
Record SamplePlugin := {
  sharedBytes : list Byte.byte;
  linearMemory : list Byte.byte;
  formatResult : list Byte.byte
}.

Definition sampleInstance : SamplePlugin :=
  {| sharedBytes := []; linearMemory := repeat Byte.x00 8; formatResult := [] |}.

Definition answer (z : Z) (i : SamplePlugin)
    : (WasmFormatter.JsError + Z) * SamplePlugin :=
  (inr z, i).

Definition sampleFormat (i : SamplePlugin)
    : (WasmFormatter.JsError + Z) * SamplePlugin :=
  match sharedBytes i with
  | [] => (inr 0, i)
  | first :: _ =>
      if Byte.eqb first (Ascii.byte_of_ascii "!")
      then (inr 2,
            {| sharedBytes := sharedBytes i; linearMemory := linearMemory i;
               formatResult := list_byte_of_string "unexpected" |})
      else (inr 1,
            {| sharedBytes := sharedBytes i; linearMemory := linearMemory i;
               formatResult := sharedBytes i ++ list_byte_of_string ";" |})
  end.

Definition shareResult (i : SamplePlugin)
    : (WasmFormatter.JsError + Z) * SamplePlugin :=
  (inr (Z.of_nat (List.length (formatResult i))),
   {| sharedBytes := formatResult i; linearMemory := linearMemory i;
      formatResult := formatResult i |}).

Definition overwrite (pointer : Z) (bytes memory : list Byte.byte)
    : list Byte.byte :=
  take (Z.to_nat pointer) memory ++ bytes
  ++ drop (Z.to_nat pointer + List.length bytes) memory.

Definition samplePlugin : WasmFormatter.Plugin :=
  {| WasmFormatter.Instance := SamplePlugin;
     WasmFormatter.set_file_path := answer 0;
     WasmFormatter.get_formatted_text := shareResult;
     WasmFormatter.format := sampleFormat;
     WasmFormatter.get_error_text := shareResult;
     WasmFormatter.get_plugin_info := answer 0;
     WasmFormatter.get_resolved_config := answer 0;
     WasmFormatter.get_config_diagnostics := answer 0;
     WasmFormatter.set_global_config := answer 0;
     WasmFormatter.set_plugin_config := answer 0;
     WasmFormatter.get_plugin_schema_version := answer 1;
     WasmFormatter.get_wasm_memory_buffer := answer 0;
     WasmFormatter.get_wasm_memory_buffer_size := answer 8;
     WasmFormatter.add_to_shared_bytes_from_buffer := fun count i =>
       (inr 0,
        {| sharedBytes := sharedBytes i ++ take (Z.to_nat count) (linearMemory i);
           linearMemory := linearMemory i; formatResult := formatResult i |});
     WasmFormatter.clear_shared_bytes := fun _ i =>
       (inr 0,
        {| sharedBytes := []; linearMemory := linearMemory i;
           formatResult := formatResult i |});
     WasmFormatter.set_buffer_with_shared_bytes := fun index count i =>
       (inr 0,
        {| sharedBytes := sharedBytes i;
           linearMemory :=
             overwrite 0 (take (Z.to_nat count)
                            (drop (Z.to_nat index) (sharedBytes i)))
               (linearMemory i);
           formatResult := formatResult i |});
     WasmFormatter.memoryByteLength := fun i =>
       Z.of_nat (List.length (linearMemory i));
     WasmFormatter.memoryRead := fun pointer count i =>
       take count (drop (Z.to_nat pointer) (linearMemory i));
     WasmFormatter.memoryWrite := fun pointer bytes i =>
       {| sharedBytes := sharedBytes i;
          linearMemory := overwrite pointer bytes (linearMemory i);
          formatResult := formatResult i |};
     WasmFormatter.encode := list_byte_of_string;
     WasmFormatter.decode := string_of_list_byte;
     WasmFormatter.GlobalConfig := unit;
     WasmFormatter.JsValue := string;
     WasmFormatter.stringifyGlobalConfig := fun _ => "{}";
     WasmFormatter.stringifyProperties := fun _ => "{}";
     WasmFormatter.jsonParse := inr;
     WasmFormatter.numberToString := fun _ => "1" |}.

Definition sampleFormatter : WasmFormatter.Formatter (plugin := samplePlugin) :=
  @WasmFormatter.Build_Formatter samplePlugin false 8 sampleInstance.

(** A configured formatter around the sample plugin, with a buffer size
    and with shared bytes waiting in the instance. *)
Definition formatterOver (shared : list Byte.byte) (size : Z)
    : WasmFormatter.Formatter (plugin := samplePlugin) :=
  @WasmFormatter.Build_Formatter samplePlugin true size
    {| sharedBytes := shared; linearMemory := repeat Byte.x00 8;
       formatResult := [] |}.

(** The sample plugin with schema version 2. *)
Definition oldPlugin : WasmFormatter.Plugin :=
  {| WasmFormatter.Instance := SamplePlugin;
     WasmFormatter.set_file_path := answer 0;
     WasmFormatter.get_formatted_text := shareResult;
     WasmFormatter.format := sampleFormat;
     WasmFormatter.get_error_text := shareResult;
     WasmFormatter.get_plugin_info := answer 0;
     WasmFormatter.get_resolved_config := answer 0;
     WasmFormatter.get_config_diagnostics := answer 0;
     WasmFormatter.set_global_config := answer 0;
     WasmFormatter.set_plugin_config := answer 0;
     WasmFormatter.get_plugin_schema_version := answer 2;
     WasmFormatter.get_wasm_memory_buffer := answer 0;
     WasmFormatter.get_wasm_memory_buffer_size := answer 8;
     WasmFormatter.add_to_shared_bytes_from_buffer := fun _ => answer 0;
     WasmFormatter.clear_shared_bytes := fun _ => answer 0;
     WasmFormatter.set_buffer_with_shared_bytes := fun _ _ => answer 0;
     WasmFormatter.memoryByteLength := fun i =>
       Z.of_nat (List.length (linearMemory i));
     WasmFormatter.memoryRead := fun pointer count i =>
       take count (drop (Z.to_nat pointer) (linearMemory i));
     WasmFormatter.memoryWrite := fun _ _ i => i;
     WasmFormatter.encode := list_byte_of_string;
     WasmFormatter.decode := string_of_list_byte;
     WasmFormatter.GlobalConfig := unit;
     WasmFormatter.JsValue := string;
     WasmFormatter.stringifyGlobalConfig := fun _ => "{}";
     WasmFormatter.stringifyProperties := fun _ => "{}";
     WasmFormatter.jsonParse := inr;
     WasmFormatter.numberToString := fun z => if Z.eqb z 1 then "1" else "2" |}.

(** [x;] and [while (x) {}] on two lines: an expression statement and a
    statement of a kind without handler. *)
Definition twoStatements : Node :=
  Program (plain 0 15 1)
    [ExpressionStatement (plain 0 2 1) (Identifier (plain 0 1 1) "x");
     Other (plain 3 15 2) "WhileStatement" true].
Definition twoStatementsText : string := "x;" +:+ LF +:+ "while (x) {}".

End Examples.

(** * Predicates of the properties *)

Import Parser.

(** ** What translation leaves of the context *)

(** The text, the options and the new line string stay, the set of
    handled comments only grows, and so does the count of the objects
    created. *)
Record Extends (c c' : Context) : Prop := {
  same_fileText : fileText c' = fileText c;
  same_log : log c' = log c;
  same_options : options c' = options c;
  same_newLineKind : newLineKind c' = newLineKind c;
  handled_grows : handledComments c ⊆ handledComments c';
  nextId_grows : (nextId c <= nextId c')%nat
}.

(** A computation that only extends the context. *)
Definition Keeps {A} (m : M A) : Prop := forall c, Extends c (snd (m c)).

(** A generator that only extends the context and whose items, every
    group among them left blank, are the [layout] for the new line
    string and the options of the context. *)
Definition Lays (g : Gen)
    (layout : string -> ResolvedConfiguration -> list PrintItem) : Prop :=
  Keeps g
  /\ forall c, eraseGroups (fst (g c)) = layout (newLineKind c) (options c).

(** What the translation of the nodes below a block leaves. *)
Definition KeepsBelow (removeStringIndentation : string -> Z -> (Z -> bool) -> string)
    (node : Node) : Prop :=
  match node with
  | BlockStatement _ body =>
      Forall (fun n => Keeps (parseNodePresent removeStringIndentation n)) body
  | _ => True
  end.

(** The groups among the items of a list. *)
Definition groupsOf (printItems : list PrintItem) : list Group :=
  omap (fun item => match item with PGroup g => Some g | _ => None end) printItems.

(** The items of an if statement, with its four [Info]s and its three
    conditions. *)
Definition openBraceOf (requireBraces : bool) (id : nat) (separator : Condition)
    (startHeaderInfo endHeaderInfo startStatementsInfo endStatementsInfo : Info)
    : Condition :=
  mkCondition id "openBrace"
    (ResolveFunction
       (openBraceResolver requireBraces startHeaderInfo endHeaderInfo
          startStatementsInfo endStatementsInfo))
    (Some [PCondition separator; PString "{"]) None.

Definition closeBraceNewLineOf (id : nat) (newLine : string)
    (startStatementsInfo endStatementsInfo : Info) : Condition :=
  mkCondition id "closeBraceNewLine"
    (ResolveFunction (closeBraceNewLineResolver startStatementsInfo endStatementsInfo))
    (Some [PString newLine]) None.

Definition closeBraceOf (id : nat) (openBrace closeBraceNewLine : Condition)
    : Condition :=
  mkCondition id "closeBrace" (ResolveCondition openBrace)
    (Some [PCondition closeBraceNewLine; PString "}"]) None.


(** ** What translation does to the context *)

(** The comment collections [parseNode] passes over at a node: its
    leading and trailing comments, and the inner comments of a program
    or a block. *)
Definition ownComments (node : Node) : list Comment :=
  default [] (leadingComments (base node))
  ++ match node with
     | Program b _ | BlockStatement b _ => default [] (innerComments b)
     | _ => []
     end
  ++ default [] (trailingComments (base node)).

(** The nodes translated when [parseNode] is called on a node, in the
    order of the calls: the node, and the children its handler passes
    on. An import declaration passes on its first default specifier,
    its first namespace specifier and its named specifiers; an import
    specifier passes on [local] only when it does not start where
    [imported] starts; the block of an if statement is taken apart by
    [parseIfStatement] itself, comments and statements as [parseNode]
    would. *)
Fixpoint translatedNodes (node : Node) : list Node :=
  let ofList := fix ofList (nodes : list Node) : list Node :=
    match nodes with
    | [] => []
    | n :: rest => translatedNodes n ++ ofList rest
    end in
  let ofOption (node : option Node) : list Node :=
    match node with Some n => translatedNodes n | None => [] end in
  let ofSelected (select : Node -> bool) :=
    fix ofSelected (nodes : list Node) : list Node :=
      match nodes with
      | [] => []
      | n :: rest =>
          if select n then translatedNodes n ++ ofSelected rest
          else ofSelected rest
      end in
  let ofFirst (select : Node -> bool) :=
    fix ofFirst (nodes : list Node) : list Node :=
      match nodes with
      | [] => []
      | n :: rest => if select n then translatedNodes n else ofFirst rest
      end in
  node ::
  match node with
  | Program _ body | BlockStatement _ body => ofList body
  | ExportNamedDeclaration _ declaration => ofOption declaration
  | FunctionDeclaration _ _ _ id typeParameters params returnType body =>
      ofOption id
      ++ match typeParameters with
         | Some (TypeParameterDeclaration declared) => ofList declared
         | _ => []
         end
      ++ ofList params
      ++ match returnType with
         | Some (TypeAnnotation typeAnnotation) => translatedNodes typeAnnotation
         | _ => []
         end
      ++ translatedNodes body
  | TSTypeAliasDeclaration _ id typeParameters typeAnnotation =>
      translatedNodes id
      ++ match typeParameters with Some declared => ofList declared | None => [] end
      ++ translatedNodes typeAnnotation
  | ImportDeclaration _ specifiers source =>
      ofFirst (isType "ImportDefaultSpecifier") specifiers
      ++ ofFirst (isType "ImportNamespaceSpecifier") specifiers
      ++ ofSelected (isType "ImportSpecifier") specifiers
      ++ translatedNodes source
  | ExpressionStatement _ expression => translatedNodes expression
  | IfStatement _ test consequent =>
      translatedNodes test ++ translatedNodes consequent
  | CallExpression _ callee arguments => translatedNodes callee ++ ofList arguments
  | ImportDefaultSpecifier _ local | ImportNamespaceSpecifier _ local =>
      translatedNodes local
  | ImportSpecifier _ imported local =>
      if Nat.eqb (start (base imported)) (start (base local))
      then translatedNodes imported
      else translatedNodes imported ++ translatedNodes local
  | TSTypeParameter _ _ constraint default_ => ofOption constraint ++ ofOption default_
  | TSUnionType _ types => ofList types
  | Identifier _ _ | StringLiteral _ _ | BooleanLiteral _ _ | KeywordNode _ _
  | Other _ _ _ => []
  end.

(** The comments passed over when a node is translated. *)
Definition visitedComments (node : Node) : list Comment :=
  flat_map ownComments (translatedNodes node).

(** The comment objects of a list, as a set. *)
Definition idsOf (comments : list Comment) : gset nat :=
  list_to_set (comment_id <$> comments).

(** The nodes without a handler, and what [parseUnknownNode] writes
    through [log] for one of them. *)
Definition isUnknown (node : Node) : bool :=
  match node with Other _ _ _ => true | _ => false end.

Definition logUnknown (context : Context) (out : list string) (node : Node)
    : list string :=
  log context
    (unknownNodeMessage (nodeType node)
       (Js.substring (fileText context) (start (base node)) (end_ (base node))))
    out.

(** The nodes without a handler among those translated, and the
    comments passed over at the nodes translated. *)
Definition unknownNodes (nodes : list Node) : list Node :=
  List.filter isUnknown nodes.

Definition commentsOf (nodes : list Node) : gset nat :=
  idsOf (flat_map ownComments nodes).

(** A computation that only extends the context, marks the comments of
    a set as handled and logs the unknown nodes of a list. *)
Definition Does {A} (m : M A) (comments : gset nat) (unknown : list Node) : Prop :=
  Keeps m
  /\ forall c,
       handledComments (snd (m c)) = handledComments c ∪ comments
       /\ console (snd (m c)) = fold_left (logUnknown c) unknown (console c).

(** A computation that does what the translation of [nodes] does, and
    passes over the comments [extra] besides. *)
Definition Translates {A} (m : M A) (extra : list Comment) (nodes : list Node)
    : Prop :=
  Does m (idsOf extra ∪ commentsOf nodes) (unknownNodes nodes).

(** The nodes translated below a node: [translatedNodes] without the
    node, its loops written with [flat_map], [filter] and [find]. *)
Definition translatedBelow (node : Node) : list Node :=
  match node with
  | Program _ body | BlockStatement _ body => flat_map translatedNodes body
  | ExportNamedDeclaration _ declaration =>
      from_option translatedNodes [] declaration
  | FunctionDeclaration _ _ _ id typeParameters params returnType body =>
      from_option translatedNodes [] id
      ++ match typeParameters with
         | Some (TypeParameterDeclaration declared) => flat_map translatedNodes declared
         | _ => []
         end
      ++ flat_map translatedNodes params
      ++ match returnType with
         | Some (TypeAnnotation typeAnnotation) => translatedNodes typeAnnotation
         | _ => []
         end
      ++ translatedNodes body
  | TSTypeAliasDeclaration _ id typeParameters typeAnnotation =>
      translatedNodes id
      ++ match typeParameters with
         | Some declared => flat_map translatedNodes declared
         | None => []
         end
      ++ translatedNodes typeAnnotation
  | ImportDeclaration _ specifiers source =>
      from_option translatedNodes []
        (List.find (isType "ImportDefaultSpecifier") specifiers)
      ++ from_option translatedNodes []
           (List.find (isType "ImportNamespaceSpecifier") specifiers)
      ++ flat_map translatedNodes (List.filter (isType "ImportSpecifier") specifiers)
      ++ translatedNodes source
  | ExpressionStatement _ expression => translatedNodes expression
  | IfStatement _ test consequent =>
      translatedNodes test ++ translatedNodes consequent
  | CallExpression _ callee arguments =>
      translatedNodes callee ++ flat_map translatedNodes arguments
  | ImportDefaultSpecifier _ local | ImportNamespaceSpecifier _ local =>
      translatedNodes local
  | ImportSpecifier _ imported local =>
      if Nat.eqb (start (base imported)) (start (base local))
      then translatedNodes imported
      else translatedNodes imported ++ translatedNodes local
  | TSTypeParameter _ _ constraint default_ =>
      from_option translatedNodes [] constraint
      ++ from_option translatedNodes [] default_
  | TSUnionType _ types => flat_map translatedNodes types
  | Identifier _ _ | StringLiteral _ _ | BooleanLiteral _ _ | KeywordNode _ _
  | Other _ _ _ => []
  end.

(** What the translation of the statements of a block does. *)
Definition TranslatesBelow
    (removeStringIndentation : string -> Z -> (Z -> bool) -> string) (node : Node)
    : Prop :=
  match node with
  | BlockStatement _ body =>
      Forall (fun n =>
                Translates (parseNodePresent removeStringIndentation n) []
                  (translatedNodes n))
             body
  | _ => True
  end.

(** ** Indentation that closes *)

(** The indentation left open after the items of a list, innermost
    first, when [open] was open in front of them; [None] when an item
    finishes an indentation that is not the innermost one open. *)
Fixpoint openAfter (open : list Behaviour) (printItems : list PrintItem)
    : option (list Behaviour) :=
  match printItems with
  | [] => Some open
  | PBehaviour StartIndent :: rest => openAfter (StartIndent :: open) rest
  | PBehaviour StartHangingIndent :: rest =>
      openAfter (StartHangingIndent :: open) rest
  | PBehaviour FinishIndent :: rest =>
      match open with
      | StartIndent :: below => openAfter below rest
      | _ => None
      end
  | PBehaviour FinishHangingIndent :: rest =>
      match open with
      | StartHangingIndent :: below => openAfter below rest
      | _ => None
      end
  | _ :: rest => openAfter open rest
  end.

(** A list of items that finishes every indentation it starts, and
    nothing else. *)
Definition closesIndentation (printItems : list PrintItem) : bool :=
  match openAfter [] printItems with
  | Some [] => true
  | _ => false
  end.

(** A print item all of whose item lists close their indentation: the
    items of every group and the branches of every condition in it. *)
Fixpoint wellIndented (item : PrintItem) : bool :=
  match item with
  | PGroup g => wellIndentedGroup g
  | PCondition c => wellIndentedCondition c
  | _ => true
  end
with wellIndentedCondition (c : Condition) : bool :=
  match c with
  | mkCondition _ _ r t f =>
      match r with
      | ResolveCondition inner => wellIndentedCondition inner
      | ResolveFunction _ => true
      end
      && match t with
         | Some branch => closesIndentation branch && forallb wellIndented branch
         | None => true
         end
      && match f with
         | Some branch => closesIndentation branch && forallb wellIndented branch
         | None => true
         end
  end
with wellIndentedGroup (g : Group) : bool :=
  match g with
  | mkGroup printItems =>
      closesIndentation printItems && forallb wellIndented printItems
  end.

(** An item that neither starts nor finishes an indentation. *)
Definition leavesIndentation (item : PrintItem) : bool :=
  match item with
  | PBehaviour StartIndent | PBehaviour FinishIndent
  | PBehaviour StartHangingIndent | PBehaviour FinishHangingIndent => false
  | _ => wellIndented item
  end.

(** A list of items that leaves open what was open, whatever that is,
    and holds well indented items only. *)
Definition Tidy (printItems : list PrintItem) : Prop :=
  (forall open, openAfter open printItems = Some open)
  /\ forallb wellIndented printItems = true.

(** A computation whose result has a property, in every context. *)
Definition Yields {A} (m : M A) (Q : A -> Prop) : Prop :=
  forall c, Q (fst (m c)).

(** ** Quotes in a literal *)

(** How often a character occurs in a text. *)
Fixpoint occurrences (c : ascii) (text : string) : nat :=
  match text with
  | EmptyString => O
  | String x rest =>
      if Ascii.eqb x c then S (occurrences c rest) else occurrences c rest
  end.

(** Every [quote] of a text comes right after a backslash,
    [afterBackslash] telling whether the text itself does. *)
Fixpoint quotesFollowBackslash (quote : ascii) (afterBackslash : bool)
    (text : string) : bool :=
  match text with
  | EmptyString => true
  | String x rest =>
      (negb (Ascii.eqb x quote) || afterBackslash)
      && quotesFollowBackslash quote (Ascii.eqb x "\") rest
  end.

(** The quote of a string literal, by the options. *)
Definition quoteOf (options : ResolvedConfiguration) : ascii :=
  if singleQuotes options then "'"%char else doubleQuote.

(** * Properties of the translator *)

(** ** Induction on the syntax tree *)

Section NodeInduction.

Variable P : Node -> Prop.

Definition OnOption (node : option Node) : Prop :=
  match node with Some n => P n | None => True end.

Definition OnTypeParameters (t : option (TypeParameters Node)) : Prop :=
  match t with
  | Some (TypeParameterDeclaration declared) => Forall P declared
  | _ => True
  end.

Definition OnReturnType (t : option (ReturnType Node)) : Prop :=
  match t with
  | Some (TypeAnnotation typeAnnotation) => P typeAnnotation
  | _ => True
  end.

Definition OnDeclared (t : option (list Node)) : Prop :=
  match t with Some declared => Forall P declared | None => True end.

Hypothesis onProgram : forall b body, Forall P body -> P (Program b body).
Hypothesis onBlockStatement :
  forall b body, Forall P body -> P (BlockStatement b body).
Hypothesis onIdentifier : forall b name, P (Identifier b name).
Hypothesis onExportNamedDeclaration :
  forall b declaration, OnOption declaration -> P (ExportNamedDeclaration b declaration).
Hypothesis onFunctionDeclaration :
  forall b async generator id typeParameters params returnType body,
    OnOption id -> OnTypeParameters typeParameters -> Forall P params ->
    OnReturnType returnType -> P body ->
    P (FunctionDeclaration b async generator id typeParameters params returnType body).
Hypothesis onTSTypeAliasDeclaration :
  forall b id typeParameters typeAnnotation,
    P id -> OnDeclared typeParameters -> P typeAnnotation ->
    P (TSTypeAliasDeclaration b id typeParameters typeAnnotation).
Hypothesis onImportDeclaration :
  forall b specifiers source,
    Forall P specifiers -> P source -> P (ImportDeclaration b specifiers source).
Hypothesis onExpressionStatement :
  forall b expression, P expression -> P (ExpressionStatement b expression).
Hypothesis onIfStatement :
  forall b test consequent, P test -> P consequent -> P (IfStatement b test consequent).
Hypothesis onCallExpression :
  forall b callee arguments,
    P callee -> Forall P arguments -> P (CallExpression b callee arguments).
Hypothesis onImportDefaultSpecifier :
  forall b local, P local -> P (ImportDefaultSpecifier b local).
Hypothesis onImportNamespaceSpecifier :
  forall b local, P local -> P (ImportNamespaceSpecifier b local).
Hypothesis onImportSpecifier :
  forall b imported local, P imported -> P local -> P (ImportSpecifier b imported local).
Hypothesis onStringLiteral : forall b value, P (StringLiteral b value).
Hypothesis onBooleanLiteral : forall b value, P (BooleanLiteral b value).
Hypothesis onKeywordNode : forall b k, P (KeywordNode b k).
Hypothesis onTSTypeParameter :
  forall b name constraint default_,
    OnOption constraint -> OnOption default_ ->
    P (TSTypeParameter b name constraint default_).
Hypothesis onTSUnionType : forall b types, Forall P types -> P (TSUnionType b types).
Hypothesis onOther : forall b type hasBodyProperty, P (Other b type hasBodyProperty).

Fixpoint Node_tree_ind (node : Node) : P node :=
  let onList := fix onList (nodes : list Node) : Forall P nodes :=
    match nodes with
    | [] => List.Forall_nil P
    | n :: rest => List.Forall_cons P n rest (Node_tree_ind n) (onList rest)
    end in
  let onOption (child : option Node) : OnOption child :=
    match child with Some n => Node_tree_ind n | None => I end in
  match node with
  | Program b body => onProgram b body (onList body)
  | BlockStatement b body => onBlockStatement b body (onList body)
  | Identifier b name => onIdentifier b name
  | ExportNamedDeclaration b declaration =>
      onExportNamedDeclaration b declaration (onOption declaration)
  | FunctionDeclaration b async generator id typeParameters params returnType body =>
      onFunctionDeclaration b async generator id typeParameters params returnType body
        (onOption id)
        (match typeParameters return OnTypeParameters typeParameters with
         | Some (TypeParameterDeclaration declared) => onList declared
         | Some TypeParametersNoop => I
         | None => I
         end)
        (onList params)
        (match returnType return OnReturnType returnType with
         | Some (TypeAnnotation typeAnnotation) => Node_tree_ind typeAnnotation
         | Some ReturnTypeNoop => I
         | None => I
         end)
        (Node_tree_ind body)
  | TSTypeAliasDeclaration b id typeParameters typeAnnotation =>
      onTSTypeAliasDeclaration b id typeParameters typeAnnotation
        (Node_tree_ind id)
        (match typeParameters return OnDeclared typeParameters with
         | Some declared => onList declared
         | None => I
         end)
        (Node_tree_ind typeAnnotation)
  | ImportDeclaration b specifiers source =>
      onImportDeclaration b specifiers source (onList specifiers) (Node_tree_ind source)
  | ExpressionStatement b expression =>
      onExpressionStatement b expression (Node_tree_ind expression)
  | IfStatement b test consequent =>
      onIfStatement b test consequent (Node_tree_ind test) (Node_tree_ind consequent)
  | CallExpression b callee arguments =>
      onCallExpression b callee arguments (Node_tree_ind callee) (onList arguments)
  | ImportDefaultSpecifier b local =>
      onImportDefaultSpecifier b local (Node_tree_ind local)
  | ImportNamespaceSpecifier b local =>
      onImportNamespaceSpecifier b local (Node_tree_ind local)
  | ImportSpecifier b imported local =>
      onImportSpecifier b imported local (Node_tree_ind imported) (Node_tree_ind local)
  | StringLiteral b value => onStringLiteral b value
  | BooleanLiteral b value => onBooleanLiteral b value
  | KeywordNode b k => onKeywordNode b k
  | TSTypeParameter b name constraint default_ =>
      onTSTypeParameter b name constraint default_
        (onOption constraint) (onOption default_)
  | TSUnionType b types => onTSUnionType b types (onList types)
  | Other b type hasBodyProperty => onOther b type hasBodyProperty
  end.

End NodeInduction.

(** ** Translation only extends the context *)

Lemma Extends_refl c : Extends c c.
Proof. split; reflexivity. Qed.

Lemma Extends_trans c1 c2 c3 : Extends c1 c2 -> Extends c2 c3 -> Extends c1 c3.
Proof.
  intros [] []. split; try congruence; [set_solver | lia].
Qed.

Lemma keeps_ret {A} (a : A) : Keeps (ret a).
Proof. intros c. apply Extends_refl. Qed.

Lemma keeps_bind {A B} (m : M A) (k : A -> M B) :
  Keeps m -> (forall a, Keeps (k a)) -> Keeps (bind m k).
Proof.
  intros Hm Hk c. unfold bind. specialize (Hm c).
  destruct (m c) as [a c1]. eapply Extends_trans; [exact Hm | apply Hk].
Qed.

Lemma keeps_andThen (g1 g2 : Gen) : Keeps g1 -> Keeps g2 -> Keeps (g1 ;;; g2).
Proof.
  intros H1 H2. unfold andThen.
  apply keeps_bind; [assumption | intros a].
  apply keeps_bind; [assumption | intros b]. apply keeps_ret.
Qed.

Lemma keeps_read {A} (f : Context -> A) : Keeps (fun c => (f c, c)).
Proof. intros c. apply Extends_refl. Qed.

Lemma keeps_yieldIf_option (flag : Context -> bool) (g : Gen) :
  Keeps g -> Keeps (fun c => yieldIf (flag c) g c).
Proof.
  intros H c. destruct (flag c); [apply H | apply Extends_refl].
Qed.

Lemma keeps_yieldNewLine : Keeps yieldNewLine.
Proof. intros c. apply Extends_refl. Qed.

Lemma keeps_getContext : Keeps getContext.
Proof. intros c. apply Extends_refl. Qed.

Lemma keeps_freshId : Keeps freshId.
Proof. intros c. split; try reflexivity. simpl. lia. Qed.

Lemma keeps_parseComment comment : Keeps (parseComment comment).
Proof.
  intros c. unfold parseComment.
  destruct (isHandled comment c); [apply Extends_refl |].
  destruct (comment_type comment); split; simpl; try reflexivity; try set_solver.
Qed.

Lemma keeps_unknown rsi b type : Keeps (parseUnknownNode rsi b type).
Proof. intros c. split; reflexivity. Qed.

(** The steps every proof of [Keeps] is made of. *)
Ltac keeps_step :=
  match goal with
  | |- Keeps (ret _) => apply keeps_ret
  | |- Keeps yieldNothing => apply keeps_ret
  | |- Keeps (yield _) => apply keeps_ret
  | |- Keeps (yieldString _) => apply keeps_ret
  | |- Keeps yieldNewLine => apply keeps_yieldNewLine
  | |- Keeps getContext => apply keeps_getContext
  | |- Keeps freshId => apply keeps_freshId
  | |- Keeps (parseComment _) => apply keeps_parseComment
  | |- Keeps (_ ;;; _) => apply keeps_andThen
  | |- Keeps (bind _ _) => apply keeps_bind; [| intros ?]
  | |- Keeps (yieldIf ?b _) => destruct b; unfold yieldIf
  | |- Keeps (if ?b then _ else _) => destruct b
  | |- Keeps (match ?x with _ => _ end) => destruct x
  | |- Keeps (fun c => yieldIf _ _ c) => apply keeps_yieldIf_option
  | |- Keeps (fun c => (_, c)) => apply keeps_read
  | H : Keeps ?m |- Keeps ?m => exact H
  | H : forall x, Keeps _ |- Keeps _ => solve [apply H]
  end.

Ltac keeps := repeat keeps_step.

Lemma keeps_createInfo name : Keeps (createInfo name).
Proof. unfold createInfo. keeps. Qed.

Lemma keeps_createCondition name r t f : Keeps (createCondition name r t f).
Proof. unfold createCondition. keeps. Qed.

Lemma keeps_newLineIfHanging info : Keeps (newLineIfHangingSpaceOtherwise info).
Proof.
  unfold newLineIfHangingSpaceOtherwise. keeps. apply keeps_createCondition.
Qed.

Lemma keeps_parseCommentCollection comments lastNode :
  Keeps (parseCommentCollection comments lastNode).
Proof.
  revert lastNode. induction comments as [| comment rest IH]; intros lastNode.
  - apply keeps_ret.
  - intros c. simpl. destruct (isHandled comment c); [apply IH |].
    refine (keeps_andThen _ _ _ _ c); keeps.
Qed.

Lemma keeps_parseLeadingComments node : Keeps (parseLeadingComments node).
Proof.
  unfold parseLeadingComments.
  destruct (leadingComments (base node)); [apply keeps_parseCommentCollection | keeps].
Qed.

Lemma keeps_parseTrailingComments node : Keeps (parseTrailingComments node).
Proof.
  unfold parseTrailingComments.
  destruct (trailingComments (base node)); [apply keeps_parseCommentCollection | keeps].
Qed.

Lemma keeps_getWithComments node item :
  Keeps item -> Keeps (getWithComments node item).
Proof.
  intros H. unfold getWithComments. keeps.
  - apply keeps_parseLeadingComments.
  - apply keeps_parseTrailingComments.
Qed.

Section HandlersKeep.

Variable parseNode : option Node -> M Group.

Let KeepsNode (node : Node) : Prop := Keeps (parseNode (Some node)).

Lemma keeps_yieldNode node : Keeps (parseNode node) -> Keeps (yieldNode parseNode node).
Proof. intros H. unfold yieldNode. keeps. Qed.

Lemma keeps_parameterList separator params :
  Forall KeepsNode params -> Keeps separator ->
  Keeps (parseParameterListItems parseNode separator params).
Proof.
  intros Hall Hsep. induction Hall as [| param rest Hparam Hrest IH].
  - apply keeps_ret.
  - simpl. destruct rest as [| next rest'].
    + apply keeps_yieldNode, Hparam.
    + keeps; try exact IH; apply keeps_yieldNode, Hparam.
Qed.

Lemma keeps_separated select separator atFirst nodes :
  Forall KeepsNode nodes -> Keeps separator ->
  Keeps (parseSeparatedItems parseNode select separator atFirst nodes).
Proof.
  intros Hall Hsep. revert atFirst.
  induction Hall as [| node rest Hnode Hrest IH]; intros atFirst.
  - apply keeps_ret.
  - simpl. destruct (select node); [| apply IH].
    keeps; try apply IH; apply keeps_yieldNode, Hnode.
Qed.

Lemma keeps_firstNode select nodes :
  Forall KeepsNode nodes -> Keeps (yieldFirstNode parseNode select nodes).
Proof.
  intros Hall. induction Hall as [| node rest Hnode Hrest IH].
  - apply keeps_ret.
  - simpl. destruct (select node); [apply keeps_yieldNode, Hnode | exact IH].
Qed.

Lemma keeps_statementsFrom previous statements :
  Forall KeepsNode statements ->
  Keeps (parseStatementsFrom parseNode previous statements).
Proof.
  intros Hall. revert previous.
  induction Hall as [| statement rest Hnode Hrest IH]; intros previous.
  - apply keeps_ret.
  - simpl. keeps; try apply IH; try apply keeps_yieldNode, Hnode.
Qed.

Lemma keeps_parseStatements body block :
  Forall KeepsNode body -> Keeps (parseStatements parseNode body block).
Proof.
  intros Hall. unfold parseStatements. keeps.
  - apply keeps_statementsFrom, Hall.
  - apply keeps_parseCommentCollection.
Qed.

Lemma keeps_parametersOrArguments params :
  Forall KeepsNode params -> Keeps (parseParametersOrArguments parseNode params).
Proof.
  intros Hall. unfold parseParametersOrArguments, surroundWithNewLines,
    withIndent, withHangingIndent.
  keeps; apply keeps_parameterList; try assumption; keeps.
Qed.

Lemma keeps_typeParameterDeclaration params :
  Forall KeepsNode params ->
  Keeps (yieldTypeParameterDeclaration parseNode params).
Proof.
  intros Hall. unfold yieldTypeParameterDeclaration, parseTypeParameterDeclaration,
    surroundWithNewLines, withIndent, withHangingIndent.
  keeps; apply keeps_parameterList; try assumption; keeps.
Qed.

Lemma keeps_firstLineTrailingComments block comments :
  Keeps (getFirstLineTrailingComments block comments).
Proof.
  induction comments as [| comment rest IH]; simpl; keeps.
Qed.

Lemma keeps_parseBlockStatement b body :
  Forall KeepsNode body -> Keeps (parseBlockStatement parseNode b body).
Proof.
  intros Hall. unfold parseBlockStatement, withIndent. keeps.
  - apply keeps_firstLineTrailingComments.
  - apply keeps_parseStatements, Hall.
Qed.

Lemma keeps_parseImportDeclaration b specifiers source :
  Forall KeepsNode specifiers -> KeepsNode source ->
  Keeps (parseImportDeclaration parseNode b specifiers source).
Proof.
  intros Hall Hsource. unfold parseImportDeclaration, withIndent, withHangingIndent.
  keeps;
    try (apply keeps_firstNode; assumption);
    try (apply keeps_separated; [assumption | keeps]);
    try (apply keeps_yieldNode; assumption).
Qed.

Lemma keeps_parseFunctionDeclaration async generator id typeParameters params
    returnType body :
  match id with Some n => KeepsNode n | None => True end ->
  match typeParameters with
  | Some (TypeParameterDeclaration declared) => Forall KeepsNode declared
  | _ => True
  end ->
  Forall KeepsNode params ->
  match returnType with
  | Some (TypeAnnotation typeAnnotation) => KeepsNode typeAnnotation
  | _ => True
  end ->
  KeepsNode body ->
  Keeps (parseFunctionDeclaration parseNode async generator id typeParameters
           params returnType body).
Proof.
  intros Hid Htypes Hparams Hreturn Hbody. unfold parseFunctionDeclaration.
  keeps;
    try apply keeps_createInfo;
    try apply keeps_newLineIfHanging;
    try (apply keeps_yieldNode; assumption);
    try (apply keeps_typeParameterDeclaration; assumption);
    try (apply keeps_parametersOrArguments; assumption).
Qed.

Lemma keeps_parseTypeAlias id typeParameters typeAnnotation :
  KeepsNode id ->
  match typeParameters with Some declared => Forall KeepsNode declared | None => True end ->
  KeepsNode typeAnnotation ->
  Keeps (parseTypeAlias parseNode id typeParameters typeAnnotation).
Proof.
  intros Hid Htypes Hannotation. unfold parseTypeAlias.
  keeps;
    try (apply keeps_yieldNode; assumption);
    try (apply keeps_typeParameterDeclaration; assumption).
Qed.

Lemma keeps_parseConsequent consequent :
  KeepsNode consequent ->
  match consequent with
  | BlockStatement _ body => Forall KeepsNode body
  | _ => True
  end ->
  Keeps (parseConsequent parseNode consequent).
Proof.
  intros Hconsequent Hbody. unfold parseConsequent, withIndent.
  keeps;
    try apply keeps_parseLeadingComments;
    try apply keeps_parseTrailingComments;
    try (apply keeps_parseStatements; assumption);
    try (apply keeps_yieldNode; assumption).
Qed.

Lemma keeps_parseIfStatement test consequent :
  KeepsNode test -> KeepsNode consequent ->
  match consequent with
  | BlockStatement _ body => Forall KeepsNode body
  | _ => True
  end ->
  Keeps (parseIfStatement parseNode test consequent).
Proof.
  intros Htest Hconsequent Hbody. unfold parseIfStatement.
  keeps;
    try (apply keeps_parseConsequent; assumption);
    try apply keeps_createInfo;
    try apply keeps_createCondition;
    try apply keeps_newLineIfHanging;
    try apply keeps_parseCommentCollection;
    try apply keeps_parseLeadingComments;
    try apply keeps_parseTrailingComments;
    try (apply keeps_parseStatements; assumption);
    try (apply keeps_yieldNode; assumption).
Qed.

Lemma keeps_parseTypeParameter name constraint default_ :
  match constraint with Some n => KeepsNode n | None => True end ->
  match default_ with Some n => KeepsNode n | None => True end ->
  Keeps (parseTypeParameter parseNode name constraint default_).
Proof.
  intros Hconstraint Hdefault. unfold parseTypeParameter.
  keeps; apply keeps_yieldNode; assumption.
Qed.

Lemma keeps_parseUnionType types :
  Forall KeepsNode types -> Keeps (parseUnionType parseNode types).
Proof.
  intros Hall. unfold parseUnionType, withHangingIndent.
  keeps; apply keeps_separated; try assumption; keeps.
Qed.

End HandlersKeep.

Section TranslatorProperties.

Variable removeStringIndentation : string -> Z -> (Z -> bool) -> string.

Abbreviation parseNodePresent := (Parser.parseNodePresent removeStringIndentation).
Abbreviation parseNode := (Parser.parseNode removeStringIndentation).
Abbreviation parseFunc := (Parser.parseFunc removeStringIndentation).

Lemma parseNodePresent_unfold node :
  parseNodePresent node
  = (let* parsed := getWithComments node (parseFunc parseNode node) in
     ret (mkGroup parsed)).
Proof. destruct node; reflexivity. Qed.

Lemma keeps_with_children node :
  Keeps (parseNodePresent node) /\ KeepsBelow removeStringIndentation node.
Proof.
  assert (weaken : forall nodes,
    Forall (fun n => Keeps (parseNodePresent n) /\ KeepsBelow removeStringIndentation n) nodes ->
    Forall (fun n => Keeps (parseNode (Some n))) nodes).
  { intros nodes H. eapply Forall_impl; [exact H | intros ? []; assumption]. }
  induction node using Node_tree_ind;
    (split;
     [ rewrite parseNodePresent_unfold;
       apply keeps_bind; [apply keeps_getWithComments | intros; apply keeps_ret]
     | simpl; auto; apply weaken; assumption ]);
    cbn [Parser.parseFunc].
  - apply keeps_parseStatements. auto.
  - apply keeps_parseBlockStatement. auto.
  - apply keeps_ret.
  - unfold parseExportNamedDeclaration. keeps. apply keeps_yieldNode.
    destruct declaration; simpl in *; [tauto | apply keeps_ret].
  - apply keeps_parseFunctionDeclaration.
    + destruct id; simpl in *; tauto.
    + destruct typeParameters as [[]|]; simpl in *; auto.
    + auto.
    + destruct returnType as [[]|]; simpl in *; tauto.
    + tauto.
  - apply keeps_parseTypeAlias; try tauto.
    destruct typeParameters; simpl in *; auto.
  - apply keeps_parseImportDeclaration; [auto | tauto].
  - unfold parseExpressionStatement. keeps. apply keeps_yieldNode. tauto.
  - apply keeps_parseIfStatement; tauto.
  - unfold parseCallExpression. keeps.
    + apply keeps_yieldNode. tauto.
    + apply keeps_parametersOrArguments. auto.
  - unfold parseImportDefaultSpecifier. apply keeps_yieldNode. tauto.
  - unfold parseImportNamespaceSpecifier. keeps. apply keeps_yieldNode. tauto.
  - unfold parseImportSpecifier. keeps; apply keeps_yieldNode; tauto.
  - unfold parseStringLiteral. intros c.
    destruct (singleQuotes (options c)); apply Extends_refl.
  - apply keeps_ret.
  - apply keeps_ret.
  - apply keeps_parseTypeParameter.
    + destruct constraint; simpl in *; tauto.
    + destruct default_; simpl in *; tauto.
  - apply keeps_parseUnionType. auto.
  - apply keeps_unknown.
Qed.

Lemma keeps_parseNodePresent node : Keeps (parseNodePresent node).
Proof. apply keeps_with_children. Qed.

Lemma keeps_parseNode node : Keeps (parseNode node).
Proof.
  destruct node; [apply keeps_parseNodePresent | apply keeps_ret].
Qed.

(** ** Absent nodes and nodes of an unknown kind *)

(** C10. [parseNode] on [null] does not fail: it returns a group whose
    item sequence is empty and leaves the context as it was. A construct
    with an absent optional child, such as an export declaration without
    a declaration, gets that empty group and nothing else for it. *)
Theorem parseNode_null_is_empty_group context :
  parseNode None context = (mkGroup [], context)
  /\ items (fst (parseNode None context)) = []
  /\ forall b,
       parseFunc parseNode (ExportNamedDeclaration b None) context
       = ([PString "export "; PGroup (mkGroup [])], context).
Proof. repeat split. Qed.

(** Comment collections change nothing of the context but the set of
    handled comments. *)
Lemma parseCommentCollection_context comments lastNode context :
  snd (parseCommentCollection comments lastNode context)
  = withHandledComments
      (handledComments (snd (parseCommentCollection comments lastNode context)))
      context.
Proof.
  revert lastNode context.
  induction comments as [| comment rest IH]; intros lastNode context.
  - destruct context; reflexivity.
  - simpl. destruct (isHandled comment context) eqn:Hhandled; [apply IH |].
    unfold andThen, bind, ret, parseComment. rewrite Hhandled.
    destruct (comment_type comment);
      match goal with
      | |- context [parseCommentCollection rest ?l ?c] =>
          specialize (IH l c); destruct (parseCommentCollection rest l c) as [r c']
      end; simpl in *; rewrite IH; destruct context; reflexivity.
Qed.

Lemma comments_keep_console comments lastNode context :
  let after := snd (parseCommentCollection comments lastNode context) in
  console after = console context /\ log after = log context
  /\ fileText after = fileText context.
Proof.
  intros after. subst after. rewrite parseCommentCollection_context.
  repeat split.
Qed.

Lemma unhandled_kind_is_other node :
  hasHandler (nodeType node) = false ->
  exists b type hasBodyProperty, node = Other b type hasBodyProperty.
Proof.
  destruct node; try discriminate; [destruct k; discriminate | eauto].
Qed.

(** C5. A node whose kind has no handler does not make translation
    fail. Its group holds, between the node's leading and trailing
    comments, one [Unknown] item whose text is the slice of the file
    text from the node's start to its end with its indentation removed,
    and the logging callback is called once, with a message that names
    the kind and quotes that slice. *)
Theorem unknown_node_passes_through node context :
  hasHandler (nodeType node) = false ->
  let nodeText :=
    Js.substring (fileText context) (start (base node)) (end_ (base node)) in
  exists leading trailing between after,
    parseNode (Some node) context
    = (mkGroup (leading
                ++ [PUnknown (removeStringIndentation nodeText 2 (fun _ => false))]
                ++ trailing), after)
    /\ leading = fst (parseLeadingComments node context)
    /\ trailing = fst (parseTrailingComments node between)
    /\ console after
       = log context
           ("Not implemented node type: " +:+ nodeType node
            +:+ " (" +:+ nodeText +:+ ")")
           (console context).
Proof.
  intros Hkind nodeText.
  destruct (unhandled_kind_is_other node Hkind) as (b & type & hasBodyProperty & ->).
  subst nodeText. simpl.
  unfold getWithComments, andThen, bind, ret, parseLeadingComments,
    parseTrailingComments, parseUnknownNode. simpl.
  destruct (leadingComments b) as [leading |];
    destruct (trailingComments b) as [trailing |]; simpl.
  - pose proof (comments_keep_console leading None context) as (Hc & Hl & Hf).
    destruct (parseCommentCollection leading None context) as [l1 c1]. simpl in *.
    rewrite Hf, Hl, Hc.
    match goal with
    | |- context [parseCommentCollection trailing ?l ?c] =>
        pose proof (comments_keep_console trailing l c) as (Hc' & _ & _);
        destruct (parseCommentCollection trailing l c) as [l2 c2] eqn:Htrailing
    end.
    simpl in *. do 4 eexists. split; [reflexivity |].
    split; [reflexivity |]. split; [rewrite Htrailing; reflexivity |].
    exact Hc'.
  - pose proof (comments_keep_console leading None context) as (Hc & Hl & Hf).
    destruct (parseCommentCollection leading None context) as [l1 c1]. simpl in *.
    rewrite Hf, Hl, Hc.
    exists l1, [], context. eexists. split; [reflexivity |].
    repeat split.
  - match goal with
    | |- context [parseCommentCollection trailing ?l ?c] =>
        pose proof (comments_keep_console trailing l c) as (Hc' & _ & _);
        destruct (parseCommentCollection trailing l c) as [l2 c2] eqn:Htrailing
    end.
    simpl in *. exists [], l2. do 2 eexists. split; [reflexivity |].
    split; [reflexivity |]. split; [rewrite Htrailing; reflexivity |].
    exact Hc'.
  - exists [], [], context. eexists. repeat split.
Qed.

(** ** Statement sequences *)

Lemma eraseGroups_app a b : eraseGroups (a ++ b) = eraseGroups a ++ eraseGroups b.
Proof. unfold eraseGroups. apply map_app. Qed.

Lemma statementSeparator_repeat newLine previous current :
  statementSeparator newLine previous current
  = repeat (PString newLine) (if hasBody previous || hasBody current then 2 else 1).
Proof.
  unfold statementSeparator. destruct (hasBody previous || hasBody current); reflexivity.
Qed.

Lemma eraseGroups_repeat newLine n :
  eraseGroups (repeat (PString newLine) n) = repeat (PString newLine) n.
Proof. induction n; simpl; congruence. Qed.

Lemma groupsOf_repeat newLine n : groupsOf (repeat (PString newLine) n) = [].
Proof. induction n; simpl; auto. Qed.

Lemma statementsFrom_layout statements previous context :
  eraseGroups (fst (parseStatementsFrom parseNode (Some previous) statements context))
  = statementsLayoutFrom (newLineKind context) (hasBody previous)
      (map hasBody statements).
Proof.
  revert previous context.
  induction statements as [| statement rest IH]; intros previous context; [reflexivity |].
  simpl. unfold yieldNode, yield, andThen, bind, ret. simpl.
  pose proof (keeps_parseNodePresent statement context) as Hkeeps.
  destruct (parseNodePresent statement context) as [group context1]. simpl in *.
  specialize (IH statement context1).
  destruct (parseStatementsFrom parseNode (Some statement) rest context1)
    as [restItems context2].
  simpl in *. rewrite eraseGroups_app, statementSeparator_repeat, eraseGroups_repeat.
  simpl. rewrite IH, (same_newLineKind _ _ Hkeeps). reflexivity.
Qed.

Lemma statementsFrom_groups statements previous context :
  Forall2 (fun group statement =>
             exists c, group = fst (parseNode (Some statement) c))
          (groupsOf (fst (parseStatementsFrom parseNode previous statements context)))
          statements.
Proof.
  revert previous context.
  induction statements as [| statement rest IH]; intros previous context;
    [constructor |].
  simpl. unfold yieldNode, yield, andThen, bind, ret.
  destruct previous as [previous |]; simpl;
    destruct (parseNodePresent statement context) as [group context1] eqn:Hgroup;
    specialize (IH (Some statement) context1);
    destruct (parseStatementsFrom parseNode (Some statement) rest context1)
      as [restItems context2];
    simpl in *.
  - rewrite statementSeparator_repeat. unfold groupsOf in *. rewrite omap_app.
    fold (groupsOf (repeat (PString (newLineKind context))
            (if hasBody previous || hasBody statement then 2%nat else 1%nat))).
    rewrite groupsOf_repeat. simpl. constructor; [| exact IH].
    exists context. simpl. rewrite Hgroup. reflexivity.
  - constructor; [| exact IH].
    exists context. simpl. rewrite Hgroup. reflexivity.
Qed.

Lemma hasBody_by_kind statement :
  hasBody statement
  = match statement with
    | IfStatement _ _ _ | ExportNamedDeclaration _ _ => false
    | _ => carriesBodyBlock statement
    end.
Proof. destruct statement; reflexivity. Qed.

(** C7, as the translator has it. What a statement sequence (the body
    of the program or of a block) yields is the groups of its statements
    in order, with one new line string between two neighbours, or two
    when one of the neighbours has a property [body], and then the inner
    comments of the block. A statement has that property exactly when
    it carries a body block and is neither an if statement nor an
    export: the block of an if statement is its [consequent] and the
    function of an export its [declaration], and both count as
    statements without a body. The layout between the groups depends
    on nothing else: no line number of the source enters it. *)
Theorem statement_sequence_layout body block context :
  exists statementItems innerCommentItems,
    fst (parseStatements parseNode body block context)
    = statementItems ++ innerCommentItems
    /\ eraseGroups statementItems
       = statementsLayout (newLineKind context)
           (map (fun statement =>
                   match statement with
                   | IfStatement _ _ _ | ExportNamedDeclaration _ _ => false
                   | _ => carriesBodyBlock statement
                   end)
                body)
    /\ Forall2 (fun group statement =>
                  exists c, group = fst (parseNode (Some statement) c))
               (groupsOf statementItems) body
    /\ (exists c,
          innerCommentItems
          = fst (match innerComments block with
                 | Some comments => parseCommentCollection comments None
                 | None => yieldNothing
                 end c))
    /\ parseFunc parseNode (Program block body)
       = parseStatements parseNode body block
    /\ parseFunc parseNode (BlockStatement block body)
       = (yieldString "{"
          ;;; match trailingComments block with
              | None => yieldNothing
              | Some comments => getFirstLineTrailingComments block comments
              end
          ;;; yieldNewLine
          ;;; withIndent (parseStatements parseNode body block)
          ;;; yieldString "}").
Proof.
  unfold parseStatements, andThen, bind, ret.
  pose proof (statementsFrom_groups body None context) as Hgroups.
  assert (Hlayout :
    eraseGroups (fst (parseStatementsFrom parseNode None body context))
    = statementsLayout (newLineKind context) (map hasBody body)).
  { destruct body as [| statement rest]; [reflexivity |].
    simpl. unfold yieldNode, yield, andThen, bind, ret. simpl.
    pose proof (keeps_parseNodePresent statement context) as Hkeeps.
    pose proof (statementsFrom_layout rest statement
                  (snd (parseNodePresent statement context))) as Hrest.
    destruct (parseNodePresent statement context) as [group context1]. simpl in *.
    destruct (parseStatementsFrom parseNode (Some statement) rest context1)
      as [restItems context2].
    simpl in *. rewrite Hrest, (same_newLineKind _ _ Hkeeps). reflexivity. }
  rewrite (map_ext _ _ hasBody_by_kind) in Hlayout.
  destruct (parseStatementsFrom parseNode None body context)
    as [statementItems context1].
  simpl in *.
  exists statementItems,
    (fst (match innerComments block with
          | Some comments => parseCommentCollection comments None
          | None => yieldNothing
          end context1)).
  split.
  - destruct (match innerComments block with
              | Some comments => parseCommentCollection comments None
              | None => yieldNothing
              end context1); reflexivity.
  - repeat split; try assumption. exists context1. reflexivity.
Qed.

(** ** If statements *)

Lemma keeps_consequent consequent : Keeps (parseConsequent parseNode consequent).
Proof.
  destruct (keeps_with_children consequent) as [Hnode Hbelow].
  apply keeps_parseConsequent; [exact Hnode |].
  destruct consequent; simpl in *; auto.
Qed.

Lemma parseIfStatement_shape test consequent context :
  exists startHeaderInfo endHeaderInfo startStatementsInfo endStatementsInfo
         testGroup separator openId newLineId closeId comments body after,
    let requireBraces :=
      consequentRequiresBraces (getHeaderTrailingComments consequent) consequent in
    let openBrace :=
      openBraceOf requireBraces openId separator startHeaderInfo endHeaderInfo
        startStatementsInfo endStatementsInfo in
    let closeBrace :=
      closeBraceOf closeId openBrace
        (closeBraceNewLineOf newLineId (newLineKind context)
           startStatementsInfo endStatementsInfo) in
    parseIfStatement parseNode test consequent context
    = ([PInfo startHeaderInfo; PString "if ("; PGroup testGroup; PString ")";
        PInfo endHeaderInfo; PCondition openBrace]
       ++ comments
       ++ [PString (newLineKind context); PInfo startStatementsInfo]
       ++ body
       ++ [PInfo endStatementsInfo; PCondition closeBrace], after)
    /\ (info_id startHeaderInfo < info_id endHeaderInfo
        < info_id startStatementsInfo)%nat
    /\ (info_id startStatementsInfo < info_id endStatementsInfo)%nat.
Proof.
  unfold parseIfStatement.
  unfold createInfo, newLineIfHangingSpaceOtherwise, createCondition, freshId,
    getContext, yieldNode, yieldNewLine, yieldString, yield, andThen, bind, ret.
  simpl.
  pose proof (keeps_parseNodePresent test (withNextId (S (nextId context)) context))
    as Htest.
  destruct (parseNodePresent test (withNextId (S (nextId context)) context))
    as [testGroup context1].
  simpl in *.
  match goal with
  | |- context [parseCommentCollection ?cs None ?c] =>
      pose proof (keeps_parseCommentCollection cs None c) as Hcomments;
      destruct (parseCommentCollection cs None c) as [comments context2]
  end.
  simpl in *.
  pose proof (keeps_consequent consequent context2) as Hbody.
  destruct (parseConsequent parseNode consequent context2) as [body context3].
  simpl in *.
  pose proof (same_newLineKind _ _ Htest) as E1.
  pose proof (same_newLineKind _ _ Hcomments) as E2.
  pose proof (same_newLineKind _ _ Hbody) as E3.
  pose proof (nextId_grows _ _ Htest) as N1.
  simpl in *. rewrite E3, E2, E1.
  do 12 eexists. split; [reflexivity |]. simpl. lia.
Qed.

(** *** The static flag *)

Lemma includes_spec ignored c :
  includes ignored c = true
  <-> exists i, In i ignored /\ comment_id i = comment_id c.
Proof.
  unfold includes. rewrite existsb_exists.
  split; intros (i & Hin & Hid); exists i; split; auto.
  - apply Nat.eqb_eq, Hid.
  - apply Nat.eqb_eq, Hid.
Qed.

Lemma hasLeadingCommentOnDifferentLine_spec statement ignored :
  hasLeadingCommentOnDifferentLine statement (Some ignored) = true
  <-> carriesCommentOnOtherLine ignored statement.
Proof.
  unfold hasLeadingCommentOnDifferentLine, carriesCommentOnOtherLine.
  destruct (leadingComments (base statement)) as [comments |]; simpl.
  - rewrite existsb_exists. split.
    + intros (c & Hin & Hc). exists c. split; [exact Hin |].
      destruct (includes ignored c) eqn:Hignored; [discriminate |].
      split.
      * rewrite <- includes_spec, Hignored. discriminate.
      * destruct (comment_type c); [right; apply Z.ltb_lt, Hc | left; reflexivity].
    + intros (c & Hin & Hnot & Hline). exists c. split; [exact Hin |].
      destruct (includes ignored c) eqn:Hignored.
      * exfalso. apply Hnot, includes_spec, Hignored.
      * destruct (comment_type c); [| reflexivity].
        destruct Hline as [Hline | Hline]; [discriminate | apply Z.ltb_lt, Hline].
  - split; [discriminate | intros (c & [] & _)].
Qed.

Lemma consequentRequiresBraces_spec consequent :
  let ignored := getHeaderTrailingComments consequent in
  consequentRequiresBraces ignored consequent = true
  <-> List.length (candidateBody consequent) <> 1%nat
      \/ exists statement,
           candidateBody consequent = [statement]
           /\ carriesCommentOnOtherLine ignored statement.
Proof.
  intros ignored.
  assert (Hone : forall statement,
    candidateBody consequent = [statement] ->
    consequentRequiresBraces ignored consequent
    = hasLeadingCommentOnDifferentLine statement (Some ignored)).
  { intros statement Hbody.
    destruct consequent; simpl in Hbody; try (injection Hbody as <-; reflexivity).
    subst body. simpl.
    destruct (hasLeadingCommentOnDifferentLine statement (Some ignored)); reflexivity. }
  destruct (candidateBody consequent) as [| statement [| second rest]] eqn:Hbody.
  - destruct consequent; simpl in Hbody; try discriminate. subst body.
    simpl. split; [intros _; left; discriminate | reflexivity].
  - rewrite (Hone statement eq_refl), hasLeadingCommentOnDifferentLine_spec.
    split.
    + intros Hcarries. right. exists statement. auto.
    + intros [Hlength | (s & Hs & Hcarries)]; [exfalso; apply Hlength; reflexivity |].
      injection Hs as <-. exact Hcarries.
  - destruct consequent; simpl in Hbody; try discriminate. subst body.
    simpl. split; [intros _; left; discriminate | reflexivity].
Qed.

(** *** The comments behind the header *)

Lemma isCommentLine_true c : isCommentLine c = true <-> comment_type c = CommentLine.
Proof. unfold isCommentLine. destruct (comment_type c); split; congruence. Qed.

Lemma isCommentLine_false c :
  isCommentLine c = false <-> comment_type c = CommentBlock.
Proof. unfold isCommentLine. destruct (comment_type c); split; congruence. Qed.

Lemma find_first {A} (p : A -> bool) (l : list A) :
  match List.find p l with
  | Some x =>
      exists before after,
        l = before ++ x :: after /\ p x = true
        /\ Forall (fun y => p y = false) before
  | None => Forall (fun y => p y = false) l
  end.
Proof.
  induction l as [| y l IH]; simpl; [constructor |].
  destruct (p y) eqn:Hy.
  - exists [], l. repeat split; [exact Hy | constructor].
  - destruct (List.find p l) as [x |].
    + destruct IH as (before & after & -> & Hx & Hbefore).
      exists (y :: before), after. repeat split; [exact Hx |].
      constructor; assumption.
    + constructor; assumption.
Qed.

Lemma find_first_at {A} (p : A -> bool) (before after : list A) x :
  p x = true -> Forall (fun y => p y = false) before ->
  List.find p (before ++ x :: after) = Some x.
Proof.
  intros Hx Hbefore. induction Hbefore as [| y before Hy Hbefore IH]; simpl.
  - rewrite Hx. reflexivity.
  - rewrite Hy. exact IH.
Qed.

Lemma checkComments_spec consequent comments c :
  In c (checkComments consequent comments)
  <-> commentStartLine c = startLine (base consequent) /\ In c comments.
Proof.
  unfold checkComments. rewrite List.filter_In, Z.eqb_eq. tauto.
Qed.

Lemma checkLeadingComments_spec consequent node c :
  In c (checkLeadingComments consequent node)
  <-> commentStartLine c = startLine (base consequent)
      /\ In c (default [] (leadingComments (base node))).
Proof.
  unfold checkLeadingComments. destruct (leadingComments (base node)); simpl.
  - apply checkComments_spec.
  - tauto.
Qed.

Lemma getHeaderTrailingComments_spec consequent c :
  In c (getHeaderTrailingComments consequent)
  <-> isHeaderTrailingComment consequent c.
Proof.
  destruct consequent; try apply checkLeadingComments_spec.
  cbn [getHeaderTrailingComments isHeaderTrailingComment].
  assert (Hrest :
    In c match body with
         | first :: _ =>
             checkLeadingComments (BlockStatement b body) first
         | [] =>
             match innerComments b with
             | Some comments => checkComments (BlockStatement b body) comments
             | None => []
             end
         end
    <-> commentStartLine c = startLine b
        /\ In c match body with
                | first :: _ => default [] (leadingComments (base first))
                | [] => default [] (innerComments b)
                end).
  { destruct body as [| first rest].
    - destruct (innerComments b); simpl; [apply checkComments_spec | tauto].
    - apply checkLeadingComments_spec. }
  destruct (leadingComments b) as [comments |]; simpl.
  - pose proof (find_first isCommentLine comments) as Hfind.
    destruct (List.find isCommentLine comments) as [commentLine |] eqn:Hfound.
    + destruct Hfind as (before & after & -> & Hline & Hbefore).
      split.
      * intros [<- | []]. left. exists before, after.
        split; [reflexivity |]. split; [apply isCommentLine_true, Hline |].
        eapply Forall_impl; [exact Hbefore | intros ?; apply isCommentLine_false].
      * intros [(before' & after' & Hsplit & Hc & Hbefore') | (Hall & _)].
        -- left. rewrite Hsplit in Hfound.
           rewrite find_first_at in Hfound.
           ++ congruence.
           ++ apply isCommentLine_true, Hc.
           ++ eapply Forall_impl; [exact Hbefore' | intros ?; apply isCommentLine_false].
        -- exfalso. apply Forall_app in Hall as [_ Hall].
           inversion Hall as [| ? ? Hblock _]; subst.
           apply isCommentLine_true in Hline. congruence.
    + rewrite Hrest. split.
      * intros H. right. split; [| exact H].
        eapply Forall_impl; [exact Hfind | intros ?; apply isCommentLine_false].
      * intros [(before & after & -> & Hc & _) | (_ & H)]; [| exact H].
        exfalso. apply Forall_app in Hfind as [_ Hfind].
        inversion Hfind as [| ? ? Hblock _]; subst.
        apply isCommentLine_false in Hblock. congruence.
  - rewrite Hrest. split.
    + intros H. right. split; [constructor | exact H].
    + intros [(before & after & Hsplit & _) | (_ & H)]; [| exact H].
      destruct before; discriminate.
Qed.

Lemma consequentRequiresBraces_bracesRequired consequent :
  consequentRequiresBraces (getHeaderTrailingComments consequent) consequent = true
  <-> bracesRequired consequent.
Proof.
  assert (Hcarries : forall statement,
    carriesCommentOnOtherLine (getHeaderTrailingComments consequent) statement
    <-> carriesCommentOffItsLine (isHeaderTrailingComment consequent) statement).
  { intros statement. unfold carriesCommentOnOtherLine, carriesCommentOffItsLine.
    split; intros (c & Hin & Hnot & Hline); exists c; (split; [exact Hin |]);
      (split; [| exact Hline]); intros (i & Hi & Hid); apply Hnot; exists i;
      (split; [| exact Hid]); apply getHeaderTrailingComments_spec, Hi. }
  rewrite (consequentRequiresBraces_spec consequent). unfold bracesRequired.
  split; (intros [Hlength | (statement & Hbody & Hcomment)];
          [left; exact Hlength | right; exists statement; split; [exact Hbody |]]);
    apply Hcarries, Hcomment.
Qed.

(** *** The two regions *)

Lemma isMultipleLines_later conditionContext startInfo endInfo :
  isMultipleLines startInfo endInfo conditionContext false = true
  <-> endsOnLaterLine conditionContext startInfo endInfo.
Proof.
  unfold isMultipleLines, endsOnLaterLine.
  destruct (getResolvedInfo conditionContext startInfo) as [s |];
    destruct (getResolvedInfo conditionContext endInfo) as [e |];
    try (split; [discriminate | intros (? & ? & ? & ? & ?); discriminate]).
  rewrite Z.gtb_ltb, Z.ltb_lt. split.
  - intros Hlt. exists s, e. repeat split. exact Hlt.
  - intros (s' & e' & [= <-] & [= <-] & Hlt). exact Hlt.
Qed.

Lemma later_is_different conditionContext startInfo endInfo :
  resolvedInOrder conditionContext startInfo endInfo ->
  endsOnLaterLine conditionContext startInfo endInfo
  <-> resolveToDifferentLines conditionContext startInfo endInfo.
Proof.
  unfold resolvedInOrder, endsOnLaterLine, resolveToDifferentLines.
  intros Horder. split; intros (s & e & Hs & He & Hlines); exists s, e;
    (split; [exact Hs |]); (split; [exact He |]);
    specialize (Horder s e Hs He); lia.
Qed.

(** C1, as the translator has it. An if statement yields, after the
    [Info]s around its header, a condition named openBrace whose true
    branch ends in the opening brace and which has no false branch. The
    four [Info]s are four objects, created in the order they are
    emitted. The function of the condition is never undefined. It is
    true exactly when the static flag is true, or the end [Info] of the
    header resolves to a later line than its start [Info], or the end
    [Info] of the body does; an unresolved [Info] counts as no
    difference. For [Info]s resolved in the order they are emitted, a
    later line is a different line. The static flag is true exactly
    when the candidate body is not one statement, of whatever kind, or
    that statement has a leading comment that is a line comment or
    starts on a line above the statement, the comments behind the
    header left aside; these are the first line comment in front of a
    block, or else the comments on the line of the branch in front of
    its first statement. *)
Theorem if_open_brace_condition test consequent context :
  exists startHeaderInfo endHeaderInfo startStatementsInfo endStatementsInfo
         testGroup openBrace separator resolver comments body closeBrace,
    fst (parseIfStatement parseNode test consequent context)
    = [PInfo startHeaderInfo; PString "if ("; PGroup testGroup; PString ")";
       PInfo endHeaderInfo; PCondition openBrace]
      ++ comments
      ++ [PString (newLineKind context); PInfo startStatementsInfo]
      ++ body
      ++ [PInfo endStatementsInfo; PCondition closeBrace]
    /\ (info_id startHeaderInfo < info_id endHeaderInfo
        < info_id startStatementsInfo)%nat
    /\ (info_id startStatementsInfo < info_id endStatementsInfo)%nat
    /\ cond_name openBrace = "openBrace"
    /\ cond_true openBrace = Some [PCondition separator; PString "{"]
    /\ cond_false openBrace = None
    /\ cond_condition openBrace = ResolveFunction resolver
    /\ (forall conditionContext,
          resolver conditionContext = Some true
          \/ resolver conditionContext = Some false)
    /\ (forall conditionContext,
          resolver conditionContext = Some true
          <-> bracesRequired consequent
              \/ endsOnLaterLine conditionContext startHeaderInfo endHeaderInfo
              \/ endsOnLaterLine conditionContext
                   startStatementsInfo endStatementsInfo)
    /\ (forall conditionContext startInfo endInfo,
          resolvedInOrder conditionContext startInfo endInfo ->
          endsOnLaterLine conditionContext startInfo endInfo
          <-> resolveToDifferentLines conditionContext startInfo endInfo)
    /\ (consequentRequiresBraces (getHeaderTrailingComments consequent) consequent
        = true
        <-> bracesRequired consequent)
    /\ (forall c,
          In c (getHeaderTrailingComments consequent)
          <-> isHeaderTrailingComment consequent c).
Proof.
  destruct (parseIfStatement_shape test consequent context)
    as (sH & eH & sS & eS & testGroup & separator & openId & newLineId & closeId
        & comments & body & after & Hshape & Hheader & Hbody).
  simpl in Hshape.
  exists sH, eH, sS, eS, testGroup.
  eexists. exists separator. eexists. exists comments, body. eexists.
  split; [rewrite Hshape; reflexivity |].
  split; [exact Hheader |]. split; [exact Hbody |].
  repeat (split; [reflexivity |]).
  split; [| split; [| split; [| split]]].
  - intros conditionContext. unfold openBraceResolver.
    destruct (_ || _ || _); auto.
  - intros conditionContext. unfold openBraceResolver.
    rewrite <- consequentRequiresBraces_bracesRequired,
            <- !isMultipleLines_later.
    split.
    + intros [= Htrue]. apply orb_true_iff in Htrue as [Htrue | Htrue]; [| auto].
      apply orb_true_iff in Htrue as [Htrue | Htrue]; auto.
    + intros [-> | [-> | ->]]; rewrite ?orb_true_r; reflexivity.
  - apply later_is_different.
  - apply consequentRequiresBraces_bracesRequired.
  - apply getHeaderTrailingComments_spec.
Qed.

(** C4. The last item of an if statement is a condition named
    closeBrace whose [condition] is the openBrace condition itself, the
    one yielded after the header, so that it takes that condition's
    outcome. Its true branch is a condition and then the closing brace,
    and it has no false branch. The inner condition yields the new line
    string, and nothing otherwise; both [Info]s of the body come before
    it, and with them resolved it is true exactly when they are resolved
    to different lines or to different columns. *)
Theorem if_close_brace_condition test consequent context :
  exists startStatementsInfo endStatementsInfo openBrace closeBrace
         closeBraceNewLine resolver header comments body,
    fst (parseIfStatement parseNode test consequent context)
    = header ++ [PCondition openBrace] ++ comments
      ++ [PString (newLineKind context); PInfo startStatementsInfo]
      ++ body
      ++ [PInfo endStatementsInfo; PCondition closeBrace]
    /\ cond_name openBrace = "openBrace"
    /\ cond_name closeBrace = "closeBrace"
    /\ cond_condition closeBrace = ResolveCondition openBrace
    /\ cond_true closeBrace = Some [PCondition closeBraceNewLine; PString "}"]
    /\ cond_false closeBrace = None
    /\ cond_condition closeBraceNewLine = ResolveFunction resolver
    /\ cond_true closeBraceNewLine = Some [PString (newLineKind context)]
    /\ cond_false closeBraceNewLine = None
    /\ info_id startStatementsInfo <> info_id endStatementsInfo
    /\ (forall conditionContext s e,
          getResolvedInfo conditionContext startStatementsInfo = Some s ->
          getResolvedInfo conditionContext endStatementsInfo = Some e ->
          (resolver conditionContext = Some true
           <-> lineNumber s <> lineNumber e \/ columnNumber s <> columnNumber e)
          /\ (resolver conditionContext = Some false
              <-> lineNumber s = lineNumber e /\ columnNumber s = columnNumber e)).
Proof.
  destruct (parseIfStatement_shape test consequent context)
    as (sH & eH & sS & eS & testGroup & separator & openId & newLineId & closeId
        & comments & body & after & Hshape & _ & Hids).
  simpl in Hshape.
  exists sS, eS. eexists. eexists. eexists. eexists.
  exists [PInfo sH; PString "if ("; PGroup testGroup; PString ")"; PInfo eH].
  exists comments, body.
  split; [rewrite Hshape; reflexivity |].
  repeat (split; [reflexivity |]).
  split; [lia |].
  intros conditionContext s e Hs He.
  unfold closeBraceNewLineResolver, areInfoEqual. rewrite Hs, He.
  destruct (Z.eqb_spec (lineNumber s) (lineNumber e));
    destruct (Z.eqb_spec (columnNumber s) (columnNumber e)); simpl;
    split; split; intros H; try discriminate; try reflexivity; lia.
Qed.

(** ** The layout of a generator *)

Lemma lays_ext (g : Gen) layout layout' :
  Lays g layout -> (forall newLine options, layout newLine options = layout' newLine options) ->
  Lays g layout'.
Proof.
  intros [Hkeeps Hlayout] Hsame. split; [exact Hkeeps |].
  intros c. rewrite Hlayout. apply Hsame.
Qed.

Lemma lays_ret printItems : Lays (ret printItems) (fun _ _ => eraseGroups printItems).
Proof. split; [apply keeps_ret | reflexivity]. Qed.

Lemma lays_yieldNewLine : Lays yieldNewLine (fun newLine _ => [PString newLine]).
Proof. split; [apply keeps_yieldNewLine | reflexivity]. Qed.

Lemma lays_andThen (g1 g2 : Gen) layout1 layout2 :
  Lays g1 layout1 -> Lays g2 layout2 ->
  Lays (g1 ;;; g2)
    (fun newLine options => layout1 newLine options ++ layout2 newLine options).
Proof.
  intros [Hkeeps1 Hlayout1] [Hkeeps2 Hlayout2].
  split; [apply keeps_andThen; assumption |].
  intros c. specialize (Hkeeps1 c). specialize (Hlayout1 c).
  unfold andThen, bind, ret. destruct (g1 c) as [a c1]. simpl in *.
  specialize (Hlayout2 c1). destruct (g2 c1) as [b c2]. simpl in *.
  rewrite eraseGroups_app, Hlayout1, Hlayout2.
  rewrite (same_newLineKind _ _ Hkeeps1), (same_options _ _ Hkeeps1). reflexivity.
Qed.

Lemma lays_yieldIf (flag : bool) (g : Gen) layout :
  Lays g layout ->
  Lays (yieldIf flag g)
    (fun newLine options => if flag then layout newLine options else []).
Proof. intros H. destruct flag; [exact H | apply (lays_ret [])]. Qed.

Lemma lays_if (flag : bool) (g1 g2 : Gen) layout1 layout2 :
  Lays g1 layout1 -> Lays g2 layout2 ->
  Lays (if flag then g1 else g2)
    (fun newLine options =>
       if flag then layout1 newLine options else layout2 newLine options).
Proof. intros H1 H2. destruct flag; assumption. Qed.

Lemma lays_option (flag : ResolvedConfiguration -> bool) s :
  Lays (fun c => yieldIf (flag (options c)) (yieldString s) c)
    (fun _ options => if flag options then [PString s] else []).
Proof.
  split; [apply keeps_yieldIf_option; apply keeps_ret |].
  intros c. destruct (flag (options c)); reflexivity.
Qed.

Lemma lays_yieldNode node : Lays (yieldNode parseNode node) (fun _ _ => [blank]).
Proof.
  split; [apply keeps_yieldNode, keeps_parseNode |].
  intros c. unfold yieldNode, bind, yield, ret.
  destruct (parseNode node c). reflexivity.
Qed.

(** The steps of a proof that a generator has a layout, for a layout
    still to be found. *)
Ltac lays_step :=
  match goal with
  | |- Lays (_ ;;; _) _ => eapply lays_andThen
  | |- Lays yieldNewLine _ => apply lays_yieldNewLine
  | |- Lays yieldNothing _ => apply (lays_ret [])
  | |- Lays (yieldString ?s) _ => apply (lays_ret [PString s])
  | |- Lays (yield ?item) _ => apply (lays_ret [item])
  | |- Lays (ret ?printItems) _ => apply (lays_ret printItems)
  | |- Lays (yieldNode _ _) _ => apply lays_yieldNode
  | |- Lays (fun c => yieldIf _ (yieldString _) c) _ => apply lays_option
  | |- Lays (yieldIf _ _) _ => eapply lays_yieldIf
  | |- Lays (if _ then _ else _) _ => eapply lays_if
  | H : Lays ?g _ |- Lays ?g _ => exact H
  end.

Ltac lays := repeat lays_step.

Lemma lays_withIndent (g : Gen) layout :
  Lays g layout ->
  Lays (withIndent g)
    (fun newLine options =>
       [PBehaviour StartIndent] ++ layout newLine options
       ++ [PBehaviour FinishIndent]).
Proof.
  intros H. unfold withIndent. eapply lays_ext; [lays | reflexivity].
Qed.

Lemma lays_withHangingIndent (g : Gen) layout :
  Lays g layout ->
  Lays (withHangingIndent g)
    (fun newLine options =>
       [PBehaviour StartHangingIndent] ++ layout newLine options
       ++ [PBehaviour FinishHangingIndent]).
Proof.
  intros H. unfold withHangingIndent. eapply lays_ext; [lays | reflexivity].
Qed.

Lemma lays_surroundWithNewLines (g : Gen) layout :
  Lays g layout ->
  Lays (surroundWithNewLines g)
    (fun newLine options =>
       [PString newLine] ++ layout newLine options ++ [PString newLine]).
Proof.
  intros H. unfold surroundWithNewLines. eapply lays_ext; [lays | reflexivity].
Qed.

Lemma lays_parameterList (separator : Gen) layout params :
  Lays separator layout ->
  Lays (parseParameterListItems parseNode separator params)
    (fun newLine options =>
       separated (PString "," :: layout newLine options) (List.length params)).
Proof.
  intros Hseparator. induction params as [| param rest IH].
  - apply (lays_ret []).
  - destruct rest as [| next rest'].
    + apply (lays_yieldNode (Some param)).
    + change (parseParameterListItems parseNode separator (param :: next :: rest'))
        with (yieldNode parseNode (Some param) ;;; yieldString "," ;;; separator
              ;;; parseParameterListItems parseNode separator (next :: rest')).
      eapply lays_ext; [lays |].
      intros newLine options. simpl. rewrite <- app_assoc. reflexivity.
Qed.

Lemma lays_separated select (separator : Gen) layout atFirst nodes :
  Lays separator layout ->
  Lays (parseSeparatedItems parseNode select separator atFirst nodes)
    (fun newLine options =>
       let n := List.length (List.filter select nodes) in
       if atFirst then separated (layout newLine options) n
       else List.concat (repeat (layout newLine options ++ [blank]) n)).
Proof.
  intros Hseparator. revert atFirst.
  induction nodes as [| node rest IH]; intros atFirst.
  - eapply lays_ext; [apply (lays_ret []) |].
    intros newLine options. destruct atFirst; reflexivity.
  - simpl. destruct (select node).
    + eapply lays_ext; [lays; apply (IH false) |].
      intros newLine options. destruct atFirst; simpl; [reflexivity |].
      rewrite <- app_assoc. reflexivity.
    + apply IH.
Qed.

Lemma lays_firstNode select nodes :
  Lays (yieldFirstNode parseNode select nodes)
    (fun _ _ => if present (List.find select nodes) then [blank] else []).
Proof.
  induction nodes as [| node rest IH]; simpl.
  - apply (lays_ret []).
  - destruct (select node); [apply (lays_yieldNode (Some node)) | exact IH].
Qed.

(** ** Delimited lists *)

Lemma getUseNewLines_by_source_lines declaration namedImports :
  getUseNewLines declaration namedImports
  = multiLineBySourceLines (startLine declaration) namedImports.
Proof.
  destruct namedImports as [| only [| second rest]];
    unfold getUseNewLines, getUseNewLinesForNodes; simpl;
    repeat match goal with
           | |- context [Z.eqb ?a ?b] => destruct (Z.eqb a b)
           end; reflexivity.
Qed.

Lemma getUseNewLinesForNodes_by_source_lines openingLine nodes :
  getUseNewLinesForNodes nodes
  = match nodes with
    | _ :: _ :: _ => multiLineBySourceLines openingLine nodes
    | _ => false
    end.
Proof.
  destruct nodes as [| only [| second rest]];
    unfold getUseNewLinesForNodes; simpl;
    repeat match goal with
           | |- context [Z.eqb ?a ?b] => destruct (Z.eqb a b)
           end; reflexivity.
Qed.

Lemma lays_namedImports b specifiers namedImports :
  namedImports = List.filter (isType "ImportSpecifier") specifiers ->
  Lays
    (yieldString "{"
     ;;; (if getUseNewLines b namedImports then yieldNewLine else yieldString " ")
     ;;; (if getUseNewLines b namedImports
          then withIndent
                 (parseSeparatedItems parseNode (isType "ImportSpecifier")
                    (yieldString ","
                     ;;; (if getUseNewLines b namedImports then yieldNewLine
                          else yield (PBehaviour SpaceOrNewLine)))
                    true specifiers)
          else withHangingIndent
                 (parseSeparatedItems parseNode (isType "ImportSpecifier")
                    (yieldString ","
                     ;;; (if getUseNewLines b namedImports then yieldNewLine
                          else yield (PBehaviour SpaceOrNewLine)))
                    true specifiers))
     ;;; (if getUseNewLines b namedImports then yieldNewLine else yieldString " ")
     ;;; yieldString "}")
    (fun newLine _ =>
       [PString "{"]
       ++ (if multiLineBySourceLines (startLine b) namedImports
           then multiLineLayout newLine [PString ","; PString newLine]
                  (List.length namedImports)
           else [PString " "]
                ++ hangingLayout [PString ","; PBehaviour SpaceOrNewLine]
                     (List.length namedImports)
                ++ [PString " "])
       ++ [PString "}"]).
Proof.
  intros ->. rewrite getUseNewLines_by_source_lines.
  destruct (multiLineBySourceLines (startLine b) _).
  - eapply lays_ext;
      [ lays; apply lays_withIndent, lays_separated; lays |].
    intros newLine options. unfold multiLineLayout. simpl.
    rewrite <- ?app_assoc. reflexivity.
  - eapply lays_ext;
      [ lays; apply lays_withHangingIndent, lays_separated; lays |].
    intros newLine options. unfold hangingLayout. simpl.
    rewrite <- ?app_assoc. reflexivity.
Qed.

(** C2, as the translator has it. Whether a list is laid out on several
    lines is decided from source line numbers alone, and the decision
    selects between two layouts of the list. The named imports of an
    import declaration follow the stated rule: one specifier is laid out
    on several lines exactly when its line differs from the line the
    declaration starts on, several specifiers exactly when the first
    two start on different lines; the specifiers then stand between
    new lines, with a fixed indentation and a new line behind every
    comma, and otherwise hang between two spaces. For parameters and
    arguments, type parameters and the members of a union type only the
    second half holds: a list of fewer than two elements is never laid
    out on several lines. On several lines, parameters and arguments
    stand like named imports; type parameters stand between new lines
    with a fixed indentation but keep the space or new line behind a
    comma; the members of a union type always hang, with a new line in
    front of every bar. *)
Theorem list_layout_decisions :
  (forall declaration namedImports,
     getUseNewLines declaration namedImports
     = multiLineBySourceLines (startLine declaration) namedImports)
  /\ (forall openingLine nodes,
        getUseNewLinesForNodes nodes
        = match nodes with
          | _ :: _ :: _ => multiLineBySourceLines openingLine nodes
          | _ => false
          end)
  /\ (forall params,
        useNewLinesForParametersOrArguments params = getUseNewLinesForNodes params)
  /\ (forall b specifiers source context,
        let namedImports := List.filter (isType "ImportSpecifier") specifiers in
        let hasDefault :=
          present (List.find (isType "ImportDefaultSpecifier") specifiers) in
        let hasNamespace :=
          present (List.find (isType "ImportNamespaceSpecifier") specifiers) in
        eraseGroups
          (fst (parseImportDeclaration parseNode b specifiers source context))
        = [PString "import "]
          ++ (if hasDefault
              then blank
                   :: (if hasNamespace || Nat.ltb 0 (List.length namedImports)
                       then [PString ", "] else [])
              else [])
          ++ (if hasNamespace then [blank] else [])
          ++ (if Nat.eqb (List.length namedImports) 0 then []
              else [PString "{"]
                   ++ (if multiLineBySourceLines (startLine b) namedImports
                       then multiLineLayout (newLineKind context)
                              [PString ","; PString (newLineKind context)]
                              (List.length namedImports)
                       else [PString " "]
                            ++ hangingLayout
                                 [PString ","; PBehaviour SpaceOrNewLine]
                                 (List.length namedImports)
                            ++ [PString " "])
                   ++ [PString "}"])
          ++ (if hasDefault || hasNamespace
                 || Nat.ltb 0 (List.length namedImports)
              then [PString " from "] else [])
          ++ [blank]
          ++ (if importDeclaration_semiColon (options context)
              then [PString ";"] else []))
  /\ (forall params context,
        eraseGroups (fst (parseParametersOrArguments parseNode params context))
        = [PString "("]
          ++ (if match params with
                 | first :: second :: _ =>
                     negb (Z.eqb (startLine (base first)) (startLine (base second)))
                 | _ => false
                 end
              then multiLineLayout (newLineKind context)
                     [PString ","; PString (newLineKind context)]
                     (List.length params)
              else hangingLayout [PString ","; PBehaviour SpaceOrNewLine]
                     (List.length params))
          ++ [PString ")"])
  /\ (forall params context,
        eraseGroups
          (items (fst (parseTypeParameterDeclaration parseNode params context)))
        = [PString "<"]
          ++ (if match params with
                 | first :: second :: _ =>
                     negb (Z.eqb (startLine (base first)) (startLine (base second)))
                 | _ => false
                 end
              then multiLineLayout (newLineKind context)
                     [PString ","; PBehaviour SpaceOrNewLine]
                     (List.length params)
              else hangingLayout [PString ","; PBehaviour SpaceOrNewLine]
                     (List.length params))
          ++ [PString ">"])
  /\ (forall types context,
        eraseGroups (fst (parseUnionType parseNode types context))
        = hangingLayout
            [if match types with
                | first :: second :: _ =>
                    negb (Z.eqb (startLine (base first)) (startLine (base second)))
                | _ => false
                end
             then PString (newLineKind context)
             else PBehaviour SpaceOrNewLine;
             PString "| "]
            (List.length types)).
Proof.
  assert (Hnodes : forall nodes,
    getUseNewLinesForNodes nodes
    = match nodes with
      | first :: second :: _ =>
          negb (Z.eqb (startLine (base first)) (startLine (base second)))
      | _ => false
      end).
  { intros [| only [| second rest]]; unfold getUseNewLinesForNodes; simpl;
      repeat match goal with
             | |- context [Z.eqb ?a ?b] => destruct (Z.eqb a b)
             end; reflexivity. }
  split; [apply getUseNewLines_by_source_lines |].
  split; [apply getUseNewLinesForNodes_by_source_lines |].
  split; [reflexivity |].
  split; [| split; [| split]].
  - intros b specifiers source context namedImports hasDefault hasNamespace.
    assert (Hlays :
      Lays (parseImportDeclaration parseNode b specifiers source)
        (fun newLine options =>
           [PString "import "]
           ++ (if hasDefault
               then blank
                    :: (if hasNamespace || Nat.ltb 0 (List.length namedImports)
                        then [PString ", "] else [])
               else [])
           ++ (if hasNamespace then [blank] else [])
           ++ (if Nat.eqb (List.length namedImports) 0 then []
               else [PString "{"]
                    ++ (if multiLineBySourceLines (startLine b) namedImports
                        then multiLineLayout newLine [PString ","; PString newLine]
                               (List.length namedImports)
                        else [PString " "]
                             ++ hangingLayout
                                  [PString ","; PBehaviour SpaceOrNewLine]
                                  (List.length namedImports)
                             ++ [PString " "])
                    ++ [PString "}"])
           ++ (if hasDefault || hasNamespace
                  || Nat.ltb 0 (List.length namedImports)
               then [PString " from "] else [])
           ++ [blank]
           ++ (if importDeclaration_semiColon options
               then [PString ";"] else []))).
    { unfold parseImportDeclaration. cbv zeta.
      eapply lays_ext.
      - repeat first
          [ eapply lays_namedImports; reflexivity
          | apply lays_firstNode
          | lays_step ].
      - intros newLine options. simpl.
        unfold hasDefault, hasNamespace, namedImports.
        destruct (present (List.find (isType "ImportDefaultSpecifier") specifiers));
          destruct (present (List.find (isType "ImportNamespaceSpecifier")
                               specifiers));
          destruct (Nat.eqb (List.length
                               (List.filter (isType "ImportSpecifier") specifiers)) 0);
          destruct (Nat.ltb 0 (List.length
                                 (List.filter (isType "ImportSpecifier") specifiers)));
          simpl; rewrite <- ?app_assoc; reflexivity. }
    apply (proj2 Hlays context).
  - intros params context.
    assert (Hlays :
      Lays (parseParametersOrArguments parseNode params)
        (fun newLine _ =>
           [PString "("]
           ++ (if getUseNewLinesForNodes params
               then multiLineLayout newLine [PString ","; PString newLine]
                      (List.length params)
               else hangingLayout [PString ","; PBehaviour SpaceOrNewLine]
                      (List.length params))
           ++ [PString ")"])).
    { unfold parseParametersOrArguments, useNewLinesForParametersOrArguments.
      destruct (getUseNewLinesForNodes params).
      - eapply lays_ext;
          [ lays; apply lays_surroundWithNewLines, lays_withIndent,
              lays_parameterList; lays |].
        intros newLine options. unfold multiLineLayout, hangingLayout. simpl.
        rewrite <- ?app_assoc. reflexivity.
      - eapply lays_ext;
          [ lays; apply lays_withHangingIndent, lays_parameterList; lays |].
        intros newLine options. unfold multiLineLayout, hangingLayout. simpl.
        rewrite <- ?app_assoc. reflexivity. }
    rewrite <- Hnodes. apply (proj2 Hlays context).
  - intros params context.
    assert (Hlays :
      Lays (yieldString "<"
            ;;; (if getUseNewLinesForNodes params
                 then surroundWithNewLines
                        (withIndent
                           (parseParameterListItems parseNode
                              (yield (PBehaviour SpaceOrNewLine)) params))
                 else withHangingIndent
                        (parseParameterListItems parseNode
                           (yield (PBehaviour SpaceOrNewLine)) params))
            ;;; yieldString ">")
        (fun newLine _ =>
           [PString "<"]
           ++ (if getUseNewLinesForNodes params
               then multiLineLayout newLine [PString ","; PBehaviour SpaceOrNewLine]
                      (List.length params)
               else hangingLayout [PString ","; PBehaviour SpaceOrNewLine]
                      (List.length params))
           ++ [PString ">"])).
    { destruct (getUseNewLinesForNodes params).
      - eapply lays_ext;
          [ lays; apply lays_surroundWithNewLines, lays_withIndent,
              lays_parameterList; lays |].
        intros newLine options. unfold multiLineLayout, hangingLayout. simpl.
        rewrite <- ?app_assoc. reflexivity.
      - eapply lays_ext;
          [ lays; apply lays_withHangingIndent, lays_parameterList; lays |].
        intros newLine options. unfold multiLineLayout, hangingLayout. simpl.
        rewrite <- ?app_assoc. reflexivity. }
    rewrite <- Hnodes. unfold parseTypeParameterDeclaration, bind, ret.
    pose proof (proj2 Hlays context) as Hlayout.
    match type of Hlayout with
    | eraseGroups (fst (?g context)) = _ => destruct (g context)
    end.
    exact Hlayout.
  - intros types context.
    assert (Hlays :
      Lays (parseUnionType parseNode types)
        (fun newLine _ =>
           hangingLayout
             [if getUseNewLinesForNodes types then PString newLine
              else PBehaviour SpaceOrNewLine;
              PString "| "]
             (List.length types))).
    { unfold parseUnionType.
      assert (Hall : List.filter (fun _ : Node => true) types = types).
      { induction types as [| type rest IH]; simpl; congruence. }
      eapply lays_ext;
        [ apply lays_withHangingIndent, lays_separated; lays |].
      intros newLine options. cbv zeta. rewrite Hall.
      unfold hangingLayout.
      destruct (getUseNewLinesForNodes types); simpl; rewrite <- ?app_assoc;
        reflexivity. }
    rewrite <- Hnodes. apply (proj2 Hlays context).
Qed.

(** ** Comments *)


Lemma isHandled_true comment context :
  isHandled comment context = true
  <-> comment_id comment ∈ handledComments context.
Proof. unfold isHandled. apply bool_decide_eq_true. Qed.

(** Comments and the handled set. A comment is emitted at most once per
    file. The content of a comment is yielded by [parseComment] alone,
    which yields nothing for a comment in the set of handled comments
    and otherwise puts the comment into the set as it yields its
    content; a comment collection passes over the handled comments; and
    no translation step takes a comment out of the set, so that a
    comment once emitted is emitted by no later step, whichever nodes
    list it. *)
Theorem comment_emitted_at_most_once comment context :
  (isHandled comment context = true ->
   parseComment comment context = ([], context))
  /\ (isHandled comment context = false ->
      fst (parseComment comment context)
      = match comment_type comment with
        | CommentBlock =>
            [PString "/*"; PString (comment_value comment); PString "*/"]
        | CommentLine =>
            [PString ("// " +:+ Js.trim (comment_value comment));
             PBehaviour ExpectNewLine]
        end
      /\ handledComments (snd (parseComment comment context))
         = {[comment_id comment]} ∪ handledComments context)
  /\ (forall node,
        handledComments context ⊆ handledComments (snd (parseNode node context)))
  /\ (forall node,
        fst (parseComment comment
               (snd (parseNode node (snd (parseComment comment context)))))
        = [])
  /\ (forall comments lastNode,
        isHandled comment context = true ->
        parseCommentCollection (comment :: comments) lastNode context
        = parseCommentCollection comments lastNode context)
  /\ (forall comments lastNode,
        Forall (fun c => isHandled c context = true) comments ->
        parseCommentCollection comments lastNode context = ([], context)).
Proof.
  split; [| split; [| split; [| split; [| split]]]].
  - intros Hhandled. unfold parseComment. rewrite Hhandled. reflexivity.
  - intros Hunhandled. unfold parseComment. rewrite Hunhandled.
    destruct (comment_type comment); split; reflexivity.
  - intros node. apply keeps_parseNode.
  - intros node.
    assert (Hin : comment_id comment
                  ∈ handledComments (snd (parseComment comment context))).
    { unfold parseComment. destruct (isHandled comment context) eqn:Hhandled.
      - apply isHandled_true, Hhandled.
      - destruct (comment_type comment); simpl; set_solver. }
    pose proof (handled_grows _ _
      (keeps_parseNode node (snd (parseComment comment context)))) as Hgrows.
    unfold parseComment at 1.
    replace (isHandled comment
               (snd (parseNode node (snd (parseComment comment context)))))
      with true; [reflexivity |].
    symmetry. apply isHandled_true. set_solver.
  - intros comments lastNode Hhandled. simpl. rewrite Hhandled. reflexivity.
  - intros comments lastNode Hall. induction Hall as [| c rest Hc Hrest IH].
    + reflexivity.
    + simpl. rewrite Hc. exact IH.
Qed.

(** ** The root group of a file *)

Variable resolveNewLineKindFromText : string -> string.

Abbreviation parseFile :=
  (Parser.parseFile removeStringIndentation resolveNewLineKindFromText).

Lemma empty_program_group b context :
  attachedComments b = [] ->
  parseNode (Some (Program b [])) context = (mkGroup [], context).
Proof.
  unfold attachedComments. intros Hnone.
  apply app_eq_nil in Hnone as [Hleading Hrest].
  apply app_eq_nil in Hrest as [Hinner Htrailing].
  simpl. unfold getWithComments, parseLeadingComments, parseTrailingComments,
    parseProgram, parseStatements. simpl.
  destruct (leadingComments b) as [l |]; simpl in Hleading; subst;
    destruct (innerComments b) as [i |]; simpl in Hinner; subst;
    destruct (trailingComments b) as [t |]; simpl in Htrailing; subst;
    reflexivity.
Qed.

Lemma print_empty_file config id newLine :
  Engine.print config
    (mkGroup [PGroup (mkGroup []);
              PCondition (mkCondition id "endOfFileNewLine"
                            (ResolveFunction endOfFileNewLineResolver)
                            (Some [PString newLine]) None)])
  = EmptyString.
Proof.
  unfold Engine.print. simpl. unfold Engine.fits. simpl.
  destruct (Z.leb 0 (Engine.lineWidth config)); reflexivity.
Qed.

(** C8. [parseFile] returns one group: the group of the program, then a
    condition, the last item, that yields the resolved new line string
    when the writer's column number or line number is greater than 0 and
    nothing otherwise. For a file without statements and comments, the
    empty input, the engine starts at line 0 and column 0, so that the
    text it produces is empty. *)
Theorem parseFile_root_group file fileText options :
  let context := newParseContext resolveNewLineKindFromText fileText options in
  exists programGroup id after,
    parseFile file fileText options
    = (mkGroup [PGroup programGroup;
                PCondition (mkCondition id "endOfFileNewLine"
                              (ResolveFunction endOfFileNewLineResolver)
                              (Some [PString (newLineKind context)]) None)],
       after)
    /\ programGroup = fst (parseNode (Some (program file)) context)
    /\ newLineKind context
       = match newLineKindOption options with
         | NewLineAuto => resolveNewLineKindFromText fileText
         | NewLineCRLF => CRLF
         | NewLineLF => LF
         end
    /\ (forall conditionContext,
          endOfFileNewLineResolver conditionContext
          = Some (bool_decide
                    (columnNumber (writerInfo conditionContext) > 0
                     \/ lineNumber (writerInfo conditionContext) > 0)))
    /\ (forall b config,
          program file = Program b [] -> attachedComments b = [] ->
          Engine.print config (fst (parseFile file fileText options)) = EmptyString).
Proof.
  intros context.
  assert (Hshape : exists programGroup id after,
    parseFile file fileText options
    = (mkGroup [PGroup programGroup;
                PCondition (mkCondition id "endOfFileNewLine"
                              (ResolveFunction endOfFileNewLineResolver)
                              (Some [PString (newLineKind context)]) None)],
       after)
    /\ programGroup = fst (parseNode (Some (program file)) context)).
  { unfold Parser.parseFile, createCondition, freshId, getContext, bind, ret.
    fold context.
    pose proof (keeps_parseNodePresent (program file) context) as Hkeeps.
    simpl. destruct (parseNodePresent (program file) context) as [group context1].
    simpl in *. rewrite (same_newLineKind _ _ Hkeeps).
    do 3 eexists. split; reflexivity. }
  destruct Hshape as (programGroup & id & after & Hfile & Hgroup).
  exists programGroup, id, after.
  split; [exact Hfile |]. split; [exact Hgroup |]. split; [reflexivity |]. split.
  - intros conditionContext. unfold endOfFileNewLineResolver. f_equal.
    destruct (Z.gtb_spec (columnNumber (writerInfo conditionContext)) 0);
      destruct (Z.gtb_spec (lineNumber (writerInfo conditionContext)) 0);
      simpl; symmetry;
      first [apply bool_decide_eq_true | apply bool_decide_eq_false]; lia.
  - intros b config Hprogram Hnone.
    rewrite Hfile. simpl. rewrite Hgroup, Hprogram.
    rewrite (empty_program_group b context Hnone). simpl.
    apply print_empty_file.
Qed.

End TranslatorProperties.

(** ** The translator on the sample inputs *)

Import Examples.

(** C2 fails for an argument list: the only argument of the call starts
    on the line below the line the call starts on, the stated rule makes
    the list multi-line, and the translator lays it out with hanging
    indentation and without a new line. *)
Lemma single_argument_below_is_not_multi_line :
  multiLineBySourceLines (startLine (base callOverTwoLines)) [argumentBelow] = true
  /\ useNewLinesForParametersOrArguments [argumentBelow] = false
  /\ fst (parseFunc keepText translate callOverTwoLines
            (sampleContext callOverTwoLinesText))
     = [PGroup (mkGroup [PString "foo"]); PString "(";
        PBehaviour StartHangingIndent; PGroup (mkGroup [PString "a"]);
        PBehaviour FinishHangingIndent; PString ")"].
Proof. repeat split. Qed.


(** C1 fails for a branch that is a block around one statement that is
    not a simple one, as an if statement: the static flag is false. It
    fails, too, where the end of the header is resolved to a line above
    its start: the two resolve to different lines, and the condition is
    false. *)
Lemma block_around_if_needs_no_braces :
  consequentRequiresBraces (getHeaderTrailingComments blockAroundIf) blockAroundIf
  = false
  /\ bracesRequiredAsStated blockAroundIf
  /\ match fst (parseIfStatement translate ifTest ifConsequent
                  (sampleContext "if (x) y;")) with
     | PInfo startHeaderInfo :: _ :: _ :: _ :: PInfo endHeaderInfo
       :: PCondition openBrace :: _ =>
         resolveToDifferentLines laterInfoFurtherUp startHeaderInfo endHeaderInfo
         /\ match cond_condition openBrace with
            | ResolveFunction resolver => resolver laterInfoFurtherUp = Some false
            | ResolveCondition _ => False
            end
     | _ => False
     end.
Proof.
  split; [reflexivity |]. split.
  - left. intros (statement & [= <-] & Hsimple). discriminate Hsimple.
  - vm_compute. split; [| reflexivity].
    eexists _, _. repeat split. discriminate.
Qed.

(** The comment of [if (x) { // c] is written behind the header and
    asks for no braces; the same comment one line further down does. *)
Lemma comment_behind_the_brace_needs_no_braces :
  getHeaderTrailingComments blockWithCommentBehindBrace = [commentBehindBrace]
  /\ consequentRequiresBraces (getHeaderTrailingComments blockWithCommentBehindBrace)
       blockWithCommentBehindBrace
     = false
  /\ consequentRequiresBraces [] blockWithCommentBehindBrace = true.
Proof. repeat split. Qed.

(** C7 fails for an if statement whose branch is a block and for an
    exported function: each carries a body block, and one new line
    string, not two, comes between it and the statement that follows. *)
Lemma if_with_block_gets_one_new_line :
  carriesBodyBlock ifWithBlock = true
  /\ carriesBodyBlock exportedFunction = true
  /\ eraseGroups
       (fst (parseStatements translate [ifWithBlock; statementBelow] (plain 0 16 1)
               (sampleContext ("if (x) { b; }" +:+ LF +:+ "y;"))))
     = [blank; PString LF; blank]
  /\ eraseGroups
       (fst (parseStatements translate [exportedFunction; statementBelow]
               (plain 0 25 1)
               (sampleContext ("export function f() {}" +:+ LF +:+ "y;"))))
     = [blank; PString LF; blank]
  /\ statementsLayout LF (map carriesBodyBlock [ifWithBlock; statementBelow])
     = [blank; PString LF; PString LF; blank].
Proof. repeat split; vm_compute; reflexivity. Qed.

(** C6 fails for a comment the translator never reaches: the inner
    comment of a call is a comment of the input, and translation of the
    file ends with the comment not handled and with no item for it. *)
Lemma inner_comment_of_call_is_never_emitted :
  In innerBlock (allComments (program fileWithInnerComment))
  /\ (comment_id innerBlock
      ∉ handledComments (snd (translateFile fileWithInnerComment "foo(/* c */);"
                                defaultOptions)))
  /\ items (fst (translateFile fileWithInnerComment "foo(/* c */);" defaultOptions))
     = [PGroup
          (mkGroup
             [PGroup
                (mkGroup
                   [PGroup
                      (mkGroup
                         [PGroup (mkGroup [PString "foo"]); PString "(";
                          PBehaviour StartHangingIndent;
                          PBehaviour FinishHangingIndent; PString ")"]);
                    PString ";"])]);
        PCondition
          (mkCondition 0 "endOfFileNewLine"
             (ResolveFunction endOfFileNewLineResolver)
             (Some [PString LF]) None)].
Proof.
  split; [left; reflexivity |]. split; [| reflexivity].
  replace (handledComments
             (snd (translateFile fileWithInnerComment "foo(/* c */);" defaultOptions)))
    with (∅ : gset nat) by reflexivity.
  set_solver.
Qed.

(** A statement of a kind without handler. *)
Lemma unknown_node_passes_through_witness :
  hasHandler (nodeType whileStatement) = false
  /\ exists leading trailing between after,
       translate (Some whileStatement) (sampleContext "while (x) {}")
       = (mkGroup (leading ++ [PUnknown "while (x) {}"] ++ trailing), after)
       /\ leading
          = fst (parseLeadingComments whileStatement (sampleContext "while (x) {}"))
       /\ trailing = fst (parseTrailingComments whileStatement between)
       /\ console after
          = ["[dprint]: Not implemented node type: WhileStatement (while (x) {})"].
Proof.
  split; [reflexivity |].
  apply (unknown_node_passes_through keepText whileStatement
           (sampleContext "while (x) {}")).
  reflexivity.
Defined.

(** [if (x) y;] with every [Info] resolved to a line of its own: the
    open brace is written. *)
Lemma if_open_brace_condition_witness :
  exists startHeaderInfo endHeaderInfo resolver,
    endsOnLaterLine everyInfoOnItsLine startHeaderInfo endHeaderInfo
    /\ resolver everyInfoOnItsLine = Some true.
Proof.
  destruct (if_open_brace_condition keepText ifTest ifConsequent
              (sampleContext "if (x) y;"))
    as (sH & eH & sS & eS & testGroup & openBrace & separator & resolver
        & comments & body & closeBrace & _ & Hheader & Hbody & _ & _ & _ & _
        & _ & Hiff & _).
  assert (Hlater : endsOnLaterLine everyInfoOnItsLine sH eH).
  { eexists _, _. repeat split. simpl. lia. }
  exists sH, eH, resolver. split; [exact Hlater |].
  apply (Hiff everyInfoOnItsLine). auto.
Defined.

(** [if (x) y;] with the two [Info]s of the body resolved to different
    lines: the new line in front of the closing brace is written. *)
Lemma if_close_brace_condition_witness :
  exists startStatementsInfo endStatementsInfo resolver s e,
    getResolvedInfo everyInfoOnItsLine startStatementsInfo = Some s
    /\ getResolvedInfo everyInfoOnItsLine endStatementsInfo = Some e
    /\ lineNumber s <> lineNumber e
    /\ resolver everyInfoOnItsLine = Some true.
Proof.
  destruct (if_close_brace_condition keepText ifTest ifConsequent
              (sampleContext "if (x) y;"))
    as (sS & eS & openBrace & closeBrace & closeBraceNewLine & resolver & header
        & comments & body & _ & _ & _ & _ & _ & _ & _ & _ & _ & Hids & Hiff).
  eexists sS, eS, resolver, _, _.
  split; [reflexivity |]. split; [reflexivity |].
  assert (Hlines : Z.of_nat (info_id sS) <> Z.of_nat (info_id eS)) by lia.
  split; [exact Hlines |].
  apply (Hiff everyInfoOnItsLine _ _ eq_refl eq_refl). left. exact Hlines.
Defined.

(** The file of the empty text. *)
Lemma parseFile_root_group_witness :
  program emptyFile = Program (plain 0 0 1) []
  /\ attachedComments (plain 0 0 1) = []
  /\ Engine.print {| Engine.lineWidth := 80; Engine.indentWidth := 4;
                     Engine.useTabs := false |}
       (fst (translateFile emptyFile EmptyString defaultOptions))
     = EmptyString.
Proof.
  split; [reflexivity |]. split; [reflexivity |].
  destruct (parseFile_root_group keepText detectLF emptyFile EmptyString defaultOptions)
    as (programGroup & id & after & _ & _ & _ & _ & Hempty).
  apply (Hempty (plain 0 0 1)); reflexivity.
Defined.


(** A block comment met for the first time, and then again. *)
Lemma comment_emitted_at_most_once_witness :
  isHandled trailingBlock (sampleContext "a /* c */") = false
  /\ fst (parseComment trailingBlock (sampleContext "a /* c */"))
     = [PString "/*"; PString " c "; PString "*/"]
  /\ fst (parseComment trailingBlock
            (snd (translate (Some identifierWithTrailingBlock)
                    (snd (parseComment trailingBlock
                            (sampleContext "a /* c */"))))))
     = [].
Proof.
  assert (Hnew : isHandled trailingBlock (sampleContext "a /* c */") = false)
    by (vm_compute; reflexivity).
  destruct (comment_emitted_at_most_once keepText trailingBlock
              (sampleContext "a /* c */"))
    as (_ & Hfirst & _ & Hagain & _).
  split; [exact Hnew |]. split.
  - apply (Hfirst Hnew).
  - apply (Hagain (Some identifierWithTrailingBlock)).
Defined.

(** * Properties of the formatter around a wasm plugin *)

Section FormatterProperties.

Import WasmFormatter.

Context {plugin : Plugin}.

(** ** The flag [configSet] *)

Lemma keepsFlag_pure {A} (a : A) : KeepsFlag (pure a).
Proof. intros st. split; reflexivity. Qed.

Lemma keepsFlag_throw {A} (e : JsError) : KeepsFlag (@throw _ A e).
Proof. intros st. split; reflexivity. Qed.

Lemma keepsFlag_andThen {A B} (m : Run A) (k : A -> Run B) :
  KeepsFlag m -> (forall a, KeepsFlag (k a)) -> KeepsFlag (andThen m k).
Proof.
  intros Hm Hk st. unfold andThen. specialize (Hm st).
  destruct (m st) as [a st1 | e st1 |]; [| exact Hm | exact I].
  specialize (Hk a st1). destruct Hm as [Hflag Hsize].
  destruct (k a st1); [rewrite <- Hflag, <- Hsize | rewrite <- Hflag, <- Hsize |];
    exact Hk.
Qed.

Lemma keepsFlag_call f : KeepsFlag (call f).
Proof.
  intros st. unfold call. destruct (f (instance st)) as [[e | z] i];
    split; reflexivity.
Qed.

Lemma keepsFlag_viewMemory pointer count : KeepsFlag (viewMemory pointer count).
Proof.
  intros st. unfold viewMemory.
  destruct (_ || _ || _); split; reflexivity.
Qed.

Lemma keepsFlag_throwIfConfigNotSet : KeepsFlag throwIfConfigNotSet.
Proof.
  intros st. unfold throwIfConfigNotSet.
  destruct (negb (configSet st)); split; reflexivity.
Qed.

Lemma keepsFlag_readMemoryBuffer pointer count :
  KeepsFlag (readMemoryBuffer pointer count).
Proof. intros st. split; reflexivity. Qed.

Lemma keepsFlag_writeMemoryBuffer pointer bytes :
  KeepsFlag (writeMemoryBuffer pointer bytes).
Proof. intros st. split; reflexivity. Qed.

Ltac keepsFlag :=
  repeat first
    [ apply keepsFlag_pure
    | apply keepsFlag_throw
    | apply keepsFlag_call
    | apply keepsFlag_readMemoryBuffer
    | apply keepsFlag_writeMemoryBuffer
    | apply keepsFlag_viewMemory
    | apply keepsFlag_throwIfConfigNotSet
    | apply keepsFlag_andThen; [| intros ?]
    | match goal with
      | H : forall x, KeepsFlag _ |- KeepsFlag _ => apply H
      | |- KeepsFlag (if ?b then _ else _) => destruct b
      | |- KeepsFlag (match ?x with _ => _ end) => destruct x
      end ].

Lemma keepsFlag_reader {A} (f : Formatter -> Run A) :
  (forall st0, KeepsFlag (f st0)) -> KeepsFlag (fun st => f st st).
Proof. intros H st. apply H. Qed.

Lemma keepsFlag_sendLoop fuel encodedText index :
  KeepsFlag (sendLoop fuel encodedText index).
Proof.
  revert index. induction fuel as [| fuel IH]; intros index; simpl.
  - destruct (Z.ltb index _); [intros st; exact I | apply keepsFlag_pure].
  - destruct (Z.ltb index _); [| apply keepsFlag_pure].
    refine (keepsFlag_reader (fun st0 => andThen _ _) _). intros st0.
    keepsFlag.
Qed.

Lemma keepsFlag_sendString fuel text : KeepsFlag (sendString fuel text).
Proof. unfold sendString. keepsFlag. apply keepsFlag_sendLoop. Qed.

Lemma keepsFlag_receiveLoop fuel length index buffer :
  KeepsFlag (receiveLoop fuel length index buffer).
Proof.
  revert index buffer. induction fuel as [| fuel IH]; intros index buffer; simpl.
  - destruct (Z.ltb index length); [intros st; exact I | apply keepsFlag_pure].
  - destruct (Z.ltb index length); [| apply keepsFlag_pure].
    refine (keepsFlag_reader (fun st0 => andThen _ _) _). intros st0.
    keepsFlag. apply IH.
Qed.

Lemma keepsFlag_receiveString fuel length : KeepsFlag (receiveString fuel length).
Proof. unfold receiveString. keepsFlag. apply keepsFlag_receiveLoop. Qed.

Lemma keepsFlag_parseJson text : KeepsFlag (parseJson text).
Proof.
  intros st. unfold parseJson. destruct (jsonParse text); split; reflexivity.
Qed.

Lemma keepsFlag_getConfigDiagnostics fuel : KeepsFlag (getConfigDiagnostics fuel).
Proof.
  unfold getConfigDiagnostics. keepsFlag;
    [apply keepsFlag_receiveString | apply keepsFlag_parseJson].
Qed.

Lemma keepsFlag_getResolvedConfig fuel : KeepsFlag (getResolvedConfig fuel).
Proof. unfold getResolvedConfig. keepsFlag. apply keepsFlag_receiveString. Qed.

Lemma keepsFlag_getPluginInfo fuel : KeepsFlag (getPluginInfo fuel).
Proof.
  unfold getPluginInfo. keepsFlag;
    [apply keepsFlag_receiveString | apply keepsFlag_parseJson].
Qed.

Lemma keepsFlag_formatText fuel filePath fileText :
  KeepsFlag (formatText fuel filePath fileText).
Proof.
  unfold formatText. keepsFlag;
    try apply keepsFlag_sendLoop; try apply keepsFlag_receiveString.
Qed.

(** [setConfig] sets the flag when it returns and leaves it when it
    throws. *)
Lemma setConfig_flag fuel globalConfig pluginConfig st :
  match setConfig fuel globalConfig pluginConfig st with
  | Returned _ st' => configSet st' = true /\ bufferSize st' = bufferSize st
  | Threw _ st' => configSet st' = configSet st /\ bufferSize st' = bufferSize st
  | OutOfFuel => True
  end.
Proof.
  unfold setConfig.
  assert (Hprefix : KeepsFlag
    (andThen (sendString fuel (stringifyGlobalConfig globalConfig)) (fun _ =>
     andThen (call set_global_config) (fun _ =>
     andThen (fun st =>
                match getPluginConfigWithStringProps pluginConfig with
                | inr props => Returned props st
                | inl e => Threw e st
                end) (fun props =>
     andThen (sendString fuel (stringifyProperties props)) (fun _ =>
     call set_plugin_config)))))).
  { apply keepsFlag_andThen; [apply keepsFlag_sendString | intros _].
    apply keepsFlag_andThen; [apply keepsFlag_call | intros _].
    apply keepsFlag_andThen; [| intros props].
    - intros st0. destruct (getPluginConfigWithStringProps pluginConfig);
        split; reflexivity.
    - apply keepsFlag_andThen; [apply keepsFlag_sendString | intros _].
      apply keepsFlag_call. }
  specialize (Hprefix st). unfold andThen in *.
  destruct (sendString fuel (stringifyGlobalConfig globalConfig) st)
    as [? st1 | |]; try exact Hprefix.
  destruct (call set_global_config st1) as [? st2 | |]; try exact Hprefix.
  destruct (getPluginConfigWithStringProps pluginConfig) as [e | props];
    try exact Hprefix.
  destruct (sendString fuel (stringifyProperties props) st2) as [? st3 | |];
    try exact Hprefix.
  destruct (call set_plugin_config st3) as [? st4 | |]; try exact Hprefix.
  simpl. tauto.
Qed.

Lemma perform_keeps_unset fuel c st st' :
  isSetConfig c = false -> perform fuel c st = Some st' ->
  configSet st' = configSet st.
Proof.
  intros Hnot Hperform.
  destruct c as [g p | | | | filePath fileText]; try discriminate; simpl in Hperform.
  - pose proof (keepsFlag_getConfigDiagnostics fuel st) as H.
    destruct (getConfigDiagnostics fuel st); inversion Hperform; subst; tauto.
  - pose proof (keepsFlag_getResolvedConfig fuel st) as H.
    destruct (getResolvedConfig fuel st); inversion Hperform; subst; tauto.
  - pose proof (keepsFlag_getPluginInfo fuel st) as H.
    destruct (getPluginInfo fuel st); inversion Hperform; subst; tauto.
  - pose proof (keepsFlag_formatText fuel filePath fileText st) as H.
    destruct (formatText fuel filePath fileText st); inversion Hperform; subst; tauto.
Qed.

Lemma perform_keeps_set fuel c st st' :
  configSet st = true -> perform fuel c st = Some st' -> configSet st' = true.
Proof.
  intros Hset Hperform.
  destruct (isSetConfig c) eqn:Hc.
  - destruct c as [g p | | | |]; try discriminate. simpl in Hperform.
    pose proof (setConfig_flag fuel g p st) as H.
    destruct (setConfig fuel g p st); inversion Hperform; subst; [tauto |].
    destruct H as [H _]. congruence.
  - rewrite (perform_keeps_unset fuel c st st' Hc Hperform). exact Hset.
Qed.

Lemma performAll_keeps_unset fuel calls st st' :
  forallb (fun c => negb (isSetConfig c)) calls = true ->
  performAll fuel calls st = Some st' ->
  configSet st' = configSet st.
Proof.
  revert st. induction calls as [| c rest IH]; intros st Hnone Hperform.
  - injection Hperform as <-. reflexivity.
  - simpl in *. apply andb_true_iff in Hnone as [Hc Hrest].
    destruct (perform fuel c st) as [st1 |] eqn:Hstep; [| discriminate].
    rewrite (IH st1 Hrest Hperform).
    apply (perform_keeps_unset fuel c st st1); [| exact Hstep].
    destruct (isSetConfig c); [discriminate | reflexivity].
Qed.

Lemma performAll_keeps_set fuel calls st st' :
  configSet st = true -> performAll fuel calls st = Some st' ->
  configSet st' = true.
Proof.
  revert st. induction calls as [| c rest IH]; intros st Hset Hperform.
  - injection Hperform as <-. exact Hset.
  - simpl in *. destruct (perform fuel c st) as [st1 |] eqn:Hstep; [| discriminate].
    apply (IH st1); [| exact Hperform].
    apply (perform_keeps_set fuel c st st1 Hset Hstep).
Qed.

Lemma createFromInstance_unset i formatter :
  createFromInstance i = inr formatter -> configSet formatter = false.
Proof.
  unfold createFromInstance.
  destruct (get_plugin_schema_version i) as [[e | version] i1]; [discriminate |].
  destruct (negb (Z.eqb version expectedPluginSchemaVersion)); [discriminate |].
  destruct (get_wasm_memory_buffer_size i1) as [[e | size] i2]; [discriminate |].
  intros [= <-]. reflexivity.
Qed.

(** ** The two copy loops come back *)

Lemma call_comes_back f st : call f st <> OutOfFuel.
Proof. unfold call. destruct (f (instance st)) as [[] ?]; discriminate. Qed.

Lemma viewMemory_comes_back pointer count st :
  viewMemory pointer count st <> OutOfFuel.
Proof. unfold viewMemory. destruct (_ || _ || _); discriminate. Qed.

Lemma settles_without_fuel {A} (m : Run A) :
  (forall st, m st <> OutOfFuel) -> Settles (fun _ => m).
Proof.
  intros Hback st _. exists 0%nat, (m st). split; [apply Hback | reflexivity].
Qed.

Lemma settles_andThen {A B} (m : nat -> Run A) (k : A -> nat -> Run B) :
  Settles m -> (forall fuel, KeepsFlag (m fuel)) -> (forall a, Settles (k a)) ->
  Settles (fun fuel => andThen (m fuel) (fun a => k a fuel)).
Proof.
  intros Hm Hkeeps Hk st Hsize.
  destruct (Hm st Hsize) as (fuel1 & outcome1 & Hback1 & Hsame1).
  destruct outcome1 as [a st1 | e st1 |]; [| | contradiction].
  - assert (Hsize1 : 0 < bufferSize st1).
    { pose proof (Hkeeps fuel1 st) as H. rewrite (Hsame1 fuel1) in H by lia.
      destruct H as [_ ->]. exact Hsize. }
    destruct (Hk a st1 Hsize1) as (fuel2 & outcome2 & Hback2 & Hsame2).
    exists (Nat.max fuel1 fuel2), outcome2. split; [exact Hback2 |].
    intros fuel' Hfuel'. unfold andThen. rewrite Hsame1 by lia.
    apply Hsame2. lia.
  - exists fuel1, (Threw e st1). split; [discriminate |].
    intros fuel' Hfuel'. unfold andThen. rewrite Hsame1 by lia. reflexivity.
Qed.

Lemma sendLoop_done fuel encodedText index :
  Z.of_nat (List.length encodedText) <= index ->
  sendLoop fuel encodedText index = pure tt.
Proof.
  intros Hdone.
  destruct fuel; simpl;
    destruct (Z.ltb_spec index (Z.of_nat (List.length encodedText)));
    reflexivity || lia.
Qed.

(** [sendString] goes through its loop at most once: a text that does
    not fit in one view makes [set] throw. *)
Lemma sendLoop_one_round fuel encodedText st :
  sendLoop (S fuel) encodedText 0 st = sendLoop 1 encodedText 0 st.
Proof.
  simpl. destruct (Z.ltb 0 (Z.of_nat (List.length encodedText))); [| reflexivity].
  unfold andThen.
  destruct (call get_wasm_memory_buffer st) as [pointer st1 | |]; try reflexivity.
  destruct (viewMemory pointer _ st1) as [? st2 | |]; try reflexivity.
  destruct (Z.ltb_spec
              (Z.min (Z.of_nat (List.length encodedText) - 0) (bufferSize st))
              (0 + Z.of_nat (List.length encodedText))) as [Hsmall | Hfits];
    [reflexivity |].
  destruct (writeMemoryBuffer (pointer + 0) encodedText st2) as [? st3 | |];
    try reflexivity.
  destruct (call (add_to_shared_bytes_from_buffer _) st3) as [? st4 | |];
    try reflexivity.
  rewrite sendLoop_done by lia.
  match goal with
  | |- context [Z.ltb ?a ?b] => destruct (Z.ltb_spec a b); [lia | reflexivity]
  end.
Qed.

Lemma sendString_one_round fuel text st :
  sendString (S fuel) text st = sendString 1 text st.
Proof.
  unfold sendString, andThen.
  destruct (call (clear_shared_bytes _) st) as [? st1 | |]; try reflexivity.
  apply sendLoop_one_round.
Qed.

Lemma andThen_comes_back {A B} (m : Run A) (k : A -> Run B) st :
  m st <> OutOfFuel ->
  (forall a st', m st = Returned a st' -> k a st' <> OutOfFuel) ->
  andThen m k st <> OutOfFuel.
Proof.
  intros Hm Hk. unfold andThen.
  destruct (m st) as [a st' | |];
    [apply Hk; reflexivity | discriminate | exfalso; apply Hm; reflexivity].
Qed.

Lemma sendString_comes_back fuel text st : sendString (S fuel) text st <> OutOfFuel.
Proof.
  rewrite sendString_one_round. unfold sendString.
  apply andThen_comes_back; [apply call_comes_back | intros ? st1 _].
  simpl.
  destruct (Z.ltb 0 (Z.of_nat (List.length (encode text)))); [| discriminate].
  apply andThen_comes_back; [apply call_comes_back | intros pointer st2 _].
  apply andThen_comes_back; [apply viewMemory_comes_back | intros ? st3 _].
  match goal with
  | |- context [Z.ltb ?a ?b] => destruct (Z.ltb_spec a b) as [Hsmall | Hfits]
  end; [discriminate |].
  apply andThen_comes_back; [discriminate | intros ? st4 _].
  apply andThen_comes_back; [apply call_comes_back | intros ? st5 _].
  match goal with
  | |- context [Z.ltb ?a ?b] => destruct (Z.ltb_spec a b); [lia | discriminate]
  end.
Qed.

Lemma settles_sendString text : Settles (fun fuel => sendString fuel text).
Proof.
  intros st _. exists 1%nat, (sendString 1 text st).
  split; [apply sendString_comes_back |].
  intros [| fuel'] Hfuel'; [lia | apply sendString_one_round].
Qed.

Lemma call_bufferSize f st z st' :
  call f st = Returned z st' -> bufferSize st' = bufferSize st.
Proof.
  intros H. pose proof (keepsFlag_call f st) as Hkeeps. rewrite H in Hkeeps. tauto.
Qed.

(** [receiveString] comes back when the buffer of the instance is not
    empty, with fuel for every byte that is left. *)
Lemma receiveLoop_settles n length index buffer st :
  0 < bufferSize st ->
  (Z.to_nat (length - index) <= n)%nat ->
  exists outcome,
    outcome <> OutOfFuel
    /\ forall fuel, (n <= fuel)%nat -> receiveLoop fuel length index buffer st = outcome.
Proof.
  revert index buffer st.
  induction n as [| n IH]; intros index buffer st Hsize Hleft.
  - exists (Returned buffer st). split; [discriminate |].
    intros fuel _. destruct fuel; simpl;
      destruct (Z.ltb_spec index length); reflexivity || lia.
  - destruct (Z.ltb_spec index length) as [Hmore | Hdone].
    + destruct (call (set_buffer_with_shared_bytes index
                        (Z.min (length - index) (bufferSize st))) st)
        as [? st1 | e st1 |] eqn:H1;
        [| | exact (False_ind _ (call_comes_back _ _ H1))].
      2:{ exists (Threw e st1). split; [discriminate |].
          intros [| fuel] Hfuel; [lia |]. simpl.
          destruct (Z.ltb_spec index length); [| lia].
          unfold andThen. rewrite H1. reflexivity. }
      destruct (call get_wasm_memory_buffer st1) as [pointer st2 | e st2 |] eqn:H2;
        [| | exact (False_ind _ (call_comes_back _ _ H2))].
      2:{ exists (Threw e st2). split; [discriminate |].
          intros [| fuel] Hfuel; [lia |]. simpl.
          destruct (Z.ltb_spec index length); [| lia].
          unfold andThen. rewrite H1, H2. reflexivity. }
      destruct (viewMemory pointer (Z.min (length - index) (bufferSize st)) st2)
        as [? st3 | e st3 |] eqn:H3;
        [| | exact (False_ind _ (viewMemory_comes_back _ _ _ H3))].
      2:{ exists (Threw e st3). split; [discriminate |].
          intros [| fuel] Hfuel; [lia |]. simpl.
          destruct (Z.ltb_spec index length); [| lia].
          unfold andThen. rewrite H1, H2, H3. reflexivity. }
      assert (Hsize3 : 0 < bufferSize st3).
      { pose proof (keepsFlag_viewMemory pointer
                      (Z.min (length - index) (bufferSize st)) st2) as K.
        rewrite H3 in K. destruct K as [_ ->].
        rewrite (call_bufferSize _ _ _ _ H2), (call_bufferSize _ _ _ _ H1).
        exact Hsize. }
      destruct (IH (index + Z.min (length - index) (bufferSize st))
                  (setAtStart buffer
                     (memoryRead pointer
                        (Z.to_nat (Z.min (length - index) (bufferSize st)))
                        (instance st3)))
                  st3 Hsize3) as (outcome & Hback & Hsame); [lia |].
      exists outcome. split; [exact Hback |].
      intros [| fuel] Hfuel; [lia |]. simpl.
      destruct (Z.ltb_spec index length); [| lia].
      unfold andThen. rewrite H1, H2, H3. unfold readMemoryBuffer.
      apply Hsame. lia.
    + exists (Returned buffer st). split; [discriminate |].
      intros fuel _. destruct fuel; simpl;
        destruct (Z.ltb_spec index length); reflexivity || lia.
Qed.

Lemma settles_receiveString length :
  Settles (fun fuel => receiveString fuel length).
Proof.
  intros st Hsize. unfold receiveString.
  destruct (Z.ltb length 0).
  - exists 0%nat, (Threw RangeError st). split; [discriminate | reflexivity].
  - destruct (receiveLoop_settles (Z.to_nat length) length 0
                (repeat Byte.x00 (Z.to_nat length)) st Hsize)
      as (outcome & Hback & Hsame); [lia |].
    exists (Z.to_nat length).
    exists (match outcome with
            | Returned buffer st' => Returned (decode buffer) st'
            | Threw e st' => Threw e st'
            | OutOfFuel => OutOfFuel
            end).
    split; [destruct outcome; [discriminate | discriminate | contradiction] |].
    intros fuel' Hfuel'. unfold andThen. rewrite (Hsame fuel' Hfuel').
    destruct outcome; reflexivity.
Qed.

(** With a buffer that is not empty [formatText] comes back: there is
    fuel from which on it returns one value or throws one exception. *)
Lemma settles_formatText filePath fileText :
  Settles (fun fuel => formatText fuel filePath fileText).
Proof.
  unfold formatText.
  apply (settles_andThen (fun _ => throwIfConfigNotSet) (fun _ fuel => _)).
  { apply settles_without_fuel. intros st. unfold throwIfConfigNotSet.
    destruct (negb (configSet st)); discriminate. }
  { intros _. apply keepsFlag_throwIfConfigNotSet. }
  intros _.
  apply (settles_andThen (fun fuel => sendString fuel filePath) (fun _ fuel => _)).
  { apply settles_sendString. }
  { intros fuel. apply keepsFlag_sendString. }
  intros _.
  apply (settles_andThen (fun _ => call set_file_path) (fun _ fuel => _)).
  { apply settles_without_fuel, call_comes_back. }
  { intros _. apply keepsFlag_call. }
  intros _.
  apply (settles_andThen (fun fuel => sendString fuel fileText) (fun _ fuel => _)).
  { apply settles_sendString. }
  { intros fuel. apply keepsFlag_sendString. }
  intros _.
  apply (settles_andThen (fun _ => call format) (fun responseCode fuel => _)).
  { apply settles_without_fuel, call_comes_back. }
  { intros _. apply keepsFlag_call. }
  intros responseCode.
  assert (Hfetch : forall (export : Export) (finish : string -> Run (option string)),
    (forall text st, finish text st <> OutOfFuel) ->
    Settles (fun fuel =>
      andThen (call export) (fun length =>
        andThen (receiveString fuel length) finish))).
  { intros export finish Hfinish.
    apply (settles_andThen (fun _ => call export) (fun length fuel => _)).
    { apply settles_without_fuel, call_comes_back. }
    { intros _. apply keepsFlag_call. }
    intros length.
    apply (settles_andThen (fun fuel => receiveString fuel length)
             (fun text _ => finish text)).
    { apply settles_receiveString. }
    { intros fuel. apply keepsFlag_receiveString. }
    intros text. apply settles_without_fuel, Hfinish. }
  destruct responseCode as [| [p | p |] | p];
    try (apply settles_without_fuel; discriminate).
  - destruct p as [p | p |]; try (apply settles_without_fuel; discriminate).
    apply Hfetch. discriminate.
  - apply Hfetch. discriminate.
Qed.

(** ** The methods before and after [setConfig] *)

Lemma not_set_throws {A} (k : unit -> Run A) st :
  configSet st = false ->
  andThen throwIfConfigNotSet k st = Threw (Error notSetMessage) st.
Proof. intros H. unfold andThen, throwIfConfigNotSet. rewrite H. reflexivity. Qed.

Lemma set_goes_on {A} (k : unit -> Run A) st :
  configSet st = true -> andThen throwIfConfigNotSet k st = k tt st.
Proof. intros H. unfold andThen, throwIfConfigNotSet. rewrite H. reflexivity. Qed.

(** The protocol of [formatText]. On a formatter made by
    [createFromInstance], as long as no call
    of [setConfig] has been made, [formatText], [getConfigDiagnostics]
    and [getResolvedConfig] throw an [Error] with the message
    "You must call setConfig before calling this function.". Once a
    call of [setConfig] has returned, and whatever calls follow it, a
    call of [formatText] whose two texts are sent and whose call of
    [format] returns a response code gives: for 0 the [fileText] it was
    given, for 1 the text received from the instance for the length
    [get_formatted_text] returns, for 2 an [Error] whose message is the
    text received for the length [get_error_text] returns, and for any
    other code [undefined]. With a buffer that is not empty the call
    comes back: from some fuel on it has one outcome, a value or an
    exception. *)
Theorem formatText_protocol i formatter :
  createFromInstance i = inr formatter ->
  (forall fuel calls st,
     forallb (fun c => negb (isSetConfig c)) calls = true ->
     performAll fuel calls formatter = Some st ->
     (forall filePath fileText,
        formatText fuel filePath fileText st = Threw (Error notSetMessage) st)
     /\ getConfigDiagnostics fuel st = Threw (Error notSetMessage) st
     /\ getResolvedConfig fuel st = Threw (Error notSetMessage) st)
  /\ (forall fuel earlier globalConfig pluginConfig later configured st,
        performAll fuel earlier formatter = Some configured ->
        forall st1,
        setConfig fuel globalConfig pluginConfig configured = Returned tt st1 ->
        performAll fuel later st1 = Some st ->
        forall filePath fileText s1 s2 s3 s4 ignored responseCode,
          sendString fuel filePath st = Returned tt s1 ->
          call set_file_path s1 = Returned ignored s2 ->
          sendString fuel fileText s2 = Returned tt s3 ->
          call format s3 = Returned responseCode s4 ->
          (responseCode = 0 ->
           formatText fuel filePath fileText st = Returned (Some fileText) s4)
          /\ (responseCode = 1 ->
              forall length text s5 s6,
                call get_formatted_text s4 = Returned length s5 ->
                receiveString fuel length s5 = Returned text s6 ->
                formatText fuel filePath fileText st = Returned (Some text) s6)
          /\ (responseCode = 2 ->
              forall length text s5 s6,
                call get_error_text s4 = Returned length s5 ->
                receiveString fuel length s5 = Returned text s6 ->
                formatText fuel filePath fileText st = Threw (Error text) s6)
          /\ (responseCode <> 0 -> responseCode <> 1 -> responseCode <> 2 ->
              formatText fuel filePath fileText st = Returned None s4))
  /\ (forall filePath fileText st,
        0 < bufferSize st ->
        exists fuel outcome,
          outcome <> OutOfFuel
          /\ forall fuel', (fuel <= fuel')%nat ->
               formatText fuel' filePath fileText st = outcome).
Proof.
  intros Hcreated. split; [| split].
  - intros fuel calls st Hnone Hperformed.
    assert (Hunset : configSet st = false).
    { rewrite (performAll_keeps_unset fuel calls formatter st Hnone Hperformed).
      apply (createFromInstance_unset i), Hcreated. }
    repeat split; intros; apply not_set_throws, Hunset.
  - intros fuel earlier globalConfig pluginConfig later configured st _ st1
      Hconfigured Hlater filePath fileText s1 s2 s3 s4 ignored responseCode
      Hpath Hset Htext Hformat.
    assert (Hflag : configSet st = true).
    { apply (performAll_keeps_set fuel later st1 st); [| exact Hlater].
      pose proof (setConfig_flag fuel globalConfig pluginConfig configured) as H.
      rewrite Hconfigured in H. tauto. }
    assert (Hrequest :
      formatText fuel filePath fileText st
      = match responseCode with
        | 0 => pure (Some fileText)
        | 1 =>
            andThen (call get_formatted_text) (fun length =>
              andThen (receiveString fuel length) (fun text => pure (Some text)))
        | 2 =>
            andThen (call get_error_text) (fun length =>
              andThen (receiveString fuel length) (fun text => throw (Error text)))
        | _ => pure None
        end s4).
    { unfold formatText. rewrite (set_goes_on _ st Hflag).
      unfold andThen at 1. rewrite Hpath.
      unfold andThen at 1. rewrite Hset.
      unfold andThen at 1. rewrite Htext.
      unfold andThen at 1. rewrite Hformat. reflexivity. }
    rewrite Hrequest. repeat split.
    + intros ->. reflexivity.
    + intros -> length text s5 s6 Hlength Hreceived.
      unfold andThen. rewrite Hlength, Hreceived. reflexivity.
    + intros -> length text s5 s6 Hlength Hreceived.
      unfold andThen. rewrite Hlength, Hreceived. reflexivity.
    + intros H0 H1 H2.
      destruct responseCode as [| [[] | [] |] |]; try reflexivity; congruence.
  - intros filePath fileText st. apply settles_formatText.
Qed.

End FormatterProperties.

(** The sample plugin: [formatText] throws before [setConfig], and
    formats after it. *)
Lemma formatText_protocol_witness :
  WasmFormatter.createFromInstance (plugin := samplePlugin) sampleInstance
  = inr sampleFormatter
  /\ WasmFormatter.formatText (plugin := samplePlugin) 1 "a.ts" "x" sampleFormatter
     = WasmFormatter.Threw (WasmFormatter.Error WasmFormatter.notSetMessage)
         sampleFormatter
  /\ exists configured formatted,
       WasmFormatter.setConfig (plugin := samplePlugin) 1 tt [] sampleFormatter
       = WasmFormatter.Returned tt configured
       /\ WasmFormatter.formatText (plugin := samplePlugin) 1 "a.ts" "x" configured
          = WasmFormatter.Returned (Some "x;") formatted.
Proof.
  destruct (formatText_protocol (plugin := samplePlugin) sampleInstance
              sampleFormatter eq_refl) as (Hbefore & Hafter & _).
  split; [reflexivity |]. split.
  - apply (Hbefore 1%nat [] sampleFormatter eq_refl eq_refl).
  - eexists _, _. split; [vm_compute; reflexivity |].
    eapply (proj1 (proj2 (Hafter 1%nat [] tt [] [] sampleFormatter _ eq_refl
                            _ _ eq_refl "a.ts" "x" _ _ _ _ _ 1 _ _ _ _))
              eq_refl).
    Unshelve.
    all: repeat match goal with |- _ = _ => vm_compute; reflexivity end.
    all: repeat match goal with |- _ = _ => vm_compute; reflexivity end.
Defined.

(** C9 fails for a text of the instance that is longer than the buffer:
    [receiveString] copies every chunk to the start of its result
    ([buffer.set(wasmBuffer)] has no offset), so that with a buffer of 8
    bytes the error text [unexpected] of the instance is thrown as
    [edexpect] and two zero bytes, and the formatted text [12345678;]
    is returned as [;2345678] and one zero byte. *)
Lemma formatText_garbles_a_text_longer_than_the_buffer :
  match
    WasmFormatter.formatText (plugin := samplePlugin) 4 "a.ts" "!"
      (formatterOver [] 8)
  with
  | WasmFormatter.Threw (WasmFormatter.Error message) st =>
      message = "edexpect" +:+ String "000" (String "000" EmptyString)
      /\ formatResult (WasmFormatter.instance st) = list_byte_of_string "unexpected"
  | _ => False
  end
  /\ match
       WasmFormatter.formatText (plugin := samplePlugin) 4 "a.ts" "12345678"
         (formatterOver [] 8)
     with
     | WasmFormatter.Returned (Some text) st =>
         text = ";2345678" +:+ String "000" EmptyString
         /\ formatResult (WasmFormatter.instance st)
            = list_byte_of_string "12345678;"
     | _ => False
     end.
Proof. vm_compute. repeat split; reflexivity. Qed.

(** * Further properties of the formatter around a wasm plugin *)

Section FormatterEdges.

Import WasmFormatter.

Context {plugin : Plugin}.

(** ** [createFromInstance] *)

(** [createFromInstance] gives a formatter exactly when the plugin
    answers schema version 1 and then its buffer size; the formatter
    starts without configuration, with that buffer size and the instance
    as the two calls left it. A plugin of another version is refused
    with an [Error] that names both versions. *)
Theorem createFromInstance_accepts_schema_1 i :
  (forall formatter,
     createFromInstance i = inr formatter
     <-> exists i1,
           get_plugin_schema_version i = (inr 1, i1)
           /\ get_wasm_memory_buffer_size i1
              = (inr (bufferSize formatter), instance formatter)
           /\ configSet formatter = false)
  /\ (forall version i1,
        get_plugin_schema_version i = (inr version, i1) ->
        version <> 1 ->
        createFromInstance i
        = inl (Error ("Not compatible plugin. Expected schema "
                      +:+ numberToString 1 +:+ ", but plugin had "
                      +:+ numberToString version +:+ "."))).
Proof.
  unfold createFromInstance, expectedPluginSchemaVersion. split.
  - intros formatter. split.
    + destruct (get_plugin_schema_version i) as [[e | version] i1]; [discriminate |].
      destruct (Z.eqb_spec version 1) as [-> | Hother]; [| discriminate]. simpl.
      destruct (get_wasm_memory_buffer_size i1) as [[e | size] i2] eqn:Hsize;
        [discriminate |].
      intros [= <-]. exists i1. repeat split. exact Hsize.
    + intros (i1 & -> & Hsize & Hflag). simpl. rewrite Hsize.
      destruct formatter as [flag size i2]. simpl in *. subst flag. reflexivity.
  - intros version i1 -> Hother.
    destruct (Z.eqb_spec version 1) as [-> | _]; [contradiction | reflexivity].
Qed.

(** ** [sendString] *)

(** [sendString] clears the shared bytes for the length of the encoded
    text and then sends the text in one piece or not at all. The empty
    text needs no further call. A text that fits in the buffer is
    written whole at the pointer of the instance and added to the
    shared bytes in one call, provided the view lies within the memory.
    A text longer than the buffer makes [set] throw a [RangeError] on
    the first round, before anything is written. *)
Theorem sendString_whole_or_RangeError fuel text st ignored s1 :
  call (clear_shared_bytes (Z.of_nat (List.length (encode text)))) st
  = Returned ignored s1 ->
  (encode text = [] -> sendString fuel text st = Returned tt s1)
  /\ (encode text <> [] ->
      forall pointer s2,
        call get_wasm_memory_buffer s1 = Returned pointer s2 ->
        (bufferSize st < Z.of_nat (List.length (encode text)) ->
         sendString (S fuel) text st = Threw RangeError s2)
        /\ (Z.of_nat (List.length (encode text)) <= bufferSize st ->
            pointer < 0
            \/ memoryByteLength (instance s2)
               < pointer + Z.of_nat (List.length (encode text)) ->
            sendString (S fuel) text st = Threw RangeError s2)
        /\ (Z.of_nat (List.length (encode text)) <= bufferSize st ->
            0 <= pointer ->
            pointer + Z.of_nat (List.length (encode text))
            <= memoryByteLength (instance s2) ->
            forall ignored' s3,
              call (add_to_shared_bytes_from_buffer
                      (Z.of_nat (List.length (encode text))))
                   (withInstance (memoryWrite pointer (encode text) (instance s2)) s2)
              = Returned ignored' s3 ->
              sendString (S fuel) text st = Returned tt s3)).
Proof.
  intros Hclear.
  pose proof (call_bufferSize _ _ _ _ Hclear) as Hsize.
  split.
  - intros Hempty. unfold sendString, andThen. rewrite Hclear, Hempty.
    destruct fuel; reflexivity.
  - intros Hsome pointer s2 Hpointer.
    assert (Hpositive : 0 < Z.of_nat (List.length (encode text))).
    { destruct (encode text); [contradiction | simpl; lia]. }
    assert (Hstart :
      sendString (S fuel) text st
      = andThen
          (viewMemory pointer
             (Z.min (Z.of_nat (List.length (encode text)) - 0) (bufferSize s1)))
          (fun _ =>
             andThen
               (if Z.ltb (Z.min (Z.of_nat (List.length (encode text)) - 0)
                                (bufferSize s1))
                         (0 + Z.of_nat (List.length (encode text)))
                then throw RangeError
                else writeMemoryBuffer (pointer + 0) (encode text))
               (fun _ =>
                  andThen
                    (call (add_to_shared_bytes_from_buffer
                             (Z.min (Z.of_nat (List.length (encode text)) - 0)
                                    (bufferSize s1))))
                    (fun _ =>
                       sendLoop fuel (encode text)
                         (0 + Z.min (Z.of_nat (List.length (encode text)) - 0)
                                    (bufferSize s1))))) s2).
    { unfold sendString. unfold andThen at 1. rewrite Hclear.
      cbn [sendLoop].
      destruct (Z.ltb_spec 0 (Z.of_nat (List.length (encode text)))); [| lia].
      unfold andThen at 1. rewrite Hpointer. reflexivity. }
    rewrite Hstart, Hsize. clear Hstart.
    pose proof (keepsFlag_viewMemory pointer
                  (Z.min (Z.of_nat (List.length (encode text)) - 0) (bufferSize st))
                  s2) as Hview.
    unfold andThen, viewMemory in *.
    split; [| split].
    + intros Hlong.
      destruct (_ || _ || _); [reflexivity |].
      destruct (Z.ltb_spec
                  (Z.min (Z.of_nat (List.length (encode text)) - 0) (bufferSize st))
                  (0 + Z.of_nat (List.length (encode text)))); [reflexivity | lia].
    + intros Hfits Houtside.
      replace (Z.min (Z.of_nat (List.length (encode text)) - 0) (bufferSize st))
        with (Z.of_nat (List.length (encode text))) by lia.
      destruct (Z.ltb_spec (Z.of_nat (List.length (encode text))) 0); [lia |].
      destruct (Z.ltb_spec pointer 0); [reflexivity |].
      destruct (Z.ltb_spec (memoryByteLength (instance s2))
                  (pointer + Z.of_nat (List.length (encode text))));
        [reflexivity | lia].
    + intros Hfits Hlow Hhigh ignored' s3 Hadded.
      replace (Z.min (Z.of_nat (List.length (encode text)) - 0) (bufferSize st))
        with (Z.of_nat (List.length (encode text))) by lia.
      destruct (Z.ltb_spec (Z.of_nat (List.length (encode text))) 0); [lia |].
      destruct (Z.ltb_spec pointer 0); [lia |].
      destruct (Z.ltb_spec (memoryByteLength (instance s2))
                  (pointer + Z.of_nat (List.length (encode text)))); [lia |].
      simpl.
      destruct (Z.ltb_spec (Z.of_nat (List.length (encode text)))
                  (0 + Z.of_nat (List.length (encode text)))); [lia |].
      unfold writeMemoryBuffer. rewrite Z.add_0_r, Hadded.
      rewrite sendLoop_done by lia. reflexivity.
Qed.

(** ** [receiveString] *)

Lemma drop_repeat {A} (a : A) n m : drop m (repeat a n) = repeat a (n - m).
Proof.
  revert m. induction n as [| n IH]; intros [| m]; simpl; try reflexivity.
  apply IH.
Qed.

Lemma viewMemory_returned pointer count st u st' :
  viewMemory pointer count st = Returned u st' ->
  st' = st /\ 0 <= count /\ 0 <= pointer
  /\ pointer + count <= memoryByteLength (instance st).
Proof.
  unfold viewMemory.
  destruct (Z.ltb_spec count 0); [discriminate |].
  destruct (Z.ltb_spec pointer 0); [discriminate |].
  destruct (Z.ltb_spec (memoryByteLength (instance st)) (pointer + count));
    [discriminate |].
  intros [= _ <-]. repeat split; assumption.
Qed.

(** A negative length is a [RangeError] and the length 0 the decoded
    empty buffer, both without a call of the instance. A text that fits
    in the buffer takes one round: the bytes of the view at the pointer
    of the instance, decoded. *)
Theorem receiveString_in_one_round fuel length st :
  (length < 0 -> receiveString fuel length st = Threw RangeError st)
  /\ (length = 0 -> receiveString fuel length st = Returned (decode []) st)
  /\ (0 < length <= bufferSize st ->
      forall ignored s1 pointer s2,
        call (set_buffer_with_shared_bytes 0 length) st = Returned ignored s1 ->
        call get_wasm_memory_buffer s1 = Returned pointer s2 ->
        0 <= pointer ->
        pointer + length <= memoryByteLength (instance s2) ->
        List.length (memoryRead pointer (Z.to_nat length) (instance s2))
        = Z.to_nat length ->
        receiveString (S fuel) length st
        = Returned (decode (memoryRead pointer (Z.to_nat length) (instance s2))) s2).
Proof.
  unfold receiveString. split; [| split].
  - intros Hnegative. destruct (Z.ltb_spec length 0); [reflexivity | lia].
  - intros ->. destruct fuel; reflexivity.
  - intros [Hpositive Hfits] ignored s1 pointer s2 Hset Hpointer Hlow Hhigh Hread.
    destruct (Z.ltb_spec length 0); [lia |].
    unfold andThen at 1. cbn [receiveLoop].
    destruct (Z.ltb_spec 0 length); [| lia].
    replace (Z.min (length - 0) (bufferSize st)) with length by lia.
    unfold andThen at 1. rewrite Hset.
    unfold andThen at 1. rewrite Hpointer.
    unfold andThen at 1, viewMemory.
    destruct (Z.ltb_spec length 0); [lia |].
    destruct (Z.ltb_spec pointer 0); [lia |].
    destruct (Z.ltb_spec (memoryByteLength (instance s2)) (pointer + length));
      [lia |].
    simpl. unfold andThen at 1, readMemoryBuffer.
    assert (Hdone : forall buffer,
      receiveLoop fuel length (0 + length) buffer s2 = Returned buffer s2).
    { intros buffer. destruct fuel; simpl;
        destruct (Z.ltb_spec (0 + length) length); reflexivity || lia. }
    rewrite Hdone. unfold pure, setAtStart. rewrite Hread.
    rewrite skipn_all2, app_nil_r by (rewrite repeat_length; lia).
    reflexivity.
Qed.

(** Every round writes what it read at the start of the buffer
    ([buffer.set(wasmBuffer)] has no offset): the buffer keeps its
    length, and its bytes from the buffer size of the instance on are
    never written. *)
Lemma receiveLoop_writes_at_start fuel length :
  (forall pointer count i,
     0 <= pointer ->
     pointer + Z.of_nat count <= memoryByteLength i ->
     List.length (memoryRead pointer count i) = count) ->
  forall index buffer st buffer' st',
    (Z.to_nat (length - index) <= List.length buffer)%nat ->
    receiveLoop fuel length index buffer st = Returned buffer' st' ->
    List.length buffer' = List.length buffer
    /\ drop (Z.to_nat (bufferSize st)) buffer'
       = drop (Z.to_nat (bufferSize st)) buffer.
Proof.
  intros Hread.
  induction fuel as [| fuel IH]; intros index buffer st buffer' st' Hroom; simpl;
    (destruct (Z.ltb_spec index length) as [Hmore | Hdone];
     [| intros [= <- <-]; split; reflexivity]);
    [discriminate |].
  unfold andThen.
  destruct (call (set_buffer_with_shared_bytes index
                    (Z.min (length - index) (bufferSize st))) st)
    as [? s1 | |] eqn:H1; try discriminate.
  destruct (call get_wasm_memory_buffer s1) as [pointer s2 | |] eqn:H2;
    try discriminate.
  destruct (viewMemory pointer (Z.min (length - index) (bufferSize st)) s2)
    as [? s3 | |] eqn:H3; try discriminate.
  apply viewMemory_returned in H3 as (-> & Hcount & Hlow & Hhigh).
  unfold readMemoryBuffer.
  set (readCount := Z.min (length - index) (bufferSize st)) in *.
  set (wasmBuffer := memoryRead pointer (Z.to_nat readCount) (instance s2)).
  assert (Hbytes : List.length wasmBuffer = Z.to_nat readCount).
  { apply Hread; [exact Hlow | rewrite Z2Nat.id by lia; exact Hhigh]. }
  assert (Hsize : bufferSize s2 = bufferSize st).
  { rewrite (call_bufferSize _ _ _ _ H2). apply (call_bufferSize _ _ _ _ H1). }
  assert (Hlength : List.length (setAtStart buffer wasmBuffer) = List.length buffer).
  { unfold setAtStart. rewrite length_app, length_skipn, Hbytes. lia. }
  intros Hrest. apply IH in Hrest as [Hlength' Hdrop]; [| rewrite Hlength; lia].
  rewrite Hsize in Hdrop. split; [congruence |].
  rewrite Hdrop. unfold setAtStart.
  rewrite drop_app_ge by (rewrite Hbytes; lia).
  rewrite drop_drop. f_equal. rewrite Hbytes. lia.
Qed.

(** What [receiveString] returns for a length beyond the buffer size of
    the instance is not the text of the instance: it is the decoded
    buffer of that length in which every byte from the buffer size on
    is still zero. *)
Theorem receiveString_fills_no_more_than_the_buffer fuel length st text st' :
  (forall pointer count i,
     0 <= pointer ->
     pointer + Z.of_nat count <= memoryByteLength i ->
     List.length (memoryRead pointer count i) = count) ->
  receiveString fuel length st = Returned text st' ->
  exists buffer,
    text = decode buffer
    /\ List.length buffer = Z.to_nat length
    /\ drop (Z.to_nat (bufferSize st)) buffer
       = repeat Byte.x00 (Z.to_nat length - Z.to_nat (bufferSize st)).
Proof.
  intros Hread. unfold receiveString.
  destruct (Z.ltb length 0); [discriminate |].
  unfold andThen.
  destruct (receiveLoop fuel length 0 (repeat Byte.x00 (Z.to_nat length)) st)
    as [buffer s1 | |] eqn:Hloop; try discriminate.
  intros [= <- <-]. exists buffer.
  apply (receiveLoop_writes_at_start fuel length Hread) in Hloop as [Hlength Hdrop];
    [| rewrite repeat_length; lia].
  rewrite repeat_length in Hlength. rewrite drop_repeat in Hdrop.
  repeat split; assumption.
Qed.

(** With a buffer size of 0 and an instance whose calls return,
    [receiveString] never comes back for a text that is not empty: every
    round reads nothing. *)
Theorem receiveString_hangs_on_empty_buffer length st :
  bufferSize st = 0 ->
  0 < length ->
  (forall index count i,
     exists ignored i', set_buffer_with_shared_bytes index count i = (inr ignored, i')) ->
  (forall i,
     exists pointer i',
       get_wasm_memory_buffer i = (inr pointer, i')
       /\ 0 <= pointer <= memoryByteLength i') ->
  forall fuel, receiveString fuel length st = OutOfFuel.
Proof.
  intros Hsize Hpositive Hset Hpointer fuel. unfold receiveString.
  destruct (Z.ltb_spec length 0); [lia |].
  assert (Hloop : forall index buffer st0,
    bufferSize st0 = 0 -> index < length ->
    receiveLoop fuel length index buffer st0 = OutOfFuel).
  { clear st Hsize. induction fuel as [| fuel IH]; intros index buffer st Hsize Hmore;
      simpl; (destruct (Z.ltb_spec index length); [| lia]); [reflexivity |].
    rewrite Hsize.
    replace (Z.min (length - index) 0) with 0 by lia.
    unfold andThen, call.
    destruct (Hset index 0 (instance st)) as (ignored & i1 & ->). simpl.
    destruct (Hpointer i1) as (pointer & i2 & -> & Hlow & Hhigh). simpl.
    unfold viewMemory. simpl.
    destruct (Z.ltb_spec pointer 0); [lia |].
    destruct (Z.ltb_spec (memoryByteLength i2) (pointer + 0)); [lia |].
    simpl. unfold readMemoryBuffer. apply IH; [exact Hsize | lia]. }
  unfold andThen. rewrite Hloop by (assumption || lia). reflexivity.
Qed.

(** ** [setConfig] *)

Lemma getPluginConfigWithStringProps_spec pluginConfig :
  (forall props,
     getPluginConfigWithStringProps pluginConfig = inr props
     <-> exists given,
           pluginConfig = map (fun prop => (fst prop, Gives (snd prop))) given
           /\ props
              = List.filter (fun prop => negb (String.eqb (fst prop) "__proto__"))
                  given)
  /\ (forall e,
        getPluginConfigWithStringProps pluginConfig = inl e
        <-> exists given key rest,
              pluginConfig
              = map (fun prop => (fst prop, Gives (snd prop))) given
                ++ (key, Throws e) :: rest).
Proof.
  induction pluginConfig as [| [key [value | thrown]] rest (IHprops & IHerror)].
  - split.
    + intros props. split.
      * intros [= <-]. exists []. split; reflexivity.
      * intros ([| prop given] & Hgiven & ->); [reflexivity | discriminate].
    + intros e. split; [discriminate |].
      intros ([| prop given] & key & rest & H); discriminate.
  - simpl. split.
    + intros props. split.
      * destruct (getPluginConfigWithStringProps rest) as [e | converted] eqn:Hrest;
          [discriminate |].
        intros [= <-].
        destruct (proj1 (IHprops converted) eq_refl) as (given & -> & ->).
        exists ((key, value) :: given). split; [reflexivity |].
        simpl. destruct (String.eqb key "__proto__"); reflexivity.
      * intros ([| [key' value'] given] & Hgiven & ->); [discriminate |].
        simpl in Hgiven. injection Hgiven as -> -> ->.
        rewrite (proj2 (IHprops _) (ex_intro _ given (conj eq_refl eq_refl))).
        simpl. destruct (String.eqb key' "__proto__"); reflexivity.
    + intros e. split.
      * destruct (getPluginConfigWithStringProps rest) as [e' | converted];
          [| discriminate].
        intros [= <-].
        destruct (proj1 (IHerror e') eq_refl) as (given & key' & rest' & ->).
        exists ((key, value) :: given), key', rest'. reflexivity.
      * intros ([| [key' value'] given] & key'' & rest' & H); [discriminate |].
        simpl in H. injection H as -> -> ->.
        rewrite (proj2 (IHerror e) (ex_intro _ given
                   (ex_intro _ key'' (ex_intro _ rest' eq_refl)))).
        reflexivity.
  - simpl. split.
    + intros props. split; [discriminate |].
      intros ([| prop given] & Hgiven & _); discriminate.
    + intros e. split.
      * intros [= <-]. exists [], key, rest. reflexivity.
      * intros ([| prop given] & key' & rest' & H); [| discriminate].
        simpl in H. injection H as _ -> _. reflexivity.
Qed.

(** [getPluginConfigWithStringProps] goes through the keys in their
    order. As long as [toString()] returns, the object it builds gets
    each key with what [toString()] returned, except the key
    [__proto__], which is lost; the first [toString()] that throws ends
    it with what was thrown, whatever the values behind it. What
    [setConfig] sends to the instance as the plugin configuration is the
    JSON text of that object. *)
Theorem getPluginConfigWithStringProps_keeps_keys pluginConfig :
  (forall props,
     getPluginConfigWithStringProps pluginConfig = inr props
     <-> exists given,
           pluginConfig = map (fun prop => (fst prop, Gives (snd prop))) given
           /\ props
              = List.filter (fun prop => negb (String.eqb (fst prop) "__proto__"))
                  given)
  /\ (forall e,
        getPluginConfigWithStringProps pluginConfig = inl e
        <-> exists given key rest,
              pluginConfig
              = map (fun prop => (fst prop, Gives (snd prop))) given
                ++ (key, Throws e) :: rest)
  /\ (forall fuel globalConfig given st s1 ignored s2,
        pluginConfig = map (fun prop => (fst prop, Gives (snd prop))) given ->
        sendString fuel (stringifyGlobalConfig globalConfig) st = Returned tt s1 ->
        call set_global_config s1 = Returned ignored s2 ->
        setConfig fuel globalConfig pluginConfig st
        = andThen
            (sendString fuel
               (stringifyProperties
                  (List.filter
                     (fun prop => negb (String.eqb (fst prop) "__proto__")) given)))
            (fun _ =>
               andThen (call set_plugin_config)
                 (fun _ st' => Returned tt (setConfigSet st')))
            s2).
Proof.
  destruct (getPluginConfigWithStringProps_spec pluginConfig) as [Hprops Herror].
  split; [exact Hprops |]. split; [exact Herror |].
  intros fuel globalConfig given st s1 ignored s2 Hgiven Hsent Hset.
  unfold setConfig, andThen at 1. rewrite Hsent.
  unfold andThen at 1. rewrite Hset.
  unfold andThen at 1.
  rewrite (proj2 (Hprops _) (ex_intro _ given (conj Hgiven eq_refl))).
  reflexivity.
Qed.

Lemma first_thrown_is_thrown (given : list (string * JsValue)) key e rest :
  getPluginConfigWithStringProps
    (map (fun prop => (fst prop, Gives (snd prop))) given ++ (key, Throws e) :: rest)
  = inl e.
Proof.
  induction given as [| prop given IH]; simpl; [reflexivity |].
  rewrite IH. reflexivity.
Qed.

(** A plugin configuration with a value whose [toString()] throws, as
    for a value that is [null] or [undefined], which gives a
    [TypeError], makes [setConfig] throw what the first such value
    throws once the global configuration has gone to the instance; the
    plugin configuration is not sent and the formatter stays as
    unconfigured as it was, so that [formatText] goes on refusing. *)
Theorem setConfig_refuses_missing_value fuel globalConfig
    (given : list (string * JsValue)) key error rest st s1 ignored s2 :
  sendString fuel (stringifyGlobalConfig globalConfig) st = Returned tt s1 ->
  call set_global_config s1 = Returned ignored s2 ->
  let pluginConfig :=
    map (fun prop => (fst prop, Gives (snd prop))) given
    ++ (key, Throws error) :: rest in
  setConfig fuel globalConfig pluginConfig st = Threw error s2
  /\ configSet s2 = configSet st
  /\ (configSet st = false ->
      forall filePath fileText,
        formatText fuel filePath fileText s2 = Threw (Error notSetMessage) s2).
Proof.
  intros Hsent Hset pluginConfig.
  assert (Hthrown : setConfig fuel globalConfig pluginConfig st = Threw error s2).
  { unfold setConfig, andThen. rewrite Hsent, Hset.
    unfold pluginConfig. rewrite first_thrown_is_thrown. reflexivity. }
  assert (Hflag : configSet s2 = configSet st).
  { pose proof (setConfig_flag fuel globalConfig pluginConfig st) as H.
    rewrite Hthrown in H. tauto. }
  repeat split; [exact Hthrown | exact Hflag |].
  intros Hunset filePath fileText. apply not_set_throws. congruence.
Qed.

(** ** [getPluginInfo] *)

Lemma call_on_configured f st :
  call f (setConfigSet st)
  = match call f st with
    | Returned value after => Returned value (setConfigSet after)
    | Threw error after => Threw error (setConfigSet after)
    | OutOfFuel => OutOfFuel
    end.
Proof. unfold call. simpl. destruct (f (instance st)) as [[] ?]; reflexivity. Qed.

Lemma receiveLoop_on_configured fuel length index buffer st :
  receiveLoop fuel length index buffer (setConfigSet st)
  = match receiveLoop fuel length index buffer st with
    | Returned value after => Returned value (setConfigSet after)
    | Threw error after => Threw error (setConfigSet after)
    | OutOfFuel => OutOfFuel
    end.
Proof.
  revert index buffer st.
  induction fuel as [| fuel IH]; intros index buffer st; simpl;
    (destruct (Z.ltb index length); [| reflexivity]); [reflexivity |].
  unfold andThen. rewrite call_on_configured.
  destruct (call _ st) as [? s1 | |]; try reflexivity.
  rewrite call_on_configured.
  destruct (call get_wasm_memory_buffer s1) as [pointer s2 | |]; try reflexivity.
  unfold viewMemory. simpl.
  destruct (_ || _ || _); [reflexivity |].
  unfold readMemoryBuffer. simpl. apply IH.
Qed.

(** [getPluginInfo] does not ask for [setConfig]: on a formatter that
    is configured it does what it does on the same formatter without
    configuration. *)
Theorem getPluginInfo_needs_no_configuration fuel st :
  getPluginInfo fuel (setConfigSet st)
  = match getPluginInfo fuel st with
    | Returned value after => Returned value (setConfigSet after)
    | Threw error after => Threw error (setConfigSet after)
    | OutOfFuel => OutOfFuel
    end.
Proof.
  unfold getPluginInfo, andThen. rewrite call_on_configured.
  destruct (call get_plugin_info st) as [length s1 | |]; try reflexivity.
  unfold receiveString.
  destruct (Z.ltb length 0); [reflexivity |].
  unfold andThen. rewrite receiveLoop_on_configured.
  destruct (receiveLoop fuel length 0 _ s1) as [buffer s2 | |]; try reflexivity.
  unfold pure, parseJson. destruct (jsonParse (decode buffer)); reflexivity.
Qed.

(** ** All methods *)

Lemma perform_bufferSize fuel c st st' :
  perform fuel c st = Some st' -> bufferSize st' = bufferSize st.
Proof.
  destruct c as [g p | | | | filePath fileText]; simpl.
  - pose proof (setConfig_flag fuel g p st) as H.
    destruct (setConfig fuel g p st); intros [= <-]; tauto.
  - pose proof (keepsFlag_getConfigDiagnostics fuel st) as H.
    destruct (getConfigDiagnostics fuel st); intros [= <-]; tauto.
  - pose proof (keepsFlag_getResolvedConfig fuel st) as H.
    destruct (getResolvedConfig fuel st); intros [= <-]; tauto.
  - pose proof (keepsFlag_getPluginInfo fuel st) as H.
    destruct (getPluginInfo fuel st); intros [= <-]; tauto.
  - pose proof (keepsFlag_formatText fuel filePath fileText st) as H.
    destruct (formatText fuel filePath fileText st); intros [= <-]; tauto.
Qed.

(** Whatever methods are called, returning or throwing, the buffer size
    read at creation stays, and a formatter once configured stays
    configured. *)
Theorem methods_keep_buffer_size_and_configuration fuel calls st st' :
  performAll fuel calls st = Some st' ->
  bufferSize st' = bufferSize st
  /\ (configSet st = true -> configSet st' = true).
Proof.
  intros Hperformed. split.
  - revert st Hperformed. induction calls as [| c rest IH]; intros st; simpl.
    + intros [= <-]. reflexivity.
    + destruct (perform fuel c st) as [st1 |] eqn:Hstep; [| discriminate].
      intros Hrest. rewrite (IH st1 Hrest). apply (perform_bufferSize fuel c), Hstep.
  - intros Hset. apply (performAll_keeps_set fuel calls st st' Hset Hperformed).
Qed.

Lemma settles_setConfig globalConfig pluginConfig :
  Settles (fun fuel => setConfig fuel globalConfig pluginConfig).
Proof.
  unfold setConfig.
  apply (settles_andThen (fun fuel => sendString fuel _) (fun _ fuel => _)).
  { apply settles_sendString. }
  { intros fuel. apply keepsFlag_sendString. }
  intros _.
  apply (settles_andThen (fun _ => call set_global_config) (fun _ fuel => _)).
  { apply settles_without_fuel, call_comes_back. }
  { intros _. apply keepsFlag_call. }
  intros _.
  apply (settles_andThen
           (fun _ st =>
              match getPluginConfigWithStringProps pluginConfig with
              | inr props => Returned props st
              | inl e => Threw e st
              end)
           (fun props fuel => _)).
  { apply settles_without_fuel. intros st.
    destruct (getPluginConfigWithStringProps pluginConfig); discriminate. }
  { intros _ st. destruct (getPluginConfigWithStringProps pluginConfig);
      split; reflexivity. }
  intros props.
  apply (settles_andThen (fun fuel => sendString fuel _) (fun _ fuel => _)).
  { apply settles_sendString. }
  { intros fuel. apply keepsFlag_sendString. }
  intros _.
  apply (settles_andThen (fun _ => call set_plugin_config) (fun _ _ => _)).
  { apply settles_without_fuel, call_comes_back. }
  { intros _. apply keepsFlag_call. }
  intros _. apply settles_without_fuel. discriminate.
Qed.

Lemma parseJson_comes_back text st : parseJson text st <> OutOfFuel.
Proof. unfold parseJson. destruct (jsonParse text); discriminate. Qed.

Lemma settles_received {A} (export : Export) (finish : string -> Run A) :
  (forall text st, finish text st <> OutOfFuel) ->
  Settles (fun fuel =>
    andThen (call export) (fun length =>
      andThen (receiveString fuel length) finish)).
Proof.
  intros Hfinish.
  apply (settles_andThen (fun _ => call export) (fun length fuel => _)).
  { apply settles_without_fuel, call_comes_back. }
  { intros _. apply keepsFlag_call. }
  intros length.
  apply (settles_andThen (fun fuel => receiveString fuel length)
           (fun text _ => finish text)).
  { apply settles_receiveString. }
  { intros fuel. apply keepsFlag_receiveString. }
  intros text. apply settles_without_fuel, Hfinish.
Qed.

Lemma settles_checked {A} (m : nat -> Run A) :
  Settles m -> Settles (fun fuel => andThen throwIfConfigNotSet (fun _ => m fuel)).
Proof.
  intros Hm.
  apply (settles_andThen (fun _ => throwIfConfigNotSet) (fun _ fuel => m fuel)).
  - apply settles_without_fuel. intros st. unfold throwIfConfigNotSet.
    destruct (negb (configSet st)); discriminate.
  - intros _. apply keepsFlag_throwIfConfigNotSet.
  - intros _. exact Hm.
Qed.

Lemma settles_perform c st :
  0 < bufferSize st ->
  exists fuel0 st', forall fuel, (fuel0 <= fuel)%nat -> perform fuel c st = Some st'.
Proof.
  intros Hsize.
  assert (Hstate : forall A (m : nat -> Run A),
    Settles m ->
    exists fuel0 st', forall fuel, (fuel0 <= fuel)%nat -> stateAfter (m fuel st) = Some st').
  { intros A m Hm. destruct (Hm st Hsize) as (fuel0 & outcome & Hback & Hsame).
    destruct outcome as [a st' | e st' |]; [| | contradiction];
      exists fuel0, st'; intros fuel Hfuel; rewrite (Hsame fuel Hfuel); reflexivity. }
  destruct c as [g p | | | | filePath fileText]; simpl.
  - apply (Hstate _ (fun fuel => setConfig fuel g p)), settles_setConfig.
  - apply (Hstate _ (fun fuel => getConfigDiagnostics fuel)).
    unfold getConfigDiagnostics.
    apply (settles_checked (fun fuel => andThen (call get_config_diagnostics) _)).
    apply settles_received, parseJson_comes_back.
  - apply (Hstate _ (fun fuel => getResolvedConfig fuel)).
    unfold getResolvedConfig.
    apply (settles_checked (fun fuel => andThen (call get_resolved_config) _)).
    assert (Hpure : Settles (fun fuel =>
      andThen (call get_resolved_config) (fun length =>
        andThen (receiveString fuel length) pure))).
    { apply settles_received. discriminate. }
    intros st0 Hsize0. destruct (Hpure st0 Hsize0) as (fuel0 & outcome & Hback & Hsame).
    exists fuel0, outcome. split; [exact Hback |].
    intros fuel Hfuel. rewrite <- (Hsame fuel Hfuel). unfold andThen.
    destruct (call get_resolved_config st0) as [length s1 | |]; try reflexivity.
    destruct (receiveString fuel length s1); reflexivity.
  - apply (Hstate _ (fun fuel => getPluginInfo fuel)).
    unfold getPluginInfo. apply settles_received, parseJson_comes_back.
  - apply (Hstate _ (fun fuel => formatText fuel filePath fileText)),
      settles_formatText.
Qed.

(** With a buffer that is not empty every sequence of method calls comes
    back: from some fuel on each call returns or throws, and the
    sequence leaves one and the same formatter. *)
Theorem every_call_sequence_comes_back calls st :
  0 < bufferSize st ->
  exists fuel0 st',
    forall fuel, (fuel0 <= fuel)%nat -> performAll fuel calls st = Some st'.
Proof.
  revert st. induction calls as [| c rest IH]; intros st Hsize.
  - exists 0%nat, st. reflexivity.
  - destruct (settles_perform c st Hsize) as (fuel1 & st1 & Hstep).
    assert (Hsize1 : 0 < bufferSize st1).
    { rewrite (perform_bufferSize fuel1 c st st1); [exact Hsize |].
      apply Hstep. lia. }
    destruct (IH st1 Hsize1) as (fuel2 & st2 & Hrest).
    exists (Nat.max fuel1 fuel2), st2. intros fuel Hfuel. simpl.
    rewrite Hstep by lia. apply Hrest. lia.
Qed.

End FormatterEdges.

(** ** The formatter around the sample plugin *)

(** The sample plugin is accepted, the one of schema version 2 is not. *)
Lemma createFromInstance_accepts_schema_1_witness :
  WasmFormatter.createFromInstance (plugin := samplePlugin) sampleInstance
  = inr sampleFormatter
  /\ WasmFormatter.createFromInstance (plugin := oldPlugin) sampleInstance
     = inl (WasmFormatter.Error
              "Not compatible plugin. Expected schema 1, but plugin had 2.").
Proof.
  split.
  - apply (proj1 (createFromInstance_accepts_schema_1 (plugin := samplePlugin)
                    sampleInstance)).
    exists sampleInstance. repeat split.
  - apply (proj2 (createFromInstance_accepts_schema_1 (plugin := oldPlugin)
                    sampleInstance) 2 sampleInstance eq_refl).
    discriminate.
Defined.

(** Nine bytes do not go through the buffer of eight; two do. *)
Lemma sendString_whole_or_RangeError_witness :
  (exists st, WasmFormatter.sendString (plugin := samplePlugin) 1 "123456789"
                sampleFormatter
              = WasmFormatter.Threw WasmFormatter.RangeError st)
  /\ (exists st, WasmFormatter.sendString (plugin := samplePlugin) 1 "x;"
                   sampleFormatter
                 = WasmFormatter.Returned tt st
                 /\ sharedBytes (WasmFormatter.instance st) = list_byte_of_string "x;").
Proof.
  split.
  - edestruct (sendString_whole_or_RangeError (plugin := samplePlugin)
                 0 "123456789" sampleFormatter) as [_ Hsome];
      [vm_compute; reflexivity |].
    edestruct Hsome as (Hlong & _ & _); [discriminate | vm_compute; reflexivity |].
    eexists. apply Hlong. reflexivity.
  - edestruct (sendString_whole_or_RangeError (plugin := samplePlugin)
                 0 "x;" sampleFormatter) as [_ Hsome];
      [vm_compute; reflexivity |].
    edestruct Hsome as (_ & _ & Hfits); [discriminate | vm_compute; reflexivity |].
    eexists. split.
    + eapply Hfits;
        [vm_compute; discriminate | reflexivity | vm_compute; discriminate
        | vm_compute; reflexivity].
    + reflexivity.
Defined.

(** Two shared bytes are received in one round. *)
Lemma receiveString_in_one_round_witness :
  exists text st,
    WasmFormatter.receiveString (plugin := samplePlugin) 1 2
      (formatterOver (list_byte_of_string "x;") 8)
    = WasmFormatter.Returned text st
    /\ text = "x;".
Proof.
  destruct (receiveString_in_one_round (plugin := samplePlugin) 0 2
              (formatterOver (list_byte_of_string "x;") 8)) as (_ & _ & Hfits).
  eexists _, _. split.
  - eapply Hfits;
      [ split; [reflexivity | vm_compute; discriminate]
      | vm_compute; reflexivity
      | vm_compute; reflexivity
      | reflexivity
      | vm_compute; discriminate
      | reflexivity ].
  - vm_compute. reflexivity.
Defined.

(** Nine shared bytes and a buffer of eight: the ninth byte is received
    over the first, and the last byte of the result is zero. *)
Lemma receiveString_fills_no_more_than_the_buffer_witness :
  exists text st,
    WasmFormatter.receiveString (plugin := samplePlugin) 2 9
      (formatterOver (list_byte_of_string "12345678;") 8)
    = WasmFormatter.Returned text st
    /\ exists buffer,
         text = string_of_list_byte buffer
         /\ List.length buffer = 9%nat
         /\ drop 8 buffer = [Byte.x00].
Proof.
  eexists _, _. split; [vm_compute; reflexivity |].
  eapply (receiveString_fills_no_more_than_the_buffer (plugin := samplePlugin) 2 9
            (formatterOver (list_byte_of_string "12345678;") 8)).
  - intros pointer count i Hlow Hhigh. simpl in *.
    rewrite length_take, length_drop. lia.
  - vm_compute. reflexivity.
Defined.

(** With a buffer size of 0 the sample plugin is asked for ever. *)
Lemma receiveString_hangs_on_empty_buffer_witness :
  WasmFormatter.receiveString (plugin := samplePlugin) 1000 1
    (formatterOver (list_byte_of_string "x") 0)
  = WasmFormatter.OutOfFuel.
Proof.
  apply (receiveString_hangs_on_empty_buffer (plugin := samplePlugin) 1
           (formatterOver (list_byte_of_string "x") 0)).
  - reflexivity.
  - reflexivity.
  - intros index count i. eexists _, _. simpl. reflexivity.
  - intros i. exists 0, i. split; [reflexivity | simpl; lia].
Defined.

(** A plugin configuration of two strings and the key [__proto__], and
    one with a value that is missing in front of one whose [toString()]
    throws. *)
Lemma getPluginConfigWithStringProps_keeps_keys_witness :
  WasmFormatter.getPluginConfigWithStringProps (plugin := samplePlugin)
    [("lineWidth", WasmFormatter.Gives "80"); ("__proto__", WasmFormatter.Gives "x");
     ("useTabs", WasmFormatter.Gives "true")]
  = inr [("lineWidth", "80"); ("useTabs", "true")]
  /\ WasmFormatter.getPluginConfigWithStringProps (plugin := samplePlugin)
       [("lineWidth", WasmFormatter.Gives "80");
        ("useTabs", WasmFormatter.Throws WasmFormatter.TypeError);
        ("quotes", WasmFormatter.Throws (WasmFormatter.Error "boom"))]
     = inl WasmFormatter.TypeError
  /\ WasmFormatter.stateAfter
       (WasmFormatter.setConfig (plugin := samplePlugin) 1 tt
          [("lineWidth", WasmFormatter.Gives "80");
           ("__proto__", WasmFormatter.Gives "x")]
          sampleFormatter)
     = Some (@WasmFormatter.Build_Formatter samplePlugin true 8
               {| sharedBytes := list_byte_of_string "{}";
                  linearMemory := list_byte_of_string "{}" ++ repeat Byte.x00 6;
                  formatResult := [] |}).
Proof.
  split; [| split].
  - apply (proj1 (getPluginConfigWithStringProps_keeps_keys (plugin := samplePlugin)
                    [("lineWidth", WasmFormatter.Gives "80");
                     ("__proto__", WasmFormatter.Gives "x");
                     ("useTabs", WasmFormatter.Gives "true")])).
    exists [("lineWidth", "80"); ("__proto__", "x"); ("useTabs", "true")].
    split; reflexivity.
  - apply (proj2 (getPluginConfigWithStringProps_keeps_keys (plugin := samplePlugin)
                    [("lineWidth", WasmFormatter.Gives "80");
                     ("useTabs", WasmFormatter.Throws WasmFormatter.TypeError);
                     ("quotes", WasmFormatter.Throws (WasmFormatter.Error "boom"))])).
    exists [("lineWidth", "80")], "useTabs",
      [("quotes", WasmFormatter.Throws (WasmFormatter.Error "boom"))].
    reflexivity.
  - rewrite (proj2 (proj2 (getPluginConfigWithStringProps_keeps_keys
                             (plugin := samplePlugin)
                             [("lineWidth", WasmFormatter.Gives "80");
                              ("__proto__", WasmFormatter.Gives "x")]))
               1%nat tt [("lineWidth", "80"); ("__proto__", "x")] sampleFormatter
               (@WasmFormatter.Build_Formatter samplePlugin false 8
                  {| sharedBytes := list_byte_of_string "{}";
                     linearMemory := list_byte_of_string "{}" ++ repeat Byte.x00 6;
                     formatResult := [] |})
               0
               (@WasmFormatter.Build_Formatter samplePlugin false 8
                  {| sharedBytes := list_byte_of_string "{}";
                     linearMemory := list_byte_of_string "{}" ++ repeat Byte.x00 6;
                     formatResult := [] |})
               eq_refl eq_refl eq_refl).
    vm_compute. reflexivity.
Defined.

(** [setConfig] with a missing value, and [formatText] after it. *)
Lemma setConfig_refuses_missing_value_witness :
  exists st,
    WasmFormatter.setConfig (plugin := samplePlugin) 1 tt
      [("useTabs", WasmFormatter.Throws WasmFormatter.TypeError)]
      sampleFormatter
    = WasmFormatter.Threw WasmFormatter.TypeError st
    /\ WasmFormatter.formatText (plugin := samplePlugin) 1 "a.ts" "x" st
       = WasmFormatter.Threw (WasmFormatter.Error WasmFormatter.notSetMessage) st.
Proof.
  eexists.
  destruct (setConfig_refuses_missing_value (plugin := samplePlugin) 1 tt
              [] "useTabs" WasmFormatter.TypeError [] sampleFormatter _ 0 _
              eq_refl eq_refl)
    as (Hthrown & _ & Hrefused).
  split; [exact Hthrown | apply Hrefused; reflexivity].
Defined.

(** [setConfig] and [formatText] on the sample formatter. *)
Lemma methods_keep_buffer_size_and_configuration_witness :
  exists st,
    WasmFormatter.performAll (plugin := samplePlugin) 1
      [@WasmFormatter.CallSetConfig samplePlugin tt []; WasmFormatter.CallFormatText "a.ts" "x"]
      sampleFormatter
    = Some st
    /\ WasmFormatter.bufferSize st = 8.
Proof.
  eexists. split; [vm_compute; reflexivity |].
  refine (proj1 (methods_keep_buffer_size_and_configuration (plugin := samplePlugin) 1
                   [@WasmFormatter.CallSetConfig samplePlugin tt [];
                    WasmFormatter.CallFormatText "a.ts" "x"]
                   sampleFormatter _ _)).
  vm_compute. reflexivity.
Defined.

Lemma every_call_sequence_comes_back_witness :
  exists fuel0 st,
    forall fuel, (fuel0 <= fuel)%nat ->
      WasmFormatter.performAll (plugin := samplePlugin) fuel
        [@WasmFormatter.CallSetConfig samplePlugin tt []; WasmFormatter.CallFormatText "a.ts" "x"]
        sampleFormatter
      = Some st.
Proof.
  apply (every_call_sequence_comes_back (plugin := samplePlugin)
           [@WasmFormatter.CallSetConfig samplePlugin tt []; WasmFormatter.CallFormatText "a.ts" "x"]
           sampleFormatter).
  reflexivity.
Defined.

(** * Further properties of the translator *)

(** ** What translation does to the context *)

Set Warnings "-clear-no-such-hyp".

Lemma idsOf_app a b : idsOf (a ++ b) = idsOf a ∪ idsOf b.
Proof. unfold idsOf. rewrite fmap_app. set_solver. Qed.

Lemma idsOf_nil : idsOf [] = ∅.
Proof. reflexivity. Qed.

Lemma idsOf_cons x rest : idsOf (x :: rest) = {[comment_id x]} ∪ idsOf rest.
Proof. reflexivity. Qed.

Lemma idsOf_filter select comments : idsOf (List.filter select comments) ⊆ idsOf comments.
Proof.
  induction comments as [| x rest IH]; simpl; [set_solver |].
  destruct (select x); rewrite ?idsOf_cons; set_solver.
Qed.

Lemma idsOf_find select comments x :
  List.find select comments = Some x -> comment_id x ∈ idsOf comments.
Proof.
  induction comments as [| y rest IH]; simpl; [discriminate |].
  rewrite idsOf_cons. destruct (select y); [intros [= ->] | intros H]; set_solver.
Qed.

Lemma commentsOf_app a b : commentsOf (a ++ b) = commentsOf a ∪ commentsOf b.
Proof. unfold commentsOf. rewrite flat_map_app. apply idsOf_app. Qed.

Lemma commentsOf_cons node rest :
  commentsOf (node :: rest) = idsOf (ownComments node) ∪ commentsOf rest.
Proof. unfold commentsOf. simpl. apply idsOf_app. Qed.

Lemma unknownNodes_app a b : unknownNodes (a ++ b) = unknownNodes a ++ unknownNodes b.
Proof. apply List.filter_app. Qed.

Lemma does_weaken {A} (m : M A) comments comments' unknown unknown' :
  Does m comments unknown -> comments = comments' -> unknown = unknown' ->
  Does m comments' unknown'.
Proof. intros H <- <-. exact H. Qed.

Lemma does_neutral {A} (m : M A) :
  Keeps m ->
  (forall c, handledComments (snd (m c)) = handledComments c
             /\ console (snd (m c)) = console c) ->
  Does m ∅ [].
Proof.
  intros Hkeeps Hsame. split; [exact Hkeeps |]. intros c.
  destruct (Hsame c) as [-> ->]. split; [set_solver | reflexivity].
Qed.

Lemma does_ret {A} (a : A) : Does (ret a) ∅ [].
Proof. apply does_neutral; [apply keeps_ret | intros c; split; reflexivity]. Qed.

Lemma does_read {A} (f : Context -> A) : Does (fun c => (f c, c)) ∅ [].
Proof. apply does_neutral; [apply keeps_read | intros c; split; reflexivity]. Qed.

Lemma does_yieldNewLine : Does yieldNewLine ∅ [].
Proof. apply (does_read (fun c => [PString (newLineKind c)])). Qed.

Lemma does_bind {A B} (m : M A) (k : A -> M B) comments1 comments2 unknown1 unknown2 :
  Does m comments1 unknown1 ->
  (forall a, Does (k a) comments2 unknown2) ->
  Does (bind m k) (comments1 ∪ comments2) (unknown1 ++ unknown2).
Proof.
  intros [Hkeeps Hm] Hk. split.
  - apply keeps_bind; [exact Hkeeps | intros a; apply Hk].
  - intros c. unfold bind. specialize (Hkeeps c). specialize (Hm c).
    destruct (m c) as [a c1]. simpl in *.
    destruct (Hk a) as [_ Hka]. destruct (Hka c1) as [Hhandled Hconsole].
    destruct Hm as [Hhandled1 Hconsole1]. split.
    + rewrite Hhandled, Hhandled1. set_solver.
    + rewrite Hconsole, Hconsole1, fold_left_app. unfold logUnknown.
      rewrite (same_log _ _ Hkeeps), (same_fileText _ _ Hkeeps). reflexivity.
Qed.

Lemma does_andThen (g1 g2 : Gen) comments1 comments2 unknown1 unknown2 :
  Does g1 comments1 unknown1 -> Does g2 comments2 unknown2 ->
  Does (g1 ;;; g2) (comments1 ∪ comments2) (unknown1 ++ unknown2).
Proof.
  intros H1 H2. unfold andThen.
  apply does_bind; [exact H1 | intros a].
  eapply does_weaken;
    [apply does_bind; [exact H2 | intros b; apply does_ret]
    | set_solver | apply app_nil_r].
Qed.

Lemma does_created {A} (m : M A) :
  Keeps m -> (forall c, exists n, snd (m c) = withNextId n c) -> Does m ∅ [].
Proof.
  intros Hkeeps Hid. apply does_neutral; [exact Hkeeps |].
  intros c. destruct (Hid c) as [n ->]. split; reflexivity.
Qed.

Lemma does_createInfo name : Does (createInfo name) ∅ [].
Proof. apply does_created; [apply keeps_createInfo | intros c; eexists; reflexivity]. Qed.

Lemma does_createCondition name r t f : Does (createCondition name r t f) ∅ [].
Proof.
  apply does_created; [apply keeps_createCondition | intros c; eexists; reflexivity].
Qed.

Lemma does_newLineIfHanging info : Does (newLineIfHangingSpaceOtherwise info) ∅ [].
Proof.
  apply does_created; [apply keeps_newLineIfHanging | intros c; eexists; reflexivity].
Qed.

Lemma does_yieldIf_option (flag : Context -> bool) (s : string) :
  Does (fun c => yieldIf (flag c) (yieldString s) c) ∅ [].
Proof.
  apply does_neutral; [apply keeps_yieldIf_option, keeps_ret |].
  intros c. destruct (flag c); split; reflexivity.
Qed.

Lemma does_parseComment comment : Does (parseComment comment) {[comment_id comment]} [].
Proof.
  split; [apply keeps_parseComment |]. intros c. unfold parseComment.
  destruct (isHandled comment c) eqn:Hhandled.
  - apply isHandled_true in Hhandled. split; [set_solver | reflexivity].
  - destruct (comment_type comment); split; simpl; try reflexivity; set_solver.
Qed.

Lemma does_parseCommentCollection comments lastNode :
  Does (parseCommentCollection comments lastNode) (idsOf comments) [].
Proof.
  revert lastNode. induction comments as [| comment rest IH]; intros lastNode.
  - apply does_ret.
  - split; [apply keeps_parseCommentCollection |]. intros c. simpl.
    destruct (isHandled comment c) eqn:Hhandled.
    + apply isHandled_true in Hhandled.
      destruct (IH lastNode) as [_ Hrest]. destruct (Hrest c) as [-> ->].
      rewrite idsOf_cons. split; [set_solver | reflexivity].
    + assert (Hstep : Does
        ((ret (commentSeparator (newLineKind c) lastNode comment))
         ;;; parseComment comment
         ;;; parseCommentCollection rest (Some (LastIsComment comment)))
        (idsOf (comment :: rest)) []).
      { eapply does_weaken;
          [ apply does_andThen;
            [apply does_ret
            | apply does_andThen; [apply does_parseComment | apply IH]]
          | rewrite idsOf_cons; set_solver
          | reflexivity ]. }
      destruct Hstep as [_ Hstep]. apply Hstep.
Qed.

Lemma does_parseLeadingComments node :
  Does (parseLeadingComments node) (idsOf (default [] (leadingComments (base node)))) [].
Proof.
  unfold parseLeadingComments. destruct (leadingComments (base node)); simpl.
  - apply does_parseCommentCollection.
  - apply does_ret.
Qed.

Lemma does_parseTrailingComments node :
  Does (parseTrailingComments node)
    (idsOf (default [] (trailingComments (base node)))) [].
Proof.
  unfold parseTrailingComments. destruct (trailingComments (base node)); simpl.
  - apply does_parseCommentCollection.
  - apply does_ret.
Qed.

Lemma does_unknown rsi b type hasBodyProperty :
  Does (parseUnknownNode rsi b type) ∅ [Other b type hasBodyProperty].
Proof.
  split; [apply keeps_unknown |]. intros c. split; [simpl; set_solver | reflexivity].
Qed.

(** The steps a proof of [Does] is made of; the set and the list are
    found on the way. *)
Ltac does_step :=
  match goal with
  | |- Does (ret _) _ _ => apply does_ret
  | |- Does yieldNothing _ _ => apply does_ret
  | |- Does (yield _) _ _ => apply does_ret
  | |- Does (yieldString _) _ _ => apply does_ret
  | |- Does yieldNewLine _ _ => apply does_yieldNewLine
  | |- Does getContext _ _ => apply (does_read (fun c => c))
  | |- Does (createInfo _) _ _ => apply does_createInfo
  | |- Does (createCondition _ _ _ _) _ _ => apply does_createCondition
  | |- Does (newLineIfHangingSpaceOtherwise _) _ _ => apply does_newLineIfHanging
  | |- Does (parseComment _) _ _ => apply does_parseComment
  | |- Does (parseCommentCollection _ _) _ _ => apply does_parseCommentCollection
  | |- Does (parseLeadingComments _) _ _ => apply does_parseLeadingComments
  | |- Does (parseTrailingComments _) _ _ => apply does_parseTrailingComments
  | |- Does (fun c => yieldIf _ (yieldString _) c) _ _ => apply does_yieldIf_option
  | |- Does (_ ;;; _) _ _ => apply does_andThen
  | |- Does (bind _ _) _ _ => apply does_bind; [| intros ?]
  | H : Does ?m _ _ |- Does ?m _ _ => exact H
  end.

Ltac does := repeat does_step.

(** The lists that are the same up to the grouping of [++]. *)
Ltac same_nodes :=
  rewrite ?unknownNodes_app; simpl;
  repeat rewrite app_nil_r; repeat rewrite <- app_assoc; reflexivity.

#[local] Typeclasses Opaque idsOf commentsOf.

(** The sets that are the same as unions of the same parts. *)
Lemma commentsOf_nil : commentsOf [] = ∅.
Proof. reflexivity. Qed.

Ltac same_comments :=
  cbn [flat_map app];
  rewrite ?commentsOf_app, ?commentsOf_cons, ?commentsOf_nil, ?idsOf_app, ?idsOf_nil;
  set_unfold;
  first
    [ tauto
    | let x := fresh "x" in
      intros x;
      repeat match goal with
             | H : forall y, _ ∈ _ -> _ |- _ => specialize (H x)
             end;
      tauto
    | set_solver ].

(** [translatedNodes] is the node in front of [translatedBelow]. *)
Ltac translated_loop :=
  match goal with
  | |- _ ?nodes = flat_map translatedNodes ?nodes =>
      let IH := fresh "IH" in
      induction nodes as [| ? ? IH]; simpl; [reflexivity | rewrite IH; reflexivity]
  | |- _ ?nodes = flat_map translatedNodes (List.filter ?select ?nodes) =>
      let IH := fresh "IH" in
      induction nodes as [| n ? IH]; simpl; [reflexivity |];
      destruct (select n); simpl; rewrite IH; reflexivity
  | |- _ ?nodes = from_option translatedNodes [] (List.find ?select ?nodes) =>
      let IH := fresh "IH" in
      induction nodes as [| n ? IH]; simpl; [reflexivity |];
      destruct (select n); simpl; [reflexivity | exact IH]
  end.

Lemma translatedNodes_unfold node :
  translatedNodes node = node :: translatedBelow node.
Proof.
  destruct node; simpl; f_equal;
    repeat match goal with
           | |- _ ++ _ = _ ++ _ => f_equal
           | |- context [match ?x with _ => _ end] => destruct x; simpl
           end;
    try reflexivity; try translated_loop.
Qed.

Section HandlersDo.

Variable parseNode : option Node -> M Group.

Let TranslatesNode (node : Node) : Prop :=
  Translates (parseNode (Some node)) [] (translatedNodes node).

Lemma translates_nothing {A} (m : M A) : Does m ∅ [] -> Translates m [] [].
Proof. intros H. eapply does_weaken; [exact H | same_comments | reflexivity]. Qed.

Lemma translates_andThen (g1 g2 : Gen) extra1 extra2 nodes1 nodes2 :
  Translates g1 extra1 nodes1 -> Translates g2 extra2 nodes2 ->
  Translates (g1 ;;; g2) (extra1 ++ extra2) (nodes1 ++ nodes2).
Proof.
  intros H1 H2. unfold Translates in *.
  eapply does_weaken; [apply does_andThen; [exact H1 | exact H2] | |].
  - same_comments.
  - same_nodes.
Qed.

Lemma translates_yieldNode node :
  TranslatesNode node ->
  Translates (yieldNode parseNode (Some node)) [] (translatedNodes node).
Proof.
  intros H. unfold yieldNode, Translates.
  eapply does_weaken; [apply does_bind; [exact H | intros g; apply does_ret] | |].
  - same_comments.
  - apply app_nil_r.
Qed.

Lemma translates_parameterList separator params :
  Forall TranslatesNode params -> Does separator ∅ [] ->
  Translates (parseParameterListItems parseNode separator params) []
    (flat_map translatedNodes params).
Proof.
  intros Hall Hsep. induction Hall as [| param rest Hparam Hrest IH].
  - apply translates_nothing, does_ret.
  - simpl. destruct rest as [| next rest'].
    + simpl. rewrite app_nil_r. apply translates_yieldNode, Hparam.
    + apply (translates_andThen _ _ [] [] _ _ (translates_yieldNode _ Hparam)).
      apply (translates_andThen _ _ [] [] [] _);
        [apply translates_nothing, does_ret |].
      apply (translates_andThen _ _ [] [] [] _);
        [apply translates_nothing, Hsep | exact IH].
Qed.

Lemma translates_separated select separator atFirst nodes :
  Forall TranslatesNode nodes -> Does separator ∅ [] ->
  Translates (parseSeparatedItems parseNode select separator atFirst nodes) []
    (flat_map translatedNodes (List.filter select nodes)).
Proof.
  intros Hall Hsep. revert atFirst.
  induction Hall as [| node rest Hnode Hrest IH]; intros atFirst.
  - apply translates_nothing, does_ret.
  - simpl. destruct (select node); [| apply IH]. simpl.
    apply (translates_andThen _ _ [] [] [] _).
    { apply translates_nothing. destruct atFirst; [apply does_ret | exact Hsep]. }
    apply (translates_andThen _ _ [] [] _ _ (translates_yieldNode _ Hnode)).
    apply IH.
Qed.

Lemma translates_firstNode select nodes :
  Forall TranslatesNode nodes ->
  Translates (yieldFirstNode parseNode select nodes) []
    (match List.find select nodes with
     | Some node => translatedNodes node
     | None => []
     end).
Proof.
  intros Hall. induction Hall as [| node rest Hnode Hrest IH]; simpl.
  - apply translates_nothing, does_ret.
  - destruct (select node); [apply translates_yieldNode, Hnode | exact IH].
Qed.

Lemma translates_statementsFrom previous statements :
  Forall TranslatesNode statements ->
  Translates (parseStatementsFrom parseNode previous statements) []
    (flat_map translatedNodes statements).
Proof.
  intros Hall. revert previous.
  induction Hall as [| statement rest Hnode Hrest IH]; intros previous.
  - apply translates_nothing, does_ret.
  - simpl. apply (translates_andThen _ _ [] [] [] _).
    { apply translates_nothing. destruct previous; [| apply does_ret].
      apply (does_read (fun context => statementSeparator (newLineKind context) _ _)). }
    apply (translates_andThen _ _ [] [] _ _ (translates_yieldNode _ Hnode)).
    apply IH.
Qed.

Lemma translates_parseStatements body block :
  Forall TranslatesNode body ->
  Translates (parseStatements parseNode body block)
    (default [] (innerComments block)) (flat_map translatedNodes body).
Proof.
  intros Hall. unfold parseStatements.
  eapply does_weaken;
    [ apply does_andThen;
      [ apply (translates_statementsFrom None body Hall)
      | instantiate (1 := []); instantiate (1 := idsOf (default [] (innerComments block)));
        destruct (innerComments block); [apply does_parseCommentCollection | apply does_ret] ]
    | | ].
  - same_comments.
  - apply app_nil_r.
Qed.

Lemma translates_parametersOrArguments params :
  Forall TranslatesNode params ->
  Translates (parseParametersOrArguments parseNode params) []
    (flat_map translatedNodes params).
Proof.
  intros Hall.
  assert (Hlist : forall separator, Does separator ∅ [] ->
    Does (parseParameterListItems parseNode separator params)
      (idsOf [] ∪ commentsOf (flat_map translatedNodes params))
      (unknownNodes (flat_map translatedNodes params))).
  { intros separator Hsep. apply translates_parameterList; assumption. }
  unfold parseParametersOrArguments, surroundWithNewLines, withIndent,
    withHangingIndent, Translates.
  destruct (useNewLinesForParametersOrArguments params);
    (eapply does_weaken;
     [ does; apply Hlist; does | same_comments | simpl; rewrite ?app_nil_r; reflexivity ]).
Qed.

Lemma translates_typeParameterDeclaration params :
  Forall TranslatesNode params ->
  Translates (yieldTypeParameterDeclaration parseNode params) []
    (flat_map translatedNodes params).
Proof.
  intros Hall.
  pose proof (translates_parameterList (yield (PBehaviour SpaceOrNewLine)) params
                Hall (does_ret _)) as Hlist.
  unfold yieldTypeParameterDeclaration, parseTypeParameterDeclaration,
    surroundWithNewLines, withIndent, withHangingIndent, Translates in *.
  destruct (getUseNewLinesForNodes params);
    (eapply does_weaken;
     [ does | same_comments | simpl; rewrite ?app_nil_r; reflexivity ]).
Qed.

Lemma does_firstLineTrailingComments block comments :
  Does (getFirstLineTrailingComments block comments)
    (idsOf (List.filter
              (fun comment => Z.eqb (commentStartLine comment) (startLine block))
              comments))
    [].
Proof.
  induction comments as [| comment rest IH]; simpl; [apply does_ret |].
  destruct (Z.eqb (commentStartLine comment) (startLine block)).
  - eapply does_weaken;
      [ apply does_andThen; [| exact IH];
        apply does_andThen; [| apply does_parseComment];
        instantiate (1 := []); instantiate (1 := ∅);
        destruct (comment_type comment); apply does_ret
      | rewrite idsOf_cons; same_comments
      | reflexivity ].
  - eapply does_weaken;
      [ apply does_andThen; [apply does_ret | exact IH] | same_comments | reflexivity ].
Qed.

Hypothesis parseNode_null : parseNode None = ret (mkGroup []).

Lemma does_yieldIf_string (flag : bool) (s : string) :
  Does (yieldIf flag (yieldString s)) ∅ [].
Proof. destruct flag; apply does_ret. Qed.

Lemma does_yieldNode_null : Does (yieldNode parseNode None) ∅ [].
Proof.
  unfold yieldNode. rewrite parseNode_null.
  eapply does_weaken;
    [apply does_bind; [apply does_ret | intros g; apply does_ret]
    | same_comments | reflexivity].
Qed.

(** The steps with the handlers' own loops. *)
Ltac does_handler :=
  repeat first
    [ does_step
    | apply does_yieldIf_string
    | apply does_yieldIf_option
    | apply does_yieldNode_null
    | apply does_firstLineTrailingComments
    | match goal with
      | H : TranslatesNode ?n |- Does (yieldNode parseNode (Some ?n)) _ _ =>
          apply (translates_yieldNode n H)
      | H : Forall TranslatesNode ?l |- Does (parseStatements parseNode ?l ?b) _ _ =>
          apply (translates_parseStatements l b H)
      | H : Forall TranslatesNode ?l |- Does (parseParametersOrArguments parseNode ?l) _ _ =>
          apply (translates_parametersOrArguments l H)
      | H : Forall TranslatesNode ?l
        |- Does (yieldTypeParameterDeclaration parseNode ?l) _ _ =>
          apply (translates_typeParameterDeclaration l H)
      end ].

Ltac neutral := eapply does_weaken; [does_handler | same_comments | reflexivity].

Ltac translates :=
  unfold Translates;
  eapply does_weaken; [does_handler | try same_comments | try same_nodes].

Lemma translates_parseBlockStatement b body :
  Forall TranslatesNode body ->
  Translates (parseBlockStatement parseNode b body)
    (List.filter (fun comment => Z.eqb (commentStartLine comment) (startLine b))
       (default [] (trailingComments b))
     ++ default [] (innerComments b))
    (flat_map translatedNodes body).
Proof.
  intros Hall. unfold parseBlockStatement, withIndent.
  destruct (trailingComments b); simpl; translates.
Qed.

Lemma translates_parseImportDeclaration b specifiers source :
  Forall TranslatesNode specifiers -> TranslatesNode source ->
  Translates (parseImportDeclaration parseNode b specifiers source) []
    (translatedBelow (ImportDeclaration b specifiers source)).
Proof.
  intros Hall Hsource.
  pose proof (translates_firstNode (isType "ImportDefaultSpecifier") specifiers Hall)
    as Hdefault.
  pose proof (translates_firstNode (isType "ImportNamespaceSpecifier") specifiers Hall)
    as Hnamespace.
  assert (Hnamed : forall separator, Does separator ∅ [] ->
    Translates
      (parseSeparatedItems parseNode (isType "ImportSpecifier") separator true
         specifiers)
      [] (flat_map translatedNodes (List.filter (isType "ImportSpecifier") specifiers))).
  { intros separator Hsep. apply translates_separated; assumption. }
  unfold parseImportDeclaration, withIndent, withHangingIndent.
  cbn [translatedBelow].
  remember (List.filter (isType "ImportSpecifier") specifiers) as namedImports.
  destruct (List.find (isType "ImportDefaultSpecifier") specifiers);
    destruct (List.find (isType "ImportNamespaceSpecifier") specifiers);
    destruct namedImports as [| named rest];
    cbn [List.length Nat.eqb Nat.ltb Nat.leb orb from_option present yieldIf] in *;
    try destruct (getUseNewLines b (named :: rest));
    unfold Translates in *;
    (eapply does_weaken;
     [ repeat first
         [ exact Hdefault | exact Hnamespace
         | apply Hnamed; neutral
         | does_handler ]
     | try same_comments | try same_nodes ]).
Qed.

Lemma translates_parseFunctionDeclaration async generator id typeParameters params
    returnType body b :
  match id with Some n => TranslatesNode n | None => True end ->
  match typeParameters with
  | Some (TypeParameterDeclaration declared) => Forall TranslatesNode declared
  | _ => True
  end ->
  Forall TranslatesNode params ->
  match returnType with
  | Some (TypeAnnotation typeAnnotation) => TranslatesNode typeAnnotation
  | _ => True
  end ->
  TranslatesNode body ->
  Translates (parseFunctionDeclaration parseNode async generator id typeParameters
                params returnType body)
    []
    (translatedBelow
       (FunctionDeclaration b async generator id typeParameters params returnType body)).
Proof.
  intros Hid Htypes Hparams Hreturn Hbody.
  unfold parseFunctionDeclaration. cbn [translatedBelow].
  destruct id; destruct typeParameters as [[] |]; destruct returnType as [[] |];
    cbn [from_option]; translates.
Qed.

Lemma translates_parseTypeAlias id typeParameters typeAnnotation b :
  TranslatesNode id ->
  match typeParameters with
  | Some declared => Forall TranslatesNode declared
  | None => True
  end ->
  TranslatesNode typeAnnotation ->
  Translates (parseTypeAlias parseNode id typeParameters typeAnnotation) []
    (translatedBelow (TSTypeAliasDeclaration b id typeParameters typeAnnotation)).
Proof.
  intros Hid Htypes Hannotation. unfold parseTypeAlias. cbn [translatedBelow].
  destruct typeParameters; translates.
Qed.

Lemma translates_parseConsequent consequent :
  TranslatesNode consequent ->
  match consequent with
  | BlockStatement _ body => Forall TranslatesNode body
  | _ => True
  end ->
  Translates (parseConsequent parseNode consequent) [] (translatedNodes consequent).
Proof.
  intros Hconsequent Hbody. unfold parseConsequent, withIndent.
  destruct consequent; try solve [translates].
  rewrite translatedNodes_unfold. cbn [translatedBelow].
  unfold Translates.
  eapply does_weaken; [does_handler | | try same_nodes].
  rewrite commentsOf_cons. unfold ownComments. cbn [base].
  same_comments.
Qed.

Lemma headerTrailingComments_visited consequent :
  idsOf (getHeaderTrailingComments consequent) ⊆ commentsOf (translatedNodes consequent).
Proof.
  assert (Hleading : forall node,
    idsOf (checkLeadingComments consequent node) ⊆ commentsOf (translatedNodes node)).
  { intros node. rewrite translatedNodes_unfold, commentsOf_cons.
    unfold checkLeadingComments, ownComments, checkComments.
    destruct (leadingComments (base node)) as [comments |]; simpl; [| same_comments].
    pose proof (idsOf_filter
                  (fun comment =>
                     Z.eqb (commentStartLine comment) (startLine (base consequent)))
                  comments).
    rewrite idsOf_app. same_comments. }
  destruct consequent; try apply Hleading.
  rewrite translatedNodes_unfold, commentsOf_cons. cbn [translatedBelow].
  unfold getHeaderTrailingComments, ownComments. simpl.
  destruct (leadingComments b) as [leading |] eqn:Hb; simpl.
  - destruct (List.find isCommentLine leading) as [commentLine |] eqn:Hfound.
    + apply idsOf_find in Hfound. rewrite idsOf_app, idsOf_cons. same_comments.
    + destruct body as [| first rest].
      * unfold checkComments.
        destruct (innerComments b) as [inner |]; simpl; [| same_comments].
        pose proof (idsOf_filter
                      (fun comment =>
                         Z.eqb (commentStartLine comment)
                               (startLine (base (BlockStatement b []))))
                      inner).
        rewrite !idsOf_app. simpl in *. same_comments.
      * specialize (Hleading first). simpl. rewrite commentsOf_app. same_comments.
  - destruct body as [| first rest].
    + unfold checkComments.
      destruct (innerComments b) as [inner |]; simpl; [| same_comments].
      pose proof (idsOf_filter
                    (fun comment =>
                       Z.eqb (commentStartLine comment)
                             (startLine (base (BlockStatement b []))))
                    inner).
      rewrite !idsOf_app. simpl in *. same_comments.
    + specialize (Hleading first). simpl. rewrite commentsOf_app. same_comments.
Qed.

Lemma translates_parseIfStatement test consequent :
  TranslatesNode test -> TranslatesNode consequent ->
  match consequent with
  | BlockStatement _ body => Forall TranslatesNode body
  | _ => True
  end ->
  Translates (parseIfStatement parseNode test consequent) []
    (translatedNodes test ++ translatedNodes consequent).
Proof.
  intros Htest Hconsequent Hbody.
  pose proof (translates_parseConsequent consequent Hconsequent Hbody) as Hbranch.
  pose proof (headerTrailingComments_visited consequent) as Hheader.
  unfold parseIfStatement, Translates in *.
  eapply does_weaken; [does_handler | | try same_nodes].
  rewrite ?commentsOf_app, ?idsOf_nil. same_comments.
Qed.

Lemma translates_parseTypeParameter name constraint default_ b :
  match constraint with Some n => TranslatesNode n | None => True end ->
  match default_ with Some n => TranslatesNode n | None => True end ->
  Translates (parseTypeParameter parseNode name constraint default_) []
    (translatedBelow (TSTypeParameter b name constraint default_)).
Proof.
  intros Hconstraint Hdefault. unfold parseTypeParameter. cbn [translatedBelow].
  destruct constraint; destruct default_; cbn [from_option]; translates.
Qed.

Lemma translates_parseUnionType types :
  Forall TranslatesNode types ->
  Translates (parseUnionType parseNode types) [] (flat_map translatedNodes types).
Proof.
  intros Hall.
  assert (Hlist : forall separator, Does separator ∅ [] ->
    Translates (parseSeparatedItems parseNode (fun _ => true) separator true types)
      [] (flat_map translatedNodes types)).
  { intros separator Hsep.
    pose proof (translates_separated (fun _ => true) separator true types Hall Hsep)
      as H.
    replace (List.filter (fun _ : Node => true) types) with types in H; [exact H |].
    clear. induction types as [| t rest IH]; simpl; [reflexivity | f_equal; exact IH]. }
  unfold parseUnionType, withHangingIndent, Translates in *.
  destruct (getUseNewLinesForNodes types);
    (eapply does_weaken;
     [ repeat first [apply Hlist; neutral | does_handler]
     | try same_comments | try same_nodes ]).
Qed.

Lemma translates_parseExportNamedDeclaration declaration :
  match declaration with Some n => TranslatesNode n | None => True end ->
  Translates (parseExportNamedDeclaration parseNode declaration) []
    (from_option translatedNodes [] declaration).
Proof.
  intros Hdeclaration. unfold parseExportNamedDeclaration.
  destruct declaration; cbn [from_option]; translates.
Qed.

Lemma translates_parseExpressionStatement expression :
  TranslatesNode expression ->
  Translates (parseExpressionStatement parseNode expression) []
    (translatedNodes expression).
Proof. intros Hexpression. unfold parseExpressionStatement. translates. Qed.

Lemma translates_parseCallExpression callee arguments :
  TranslatesNode callee -> Forall TranslatesNode arguments ->
  Translates (parseCallExpression parseNode callee arguments) []
    (translatedNodes callee ++ flat_map translatedNodes arguments).
Proof. intros Hcallee Harguments. unfold parseCallExpression. translates. Qed.

Lemma translates_parseImportDefaultSpecifier local :
  TranslatesNode local ->
  Translates (parseImportDefaultSpecifier parseNode local) [] (translatedNodes local).
Proof. intros Hlocal. unfold parseImportDefaultSpecifier. translates. Qed.

Lemma translates_parseImportNamespaceSpecifier local :
  TranslatesNode local ->
  Translates (parseImportNamespaceSpecifier parseNode local) []
    (translatedNodes local).
Proof. intros Hlocal. unfold parseImportNamespaceSpecifier. translates. Qed.

Lemma translates_parseImportSpecifier imported local b :
  TranslatesNode imported -> TranslatesNode local ->
  Translates (parseImportSpecifier parseNode imported local) []
    (translatedBelow (ImportSpecifier b imported local)).
Proof.
  intros Himported Hlocal. unfold parseImportSpecifier. cbn [translatedBelow].
  destruct (Nat.eqb (start (base imported)) (start (base local))); translates.
Qed.

Lemma translates_leaf node :
  match node with
  | Identifier _ _ | StringLiteral _ _ | BooleanLiteral _ _ | KeywordNode _ _ => True
  | _ => False
  end ->
  forall rsi, Translates (Parser.parseFunc rsi parseNode node) [] (translatedBelow node).
Proof.
  intros Hleaf rsi. destruct node; try contradiction;
    cbn [Parser.parseFunc translatedBelow]; apply translates_nothing.
  - apply does_ret.
  - unfold parseStringLiteral.
    apply does_neutral.
    + intros c. destruct (singleQuotes (options c)); apply Extends_refl.
    + intros c. destruct (singleQuotes (options c)); split; reflexivity.
  - apply does_ret.
  - apply does_ret.
Qed.

End HandlersDo.

Section TranslatorEffects.

Variable removeStringIndentation : string -> Z -> (Z -> bool) -> string.

Abbreviation parseNodePresent := (Parser.parseNodePresent removeStringIndentation).
Abbreviation parseNode := (Parser.parseNode removeStringIndentation).
Abbreviation parseFunc := (Parser.parseFunc removeStringIndentation).

Lemma translates_node node extra :
  Translates (parseFunc parseNode node) extra (translatedBelow node) ->
  idsOf (default [] (leadingComments (base node))) ∪ idsOf extra
  ∪ idsOf (default [] (trailingComments (base node)))
  = idsOf (ownComments node) ->
  isUnknown node = false ->
  Translates (parseNodePresent node) [] (translatedNodes node).
Proof.
  intros Hhandler Hown Hknown.
  rewrite parseNodePresent_unfold, translatedNodes_unfold.
  unfold getWithComments, Translates in *.
  eapply does_weaken;
    [ apply does_bind;
      [ apply does_andThen;
        [ apply does_parseLeadingComments
        | apply does_andThen; [exact Hhandler | apply does_parseTrailingComments] ]
      | intros parsed; apply does_ret ]
    | | ].
  - rewrite commentsOf_cons, <- Hown. same_comments.
  - unfold unknownNodes. simpl. rewrite Hknown.
    repeat rewrite app_nil_r. reflexivity.
Qed.

Lemma translates_unknown b type hasBodyProperty :
  Translates (parseNodePresent (Other b type hasBodyProperty)) []
    (translatedNodes (Other b type hasBodyProperty)).
Proof.
  rewrite parseNodePresent_unfold.
  unfold getWithComments, Translates. cbn [Parser.parseFunc translatedNodes].
  eapply does_weaken;
    [ apply does_bind;
      [ apply does_andThen;
        [ apply does_parseLeadingComments
        | apply does_andThen;
          [apply (does_unknown _ b type hasBodyProperty)
          | apply does_parseTrailingComments] ]
      | intros parsed; apply does_ret ]
    | | reflexivity ].
  rewrite commentsOf_cons. unfold ownComments. cbn [base]. same_comments.
Qed.

Lemma translates_with_children node :
  Translates (parseNodePresent node) [] (translatedNodes node)
  /\ TranslatesBelow removeStringIndentation node.
Proof.
  assert (weaken : forall nodes,
    Forall (fun n => Translates (parseNodePresent n) [] (translatedNodes n)
                     /\ TranslatesBelow removeStringIndentation n) nodes ->
    Forall (fun n => Translates (parseNode (Some n)) [] (translatedNodes n)) nodes).
  { intros nodes H. eapply Forall_impl; [exact H | intros ? []; assumption]. }
  assert (own : forall node,
    match node with Program _ _ | BlockStatement _ _ => False | _ => True end ->
    idsOf (default [] (leadingComments (base node))) ∪ idsOf []
    ∪ idsOf (default [] (trailingComments (base node)))
    = idsOf (ownComments node)).
  { intros n Hkind. unfold ownComments. destruct n; try contradiction; same_comments. }
  induction node using Node_tree_ind;
    (split; [| simpl; auto; apply weaken; assumption]);
    try (eapply translates_node; [| apply own; exact I | reflexivity]).
  - apply (translates_node _ (default [] (innerComments b)));
      [| unfold ownComments; cbn [base]; same_comments | reflexivity].
    apply translates_parseStatements, weaken. assumption.
  - apply (translates_node _
             (List.filter
                (fun comment => Z.eqb (commentStartLine comment) (startLine b))
                (default [] (trailingComments b))
              ++ default [] (innerComments b)));
      [| | reflexivity].
    + apply translates_parseBlockStatement;
        [reflexivity | apply weaken; assumption].
    + pose proof (idsOf_filter
                    (fun comment => Z.eqb (commentStartLine comment) (startLine b))
                    (default [] (trailingComments b))).
      unfold ownComments. cbn [base]. same_comments.
  - apply translates_leaf. exact I.
  - apply translates_parseExportNamedDeclaration; try reflexivity.
    destruct declaration; simpl in *; tauto.
  - apply translates_parseFunctionDeclaration; try reflexivity.
    + destruct id; simpl in *; tauto.
    + destruct typeParameters as [[] |]; simpl in *; auto.
    + apply weaken. assumption.
    + destruct returnType as [[] |]; simpl in *; tauto.
    + tauto.
  - apply translates_parseTypeAlias; try reflexivity; try tauto.
    destruct typeParameters; simpl in *; auto.
  - apply translates_parseImportDeclaration; try reflexivity;
      [apply weaken; assumption | tauto].
  - apply translates_parseExpressionStatement; try reflexivity. tauto.
  - apply translates_parseIfStatement; try reflexivity; tauto.
  - apply translates_parseCallExpression; try reflexivity;
      [tauto | apply weaken; assumption].
  - apply translates_parseImportDefaultSpecifier; try reflexivity. tauto.
  - apply translates_parseImportNamespaceSpecifier; try reflexivity. tauto.
  - apply translates_parseImportSpecifier; try reflexivity; tauto.
  - apply translates_leaf. exact I.
  - apply translates_leaf. exact I.
  - apply translates_leaf. exact I.
  - apply translates_parseTypeParameter; try reflexivity.
    + destruct constraint; simpl in *; tauto.
    + destruct default_; simpl in *; tauto.
  - apply translates_parseUnionType; try reflexivity. apply weaken. assumption.
  - apply translates_unknown.
Qed.

Variable resolveNewLineKindFromText : string -> string.

Abbreviation parseFile :=
  (Parser.parseFile removeStringIndentation resolveNewLineKindFromText).

Lemma does_parseFile_body file :
  Does
    (let* program := parseNode (Some (program file)) in
     let* context := getContext in
     let* endOfFileNewLine :=
       createCondition "endOfFileNewLine" (ResolveFunction endOfFileNewLineResolver)
         (Some [PString (newLineKind context)]) None in
     ret (mkGroup [PGroup program; PCondition endOfFileNewLine]))
    (commentsOf (translatedNodes (program file)))
    (unknownNodes (translatedNodes (program file))).
Proof.
  destruct (translates_with_children (program file)) as [Hprogram _].
  unfold Translates in Hprogram.
  eapply does_weaken;
    [ apply does_bind; [exact Hprogram | intros group];
      apply does_bind; [apply (does_read (fun c => c)) | intros context];
      apply does_bind; [apply does_createCondition | intros condition];
      apply does_ret
    | same_comments
    | repeat rewrite app_nil_r; reflexivity ].
Qed.

(** Translation marks as handled the comments it passes over, and no
    others: the leading and trailing comments of every node it
    translates and the inner comments of every program and block among
    them. A file is translated from the empty set, so that these are
    the comments handled at the end. *)
Theorem translation_handles_the_comments_passed_over :
  (forall node context,
     handledComments (snd (parseNode (Some node) context))
     = handledComments context ∪ idsOf (visitedComments node))
  /\ (forall file fileText options,
        handledComments (snd (parseFile file fileText options))
        = idsOf (visitedComments (program file))).
Proof.
  split.
  - intros node context.
    destruct (translates_with_children node) as [[_ Hnode] _].
    change (parseNode (Some node)) with (parseNodePresent node).
    destruct (Hnode context) as [-> _]. unfold visitedComments, commentsOf.
    same_comments.
  - intros file fileText options.
    destruct (does_parseFile_body file) as [_ Hfile].
    unfold Parser.parseFile.
    destruct (Hfile (newParseContext resolveNewLineKindFromText fileText options))
      as [-> _].
    unfold visitedComments, commentsOf. simpl. set_solver.
Qed.

Lemma known_kinds_have_handlers node :
  isUnknown node = false -> hasHandler (nodeType node) = true.
Proof. destruct node; try reflexivity; [destruct k; reflexivity | discriminate]. Qed.

Lemma unknownNodes_by_kind nodes :
  Forall (fun n => isUnknown n = true -> hasHandler (nodeType n) = false) nodes ->
  unknownNodes nodes = List.filter (fun n => negb (hasHandler (nodeType n))) nodes.
Proof.
  unfold unknownNodes.
  induction 1 as [| n rest Hn Hrest IH]; simpl; [reflexivity |].
  destruct (isUnknown n) eqn:Hunknown.
  - rewrite (Hn eq_refl). simpl. f_equal. exact IH.
  - rewrite (known_kinds_have_handlers n Hunknown). simpl. exact IH.
Qed.

(** The logging callback is called once for every node translated
    whose kind has no handler, in the order of translation, with the
    message that names the kind and quotes the text of the node, and it
    is not called otherwise: a tree of kinds with handlers is translated
    without a message. For a file, the lines written to the console are
    those messages behind "[dprint]: ". *)
Theorem translation_logs_the_unknown_nodes node :
  Forall (fun n => isUnknown n = true -> hasHandler (nodeType n) = false)
         (translatedNodes node) ->
  (forall context,
     console (snd (parseNode (Some node) context))
     = fold_left (logUnknown context)
         (List.filter (fun n => negb (hasHandler (nodeType n))) (translatedNodes node))
         (console context))
  /\ (Forall (fun n => hasHandler (nodeType n) = true) (translatedNodes node) ->
      forall context,
        console (snd (parseNode (Some node) context)) = console context)
  /\ (forall fileText options,
        console (snd (parseFile {| program := node |} fileText options))
        = map (fun n =>
                 "[dprint]: "
                 +:+ unknownNodeMessage (nodeType n)
                       (Js.substring fileText (start (base n)) (end_ (base n))))
            (List.filter (fun n => negb (hasHandler (nodeType n)))
               (translatedNodes node))).
Proof.
  intros Hkinds.
  pose proof (unknownNodes_by_kind _ Hkinds) as Hunknown.
  assert (Hconsole : forall context,
    console (snd (parseNode (Some node) context))
    = fold_left (logUnknown context)
        (List.filter (fun n => negb (hasHandler (nodeType n))) (translatedNodes node))
        (console context)).
  { intros context. destruct (translates_with_children node) as [[_ Hnode] _].
    change (parseNode (Some node)) with (parseNodePresent node).
    destruct (Hnode context) as [_ ->]. rewrite Hunknown. reflexivity. }
  split; [exact Hconsole | split].
  - intros Hall context. rewrite Hconsole.
    replace (List.filter (fun n => negb (hasHandler (nodeType n))) (translatedNodes node))
      with (@nil Node); [reflexivity |].
    clear -Hall. induction Hall as [| n rest Hn Hrest IH]; simpl; [reflexivity |].
    rewrite Hn. simpl. exact IH.
  - intros fileText options.
    destruct (does_parseFile_body {| program := node |}) as [_ Hfile].
    unfold Parser.parseFile.
    destruct (Hfile (newParseContext resolveNewLineKindFromText fileText options))
      as [_ ->].
    simpl program. rewrite Hunknown.
    generalize (List.filter (fun n => negb (hasHandler (nodeType n)))
                  (translatedNodes node)).
    intros nodes. unfold newParseContext. simpl console.
    assert (Hlog : forall out,
      fold_left
        (logUnknown
           {| fileText := fileText;
              log := fun message out => out ++ ["[dprint]: " +:+ message];
              options := options; handledComments := ∅;
              newLineKind :=
                match newLineKindOption options with
                | NewLineAuto => resolveNewLineKindFromText fileText
                | NewLineCRLF => CRLF
                | NewLineLF => LF
                end;
              console := []; nextId := 0 |})
        nodes out
      = out
        ++ map (fun n =>
                  "[dprint]: "
                  +:+ unknownNodeMessage (nodeType n)
                        (Js.substring fileText (start (base n)) (end_ (base n))))
             nodes).
    { induction nodes as [| n rest IH]; intros out; simpl.
      - symmetry. apply app_nil_r.
      - rewrite IH, <- app_assoc. reflexivity. }
    apply (Hlog []).
Qed.

End TranslatorEffects.

(** [x;] followed by [while (x) {}]: one line on the console. *)
Lemma translation_logs_the_unknown_nodes_witness :
  console (snd (translateFile {| program := twoStatements |} twoStatementsText
                  defaultOptions))
  = ["[dprint]: Not implemented node type: WhileStatement (while (x) {})"].
Proof.
  assert (Hkinds :
    Forall (fun n => isUnknown n = true -> hasHandler (nodeType n) = false)
           (translatedNodes twoStatements)).
  { repeat constructor; intros H; try discriminate H; reflexivity. }
  destruct (translation_logs_the_unknown_nodes keepText detectLF twoStatements Hkinds)
    as (_ & _ & Hfile).
  exact (Hfile twoStatementsText defaultOptions).
Defined.

(** ** Indentation that closes *)

Lemma openAfter_app open a b :
  openAfter open (a ++ b)
  = match openAfter open a with
    | Some open' => openAfter open' b
    | None => None
    end.
Proof.
  revert open. induction a as [| item rest IH]; intros open; simpl; [reflexivity |].
  destruct item as [| [] | | | |]; try apply IH;
    destruct open as [| [] ?]; try reflexivity; apply IH.
Qed.

Lemma tidy_nil : Tidy [].
Proof. split; reflexivity. Qed.

Lemma tidy_app a b : Tidy a -> Tidy b -> Tidy (a ++ b).
Proof.
  intros [Ha Ha'] [Hb Hb']. split.
  - intros open. rewrite openAfter_app, Ha. apply Hb.
  - rewrite forallb_app, Ha', Hb'. reflexivity.
Qed.

Lemma tidy_cons item rest : leavesIndentation item = true -> Tidy rest -> Tidy (item :: rest).
Proof.
  intros Hleaves [Hrest Hrest']. split.
  - intros open. destruct item as [| [] | | | |]; try discriminate; apply Hrest.
  - simpl. rewrite Hrest'.
    destruct item as [| [] | | | |]; try discriminate; simpl in *;
      rewrite ?Hleaves; reflexivity.
Qed.

Lemma tidy_indented (start finish : Behaviour) printItems :
  (start, finish) = (StartIndent, FinishIndent)
  \/ (start, finish) = (StartHangingIndent, FinishHangingIndent) ->
  Tidy printItems ->
  Tidy (PBehaviour start :: printItems ++ [PBehaviour finish]).
Proof.
  intros Hpair [Hitems Hitems']. split.
  - intros open.
    destruct Hpair as [[= -> ->] | [= -> ->]]; simpl;
      rewrite openAfter_app, Hitems; reflexivity.
  - destruct Hpair as [[= -> ->] | [= -> ->]]; simpl;
      rewrite forallb_app, Hitems'; reflexivity.
Qed.

Lemma tidy_group printItems :
  Tidy printItems -> wellIndentedGroup (mkGroup printItems) = true.
Proof.
  intros [Hclosed Hitems]. simpl. unfold closesIndentation.
  rewrite Hclosed, Hitems. reflexivity.
Qed.

Lemma tidy_branch printItems :
  Tidy printItems ->
  closesIndentation printItems && forallb wellIndented printItems = true.
Proof. intros H. apply (tidy_group printItems H). Qed.

(** Lists of items that are there to see. *)
Ltac tidy_list :=
  repeat first
    [ apply tidy_nil
    | apply tidy_cons; [simpl; try reflexivity; try assumption |]
    | apply tidy_app
    | assumption ].

Lemma yields_ret {A} (a : A) (Q : A -> Prop) : Q a -> Yields (ret a) Q.
Proof. intros H c. exact H. Qed.

Lemma yields_any {A} (m : M A) : Yields m (fun _ => True).
Proof. intros c. exact I. Qed.

Lemma yields_bind {A B} (m : M A) (k : A -> M B) (P : A -> Prop) (Q : B -> Prop) :
  Yields m P -> (forall a, P a -> Yields (k a) Q) -> Yields (bind m k) Q.
Proof.
  intros Hm Hk c. unfold bind. specialize (Hm c).
  destruct (m c) as [a c1]. apply (Hk a Hm c1).
Qed.

Lemma yields_andThen (g1 g2 : Gen) :
  Yields g1 Tidy -> Yields g2 Tidy -> Yields (g1 ;;; g2) Tidy.
Proof.
  intros H1 H2. unfold andThen.
  apply (yields_bind _ _ Tidy); [exact H1 | intros a Ha].
  apply (yields_bind _ _ Tidy); [exact H2 | intros b Hb].
  apply yields_ret, tidy_app; assumption.
Qed.

Lemma yields_read (f : Context -> list PrintItem) :
  (forall c, Tidy (f c)) -> Yields (fun c => (f c, c)) Tidy.
Proof. intros H c. apply H. Qed.

Lemma yields_yieldNewLine : Yields yieldNewLine Tidy.
Proof. intros c. simpl. tidy_list. Qed.

Lemma yields_yieldIf_option (flag : Context -> bool) (s : string) :
  Yields (fun c => yieldIf (flag c) (yieldString s) c) Tidy.
Proof. intros c. destruct (flag c); simpl; tidy_list. Qed.

Lemma yields_yieldIf_string (flag : bool) (s : string) :
  Yields (yieldIf flag (yieldString s)) Tidy.
Proof. intros c. destruct flag; simpl; tidy_list. Qed.

Lemma yields_withIndent (g : Gen) : Yields g Tidy -> Yields (withIndent g) Tidy.
Proof.
  intros H c. specialize (H c).
  unfold withIndent, andThen, bind, yield, ret. destruct (g c) as [l c1].
  simpl in *. apply tidy_indented; [left; reflexivity | exact H].
Qed.

Lemma yields_withHangingIndent (g : Gen) :
  Yields g Tidy -> Yields (withHangingIndent g) Tidy.
Proof.
  intros H c. specialize (H c).
  unfold withHangingIndent, andThen, bind, yield, ret. destruct (g c) as [l c1].
  simpl in *. apply tidy_indented; [right; reflexivity | exact H].
Qed.

Lemma yields_surroundWithNewLines (g : Gen) :
  Yields g Tidy -> Yields (surroundWithNewLines g) Tidy.
Proof.
  intros H. unfold surroundWithNewLines.
  apply yields_andThen; [apply yields_yieldNewLine |].
  apply yields_andThen; [exact H | apply yields_yieldNewLine].
Qed.

Lemma yields_parseComment comment : Yields (parseComment comment) Tidy.
Proof.
  intros c. unfold parseComment. destruct (isHandled comment c); simpl;
    [tidy_list |].
  destruct (comment_type comment); simpl; tidy_list.
Qed.

Lemma tidy_commentSeparator newLine lastNode comment :
  Tidy (commentSeparator newLine lastNode comment).
Proof.
  unfold commentSeparator. destruct lastNode as [lastNode |]; [| tidy_list].
  destruct (Z.ltb (lastEndLine lastNode) (commentStartLine comment - 1));
    destruct (Z.ltb (lastEndLine lastNode) (commentStartLine comment));
    simpl; try (destruct (comment_type comment));
    try (destruct (String.eqb (lastType lastNode) "CommentBlock"));
    tidy_list.
Qed.

Lemma yields_parseCommentCollection comments lastNode :
  Yields (parseCommentCollection comments lastNode) Tidy.
Proof.
  revert lastNode. induction comments as [| comment rest IH]; intros lastNode.
  - apply yields_ret, tidy_nil.
  - intros c. simpl. destruct (isHandled comment c); [apply IH |].
    apply (yields_andThen _ _); [apply yields_ret, tidy_commentSeparator |].
    apply yields_andThen; [apply yields_parseComment | apply IH].
Qed.

Lemma yields_parseLeadingComments node : Yields (parseLeadingComments node) Tidy.
Proof.
  unfold parseLeadingComments. destruct (leadingComments (base node));
    [apply yields_parseCommentCollection | apply yields_ret, tidy_nil].
Qed.

Lemma yields_parseTrailingComments node : Yields (parseTrailingComments node) Tidy.
Proof.
  unfold parseTrailingComments. destruct (trailingComments (base node));
    [apply yields_parseCommentCollection | apply yields_ret, tidy_nil].
Qed.

Lemma yields_createCondition name r t f :
  wellIndentedCondition (mkCondition 0 name r t f) = true ->
  Yields (createCondition name r t f) (fun c => wellIndentedCondition c = true).
Proof. intros H c. exact H. Qed.

Lemma yields_newLineIfHanging info :
  Yields (newLineIfHangingSpaceOtherwise info)
    (fun c => wellIndentedCondition c = true).
Proof. intros c. reflexivity. Qed.

(** The steps of a proof that a generator yields a tidy list. *)
Ltac tidy_step :=
  match goal with
  | |- Yields (ret _) Tidy => apply yields_ret; tidy_list
  | |- Yields yieldNothing Tidy => apply yields_ret, tidy_nil
  | |- Yields (yield _) Tidy => apply yields_ret; tidy_list
  | |- Yields (yieldString _) Tidy => apply yields_ret; tidy_list
  | |- Yields yieldNewLine Tidy => apply yields_yieldNewLine
  | |- Yields (parseComment _) Tidy => apply yields_parseComment
  | |- Yields (parseCommentCollection _ _) Tidy => apply yields_parseCommentCollection
  | |- Yields (parseLeadingComments _) Tidy => apply yields_parseLeadingComments
  | |- Yields (parseTrailingComments _) Tidy => apply yields_parseTrailingComments
  | |- Yields (withIndent _) Tidy => apply yields_withIndent
  | |- Yields (withHangingIndent _) Tidy => apply yields_withHangingIndent
  | |- Yields (surroundWithNewLines _) Tidy => apply yields_surroundWithNewLines
  | |- Yields (yieldIf _ (yieldString _)) Tidy => apply yields_yieldIf_string
  | |- Yields (fun c => yieldIf _ (yieldString _) c) Tidy =>
      apply yields_yieldIf_option
  | |- Yields (_ ;;; _) Tidy => apply yields_andThen
  | |- Yields (if ?b then _ else _) Tidy => destruct b
  | |- Yields (match ?x with _ => _ end) Tidy => destruct x
  | H : Yields ?m Tidy |- Yields ?m Tidy => exact H
  end.

Ltac tidy := repeat tidy_step.

(** What [wellIndentedGroup] refuses: an indentation left open, one
    finished out of turn, and either of them in a group further in. *)
Lemma open_indentation_is_refused :
  wellIndentedGroup (mkGroup [PBehaviour StartIndent; PString "a"]) = false
  /\ wellIndentedGroup
       (mkGroup [PBehaviour StartIndent; PBehaviour StartHangingIndent;
                 PBehaviour FinishIndent; PBehaviour FinishHangingIndent])
     = false
  /\ wellIndentedGroup
       (mkGroup [PString "a"; PGroup (mkGroup [PBehaviour FinishIndent])])
     = false.
Proof. repeat split; reflexivity. Qed.

Section HandlersIndent.

Variable removeStringIndentation : string -> Z -> (Z -> bool) -> string.
Variable parseNode : option Node -> M Group.

Hypothesis parseNode_null : parseNode None = ret (mkGroup []).

Let NodeOk (node : Node) : Prop :=
  Yields (parseNode (Some node)) (fun g => wellIndentedGroup g = true).

Lemma yields_yieldNode node :
  NodeOk node -> Yields (yieldNode parseNode (Some node)) Tidy.
Proof.
  intros H. unfold yieldNode.
  eapply yields_bind; [exact H | intros g Hg].
  apply yields_ret, tidy_cons; [exact Hg | apply tidy_nil].
Qed.

Lemma yields_yieldNode_null : Yields (yieldNode parseNode None) Tidy.
Proof.
  unfold yieldNode. rewrite parseNode_null. intros c. simpl.
  apply tidy_cons; [reflexivity | apply tidy_nil].
Qed.

Lemma yields_yieldNode_option node :
  OnOption NodeOk node -> Yields (yieldNode parseNode node) Tidy.
Proof.
  destruct node; [apply yields_yieldNode | intros _; apply yields_yieldNode_null].
Qed.

Lemma yields_yieldIf flag (g : Gen) : Yields g Tidy -> Yields (yieldIf flag g) Tidy.
Proof. intros H. destruct flag; [exact H | apply yields_ret, tidy_nil]. Qed.

Lemma yields_parameterList separator params :
  Forall NodeOk params -> Yields separator Tidy ->
  Yields (parseParameterListItems parseNode separator params) Tidy.
Proof.
  intros Hall Hsep. induction Hall as [| param rest Hparam Hrest IH].
  - apply yields_ret, tidy_nil.
  - simpl. destruct rest as [| next rest'].
    + apply yields_yieldNode, Hparam.
    + apply yields_andThen; [apply yields_yieldNode, Hparam |].
      apply yields_andThen; [tidy |].
      apply yields_andThen; [exact Hsep | exact IH].
Qed.

Lemma yields_separated select separator atFirst nodes :
  Forall NodeOk nodes -> Yields separator Tidy ->
  Yields (parseSeparatedItems parseNode select separator atFirst nodes) Tidy.
Proof.
  intros Hall Hsep. revert atFirst.
  induction Hall as [| node rest Hnode Hrest IH]; intros atFirst.
  - apply yields_ret, tidy_nil.
  - simpl. destruct (select node); [| apply IH].
    apply yields_andThen; [apply yields_yieldIf, Hsep |].
    apply yields_andThen; [apply yields_yieldNode, Hnode | apply IH].
Qed.

Lemma yields_firstNode select nodes :
  Forall NodeOk nodes -> Yields (yieldFirstNode parseNode select nodes) Tidy.
Proof.
  intros Hall. induction Hall as [| node rest Hnode Hrest IH].
  - apply yields_ret, tidy_nil.
  - simpl. destruct (select node); [apply yields_yieldNode, Hnode | exact IH].
Qed.

Lemma yields_statementsFrom previous statements :
  Forall NodeOk statements ->
  Yields (parseStatementsFrom parseNode previous statements) Tidy.
Proof.
  intros Hall. revert previous.
  induction Hall as [| statement rest Hstatement Hrest IH]; intros previous.
  - apply yields_ret, tidy_nil.
  - simpl. apply yields_andThen.
    + destruct previous as [previous |]; [| apply yields_ret, tidy_nil].
      apply yields_read. intros c. unfold statementSeparator.
      destruct (hasBody previous || hasBody statement); tidy_list.
    + apply yields_andThen; [apply yields_yieldNode, Hstatement | apply IH].
Qed.

Lemma yields_parseStatements body block :
  Forall NodeOk body -> Yields (parseStatements parseNode body block) Tidy.
Proof.
  intros Hall. unfold parseStatements.
  apply yields_andThen; [apply yields_statementsFrom, Hall |].
  destruct (innerComments block); tidy.
Qed.

Lemma yields_parametersOrArguments params :
  Forall NodeOk params -> Yields (parseParametersOrArguments parseNode params) Tidy.
Proof.
  intros Hall. unfold parseParametersOrArguments.
  destruct (useNewLinesForParametersOrArguments params); tidy;
    apply yields_parameterList; try assumption; tidy.
Qed.

Lemma yields_typeParameterDeclaration params :
  Forall NodeOk params ->
  Yields (yieldTypeParameterDeclaration parseNode params) Tidy.
Proof.
  intros Hall. unfold yieldTypeParameterDeclaration, parseTypeParameterDeclaration.
  eapply yields_bind with (P := fun g => wellIndentedGroup g = true).
  - eapply yields_bind with (P := Tidy).
    + destruct (getUseNewLinesForNodes params); tidy;
        apply yields_parameterList; try assumption; tidy.
    + intros parsed Hparsed. apply yields_ret, tidy_group, Hparsed.
  - intros g Hg. apply yields_ret, tidy_cons; [exact Hg | apply tidy_nil].
Qed.

Lemma yields_firstLineTrailingComments block comments :
  Yields (getFirstLineTrailingComments block comments) Tidy.
Proof.
  induction comments as [| comment rest IH]; simpl; tidy.
Qed.

(** What a handler needs of the nodes it passes to [parseNode]. *)
Let ChildrenOk (node : Node) : Prop :=
  match node with
  | Program _ body | BlockStatement _ body => Forall NodeOk body
  | ExportNamedDeclaration _ declaration => OnOption NodeOk declaration
  | FunctionDeclaration _ _ _ id typeParameters params returnType body =>
      OnOption NodeOk id /\ OnTypeParameters NodeOk typeParameters
      /\ Forall NodeOk params /\ OnReturnType NodeOk returnType /\ NodeOk body
  | TSTypeAliasDeclaration _ id typeParameters typeAnnotation =>
      NodeOk id /\ OnDeclared NodeOk typeParameters /\ NodeOk typeAnnotation
  | ImportDeclaration _ specifiers source => Forall NodeOk specifiers /\ NodeOk source
  | ExpressionStatement _ expression => NodeOk expression
  | IfStatement _ test consequent =>
      NodeOk test /\ NodeOk consequent
      /\ match consequent with
         | BlockStatement _ body => Forall NodeOk body
         | _ => True
         end
  | CallExpression _ callee arguments => NodeOk callee /\ Forall NodeOk arguments
  | ImportDefaultSpecifier _ local | ImportNamespaceSpecifier _ local => NodeOk local
  | ImportSpecifier _ imported local => NodeOk imported /\ NodeOk local
  | TSTypeParameter _ _ constraint default_ =>
      OnOption NodeOk constraint /\ OnOption NodeOk default_
  | TSUnionType _ types => Forall NodeOk types
  | Identifier _ _ | StringLiteral _ _ | BooleanLiteral _ _ | KeywordNode _ _
  | Other _ _ _ => True
  end.

(** The steps with the handlers' own loops. *)
Ltac tidy_handler :=
  repeat first
    [ tidy_step
    | apply yields_yieldNode; assumption
    | apply yields_yieldNode_null
    | apply yields_yieldNode_option; assumption
    | apply yields_parseStatements; assumption
    | apply yields_parametersOrArguments; assumption
    | apply yields_typeParameterDeclaration; assumption
    | apply yields_firstLineTrailingComments
    | apply yields_firstNode; assumption
    | apply yields_separated; [assumption |]
    | apply yields_yieldIf
    | match goal with
      | |- Yields (bind (newLineIfHangingSpaceOtherwise _) _) Tidy =>
          eapply yields_bind; [apply yields_newLineIfHanging | intros ? ?]
      | |- Yields (bind (createInfo _) _) Tidy =>
          eapply yields_bind; [apply yields_any | intros ? _]
      end ].

Lemma yields_parseConsequent consequent :
  NodeOk consequent ->
  match consequent with
  | BlockStatement _ body => Forall NodeOk body
  | _ => True
  end ->
  Yields (parseConsequent parseNode consequent) Tidy.
Proof.
  intros Hconsequent Hbody. destruct consequent; cbn [parseConsequent]; tidy_handler.
Qed.

Lemma tidy_prepend (printItems prefix : list PrintItem) :
  Tidy printItems -> Tidy prefix ->
  Tidy (prependToIterableIfHasItems printItems prefix).
Proof.
  intros Hitems Hprefix. destruct printItems; [apply tidy_nil |].
  apply tidy_app; assumption.
Qed.

Lemma yields_parseIfStatement test consequent :
  NodeOk test -> NodeOk consequent ->
  match consequent with
  | BlockStatement _ body => Forall NodeOk body
  | _ => True
  end ->
  Yields (parseIfStatement parseNode test consequent) Tidy.
Proof.
  intros Htest Hconsequent Hbody. unfold parseIfStatement.
  eapply yields_bind; [apply yields_any | intros startHeaderInfo _].
  eapply yields_bind with (P := Tidy); [tidy_handler | intros header Hheader].
  eapply yields_bind; [apply yields_any | intros endHeaderInfo _].
  eapply yields_bind; [apply yields_any | intros startStatementsInfo _].
  eapply yields_bind; [apply yields_any | intros endStatementsInfo _].
  eapply yields_bind; [apply yields_newLineIfHanging | intros separator Hseparator].
  eapply yields_bind;
    [ apply yields_createCondition; simpl; rewrite Hseparator; reflexivity
    | intros openBraceCondition HopenBrace ].
  eapply yields_bind with (P := Tidy).
  { eapply yields_bind with (P := Tidy);
      [apply yields_parseCommentCollection | intros result Hresult].
    apply yields_ret, tidy_prepend; [exact Hresult | tidy_list]. }
  intros headerTrailingComment Hcomment.
  eapply yields_bind with (P := Tidy).
  { apply yields_andThen; [apply yields_yieldNewLine |].
    apply yields_andThen; [tidy | apply yields_parseConsequent; assumption]. }
  intros statements Hstatements.
  eapply yields_bind; [apply yields_any | intros context _].
  eapply yields_bind;
    [ apply yields_createCondition; reflexivity
    | intros closeBraceNewLine HcloseBraceNewLine ].
  eapply yields_bind;
    [ apply yields_createCondition; simpl;
      rewrite HopenBrace, HcloseBraceNewLine; reflexivity
    | intros closeBrace HcloseBrace ].
  apply yields_ret. tidy_list.
Qed.

Lemma yields_parseFunc node :
  ChildrenOk node -> Yields (parseFunc removeStringIndentation parseNode node) Tidy.
Proof.
  intros Hchildren. destruct node; cbn [parseFunc ChildrenOk] in *.
  - apply yields_parseStatements, Hchildren.
  - unfold parseBlockStatement. tidy_handler.
  - unfold parseIdentifier. tidy.
  - unfold parseExportNamedDeclaration. tidy_handler.
  - destruct Hchildren as (Hid & Htypes & Hparams & Hreturn & Hbody).
    unfold parseFunctionDeclaration.
    destruct id; destruct typeParameters as [[] |]; destruct returnType as [[] |];
      simpl in Hid, Htypes, Hreturn; tidy_handler.
  - destruct Hchildren as (Hid & Htypes & Hannotation).
    unfold parseTypeAlias. destruct typeParameters; simpl in Htypes; tidy_handler.
  - destruct Hchildren as (Hspecifiers & Hsource).
    unfold parseImportDeclaration. tidy_handler.
  - unfold parseExpressionStatement. tidy_handler.
  - destruct Hchildren as (Htest & Hconsequent & Hbody).
    apply yields_parseIfStatement; assumption.
  - destruct Hchildren as (Hcallee & Harguments).
    unfold parseCallExpression. tidy_handler.
  - unfold parseImportDefaultSpecifier. tidy_handler.
  - unfold parseImportNamespaceSpecifier. tidy_handler.
  - destruct Hchildren as (Himported & Hlocal).
    unfold parseImportSpecifier. tidy_handler.
  - unfold parseStringLiteral. intros c.
    destruct (singleQuotes (options c)); simpl; tidy_list.
  - unfold parseBooleanLiteral. tidy.
  - unfold parseKeyword. tidy.
  - destruct Hchildren as (Hconstraint & Hdefault).
    unfold parseTypeParameter.
    repeat match goal with o : option Node |- _ => destruct o end;
      simpl in Hconstraint, Hdefault; tidy_handler.
  - unfold parseUnionType. tidy_handler.
  - intros c. simpl. tidy_list.
Qed.

End HandlersIndent.

Section TranslatorIndent.

Variable removeStringIndentation : string -> Z -> (Z -> bool) -> string.
Variable resolveNewLineKindFromText : string -> string.

Abbreviation parseNodePresent := (Parser.parseNodePresent removeStringIndentation).
Abbreviation parseNode := (Parser.parseNode removeStringIndentation).
Abbreviation parseFunc := (Parser.parseFunc removeStringIndentation).
Abbreviation parseFile :=
  (Parser.parseFile removeStringIndentation resolveNewLineKindFromText).

Lemma indentation_with_children node :
  Yields (parseNodePresent node) (fun g => wellIndentedGroup g = true)
  /\ match node with
     | BlockStatement _ body =>
         Forall (fun n => Yields (parseNode (Some n))
                            (fun g => wellIndentedGroup g = true))
                body
     | _ => True
     end.
Proof.
  assert (weaken : forall nodes,
    Forall (fun n =>
              Yields (parseNodePresent n) (fun g => wellIndentedGroup g = true)
              /\ match n with
                 | BlockStatement _ body =>
                     Forall (fun n => Yields (parseNode (Some n))
                                        (fun g => wellIndentedGroup g = true))
                            body
                 | _ => True
                 end) nodes ->
    Forall (fun n => Yields (parseNode (Some n))
                       (fun g => wellIndentedGroup g = true)) nodes).
  { intros nodes H. eapply Forall_impl; [exact H | intros ? []; assumption]. }
  induction node using Node_tree_ind;
    (split; [| simpl; auto; apply weaken; assumption]);
    rewrite parseNodePresent_unfold; unfold getWithComments;
    (eapply yields_bind with (P := Tidy);
       [| intros parsed Hparsed; apply yields_ret, tidy_group, Hparsed ]);
    (apply yields_andThen;
       [ apply yields_parseLeadingComments
       | apply yields_andThen; [| apply yields_parseTrailingComments] ]);
    (apply yields_parseFunc; [reflexivity |]); cbn beta iota;
    repeat match goal with
           | o : option _ |- _ => destruct o
           | t : TypeParameters _ |- _ => destruct t
           | t : ReturnType _ |- _ => destruct t
           end;
    simpl in *; repeat split; try tauto; try (apply weaken; assumption).
Qed.

(** No indentation is left open, and none is finished that was not
    started: in the group [parseNode] returns for a node, and in the
    group [parseFile] returns, the items of every group and of every
    branch of a condition, taken by themselves, finish
    [StartIndent] with [FinishIndent] and [StartHangingIndent] with
    [FinishHangingIndent], innermost first. *)
Theorem translation_closes_its_indentation :
  (forall node context, wellIndentedGroup (fst (parseNode node context)) = true)
  /\ (forall file fileText options,
        wellIndentedGroup (fst (parseFile file fileText options)) = true).
Proof.
  assert (Hnode : forall node,
            Yields (parseNode node) (fun g => wellIndentedGroup g = true)).
  { intros [node |]; [apply indentation_with_children | intros c; reflexivity]. }
  split.
  - intros node context. apply Hnode.
  - intros file fileText options. unfold Parser.parseFile.
    apply (yields_bind _ _ (fun g => wellIndentedGroup g = true));
      [apply Hnode | intros program Hprogram].
    apply (yields_bind _ _ (fun _ => True)); [apply yields_any | intros context _].
    apply (yields_bind _ _ (fun c => wellIndentedCondition c = true));
      [apply yields_createCondition; reflexivity | intros condition Hcondition].
    apply yields_ret. simpl. unfold closesIndentation. simpl.
    change (wellIndentedGroup program && (wellIndentedCondition condition && true)
            = true).
    rewrite Hprogram, Hcondition. reflexivity.
Qed.

End TranslatorIndent.

(** ** String literals *)

Lemma string_length_app (a b : string) :
  String.length (a +:+ b) = (String.length a + String.length b)%nat.
Proof. induction a as [| x a IH]; simpl; [reflexivity | rewrite IH; reflexivity]. Qed.

Lemma string_app_assoc (a b c : string) : a +:+ (b +:+ c) = (a +:+ b) +:+ c.
Proof.
  induction a as [| x a IH]; [reflexivity | exact (f_equal (String x) IH)].
Qed.

Lemma replaceAll_app c by_ (a b : string) :
  Js.replaceAll c by_ (a +:+ b) = Js.replaceAll c by_ a +:+ Js.replaceAll c by_ b.
Proof.
  induction a as [| x a IH]; simpl; [reflexivity |].
  rewrite IH. destruct (Ascii.eqb x c); simpl; [| reflexivity].
  apply string_app_assoc.
Qed.

Lemma replaceAll_length quote value :
  String.length (Js.replaceAll quote (String "\" (String quote EmptyString)) value)
  = (String.length value + occurrences quote value)%nat.
Proof.
  induction value as [| x value IH]; simpl; [reflexivity |].
  destruct (Ascii.eqb x quote); [rewrite string_length_app |]; simpl; rewrite IH; lia.
Qed.

Lemma replaceAll_without quote by_ value :
  occurrences quote value = O -> Js.replaceAll quote by_ value = value.
Proof.
  induction value as [| x value IH]; simpl; [reflexivity |].
  destruct (Ascii.eqb x quote); [discriminate |].
  intros H. rewrite (IH H). reflexivity.
Qed.

Lemma replaceAll_quotesFollowBackslash quote afterBackslash value :
  Ascii.eqb "\" quote = false ->
  quotesFollowBackslash quote afterBackslash
    (Js.replaceAll quote (String "\" (String quote EmptyString)) value)
  = true.
Proof.
  intros Hquote. revert afterBackslash.
  induction value as [| x value IH]; intros afterBackslash; simpl; [reflexivity |].
  destruct (Ascii.eqb x quote) eqn:Hx.
  - change (String "\" (String quote EmptyString) +:+ ?rest)
      with (String "\" (String quote rest)).
    cbn [quotesFollowBackslash]. rewrite Hquote, IH, !Ascii.eqb_refl. reflexivity.
  - cbn [quotesFollowBackslash]. rewrite Hx, IH. reflexivity.
Qed.

Lemma parseStringLiteral_result value context :
  parseStringLiteral value context
  = ([PString
        (String (quoteOf (options context))
           (Js.replaceAll (quoteOf (options context))
              (String "\" (String (quoteOf (options context)) EmptyString)) value
            +:+ String (quoteOf (options context)) EmptyString))],
     context).
Proof.
  unfold parseStringLiteral, quoteOf. destruct (singleQuotes (options context));
    reflexivity.
Qed.

(** A string literal is translated to one text, and the context is left
    as it was: the value between two quotes of the kind the options
    ask for, with a backslash in front of every such quote in it. So
    every quote between the outer two follows a backslash, the text
    between them is longer than the value by the number of quotes in
    it, and a value without such a quote is copied as it is. A
    backslash of the value is copied as it is too: behind a value that
    ends in one, the closing quote follows a backslash like the
    others. *)
Theorem string_literal_escapes_its_quote value context :
  (exists body,
     parseStringLiteral value context
     = ([PString (String (quoteOf (options context))
                    (body +:+ String (quoteOf (options context)) EmptyString))],
        context)
     /\ quotesFollowBackslash (quoteOf (options context)) false body = true
     /\ String.length body
        = (String.length value + occurrences (quoteOf (options context)) value)%nat
     /\ (occurrences (quoteOf (options context)) value = O -> body = value))
  /\ (exists body,
        parseStringLiteral (value +:+ "\") context
        = ([PString (String (quoteOf (options context))
                       (body +:+ String "\"
                          (String (quoteOf (options context)) EmptyString)))],
           context)).
Proof.
  assert (Hquote : Ascii.eqb "\" (quoteOf (options context)) = false).
  { unfold quoteOf. destruct (singleQuotes (options context)); reflexivity. }
  split.
  - eexists. split; [apply parseStringLiteral_result |].
    split; [apply replaceAll_quotesFollowBackslash, Hquote |].
    split; [apply replaceAll_length | apply replaceAll_without].
  - exists (Js.replaceAll (quoteOf (options context))
              (String "\" (String (quoteOf (options context)) EmptyString)) value).
    rewrite parseStringLiteral_result, replaceAll_app.
    cbn [Js.replaceAll]. rewrite Hquote.
    rewrite <- string_app_assoc. reflexivity.
Qed.

(** ** Semicolons *)

Section Semicolons.

Variable removeStringIndentation : string -> Z -> (Z -> bool) -> string.

Abbreviation parseNode := (Parser.parseNode removeStringIndentation).




End Semicolons.
